(** * cellmlmanip: unit store and CellML parser

    A shallow embedding of [cellmlmanip/units.py] (class [UnitStore]) and of
    [cellmlmanip/parser.py] (class [Parser], from the root element of the
    document on), with the properties of the unit algebra, of custom unit
    resolution, of the encapsulation hierarchy and of what is read of a
    document stated and proved over the embedding.

    The embedding: [Pint] (the unit library, as far as it is used), [Units]
    (units.py), [ObjectStore] (instances of [UnitStore] as objects with
    addresses), [Parser] (parser.py), [Sample] (a registry and models for the
    examples), [OffsetUnits] (the conversions of units.py on units with an
    offset).  The properties: [Conversion], [OffsetConversion],
    [Resolution], [Hierarchy], [Equations], [Instances],
    [RegistryAttributes] ([get_quantity] with the attributes of the registry
    object), [CustomUnits];
    then [Comparison], [StoreInvariants], [Denotation], [Structure],
    [Loading], [Construction].

    Conventions.
    - Python exceptions are values of [exn]; a method of [UnitStore] is a
      function from the state of the instance to an outcome and the state
      the instance is left in (mutations made before a [raise] persist).
    - Python recursion is bounded by the interpreter's recursion limit; the
      embedding takes that bound as a [fuel] argument and raises
      [RecursionError] when it is used up.
    - Magnitudes and scale factors are exact rationals ([Q]); [math.isclose]
      is its documented formula over [Q].  The numbers of the code are
      binary64 floating-point numbers; they are related to those of the
      embedding by a bound on the relative error
      ([OffsetConversion.approximates]). *)

From Stdlib Require Import QArith Qabs Qminmax ZArith String Ascii List Lia Lqa.
From stdpp Require Import base gmap sets list strings.

#[local] Set Warnings "-clear-no-such-hyp".

Local Open Scope string_scope.
Local Open Scope list_scope.

(** ** Python exceptions and outcomes *)

Inductive exn : Type :=
| ValueError (msg : string)
| KeyError (key : option string)
| AssertionError
| TypeError
| RecursionError
| UndefinedUnitError (name : string)
| DefinitionSyntaxError (text : string)
| DimensionalityError.

Inductive result (A : Type) : Type :=
| Ok (a : A)
| Raise (e : exn).
Arguments Ok {A} a.
Arguments Raise {A} e.

Definition result_bind {A B} (r : result A) (k : A → result B) : result B :=
  match r with
  | Ok a => k a
  | Raise e => Raise e
  end.

Declare Scope py_scope.
Delimit Scope py_scope with py.
Notation "'do' x <- r ; k" := (result_bind r (λ x, k))
  (at level 10, x name, r at level 100, k at level 200,
   format "'[v' 'do'  x  <-  r ; '/' k ']'") : py_scope.
Notation "'do' ' p <- r ; k" := (result_bind r (λ x, match x with p => k end))
  (at level 10, p pattern, r at level 100, k at level 200,
   format "'[v' 'do'  ' p  <-  r ; '/' k ']'") : py_scope.
Local Open Scope py_scope.

(** A computation that reads and updates a state of type [S] and may raise:
    from the state before to an outcome and the state after. *)
Definition Stateful (S A : Type) : Type := S → result A * S.

Definition ret {S A} (a : A) : Stateful S A := λ st, (Ok a, st).
Definition raise {S A} (e : exn) : Stateful S A := λ st, (Raise e, st).
Definition lift {S A} (r : result A) : Stateful S A := λ st, (r, st).
Definition bind {S A B} (m : Stateful S A) (k : A → Stateful S B) : Stateful S B :=
  λ st,
    match m st with
    | (Ok a, st') => k a st'
    | (Raise e, st') => (Raise e, st')
    end.

Notation "'let*' x := m 'in' k" := (bind m (λ x, k))
  (at level 10, x name, m at level 100, k at level 200,
   format "'[v' 'let*'  x  :=  m  'in' '/' k ']'") : py_scope.

(** [d[key]] on a Python dict with string keys. *)
Definition getitem {V} (d : gmap string V) (key : string) : result V :=
  match d !! key with
  | Some v => Ok v
  | None => Raise (KeyError (Some key))
  end.

(** Equality of rationals as pairs of numerator and denominator. *)
#[global] Instance Q_eq_dec : EqDecision Q.
Proof. solve_decision. Defined.

(** ** Strings *)

(** The double quote character. *)
Definition dquote : string := String (ascii_of_nat 34) EmptyString.

(** [s.startswith(p)], returning the remainder of [s]. *)
Fixpoint strip_prefix (p s : string) : option string :=
  match p with
  | EmptyString => Some s
  | String a p' =>
      match s with
      | EmptyString => None
      | String b s' => if decide (a = b) then strip_prefix p' s' else None
      end
  end.

Definition digit_of_ascii (c : ascii) : option Z :=
  let n := nat_of_ascii c in
  if decide (48 ≤ n ∧ n ≤ 57)%nat then Some (Z.of_nat (n - 48)) else None.

(** The digits after the decimal point. *)
Fixpoint parse_fraction (num : Z) (den : positive) (s : string) : option Q :=
  match s with
  | EmptyString => Some (num # den)
  | String c s' =>
      match digit_of_ascii c with
      | Some d => parse_fraction (10 * num + d)%Z (10 * den)%positive s'
      | None => None
      end
  end.

(** Digits, then possibly a decimal point and digits; at least one digit.
    [seen] tells whether a digit has been read. *)
Fixpoint parse_unsigned (num : Z) (seen : bool) (s : string) : option Q :=
  match s with
  | EmptyString => if seen then Some (num # 1) else None
  | String c s' =>
      if decide (c = "."%char) then
        match s' with
        | EmptyString => if seen then Some (num # 1) else None
        | _ => parse_fraction num 1 s'
        end
      else
        match digit_of_ascii c with
        | Some d => parse_unsigned (10 * num + d)%Z true s'
        | None => None
        end
  end.

(** A number literal as an attribute of CellML gives it: an optional sign
    and a decimal numeral.  The value is kept in lowest terms. *)
Definition parse_number (s : string) : option Q :=
  match s with
  | EmptyString => None
  | String c s' =>
      if decide (c = "-"%char) then (λ q, Qred (- q)) <$> parse_unsigned 0 false s'
      else if decide (c = "+"%char) then Qred <$> parse_unsigned 0 false s'
      else Qred <$> parse_unsigned 0 false s
  end.

(** [sep.join(parts)]. *)
Fixpoint join (sep : string) (parts : list string) : string :=
  match parts with
  | [] => EmptyString
  | [p] => p
  | p :: rest => p +:+ sep +:+ join sep rest
  end.

(** ** The Pint unit library

    Pint is an external dependency of the package.  Its registry is modelled
    as far as [UnitStore] uses it. *)

Module Pint.

(** Modelled from the spec: the dimensionality of a unit, "the
    physical-quantity category of a unit independent of scale", as Pint's
    container of base dimensions ([[length]], [[time]], ...) with their
    exponents.  Exponents are rationals in lowest terms; exponents that are
    zero are not stored. *)
Abbreviation Dimensionality := (gmap string Q).

Definition dim_normal (d : Dimensionality) : Dimensionality :=
  filter (λ kv, Qnum kv.2 ≠ 0%Z) d.

Definition dim_mul (d1 d2 : Dimensionality) : Dimensionality :=
  dim_normal (union_with (λ a b, Some (Qred (a + b))) d1 d2).

Definition dim_pow (e : Q) (d : Dimensionality) : Dimensionality :=
  dim_normal ((λ x, Qred (e * x)) <$> d).

(** Modelled from the spec: a unit, "an immutable named dimensional
    quantity".  [unit_str] is what [str(unit)] prints, [unit_scale] the
    factor to the root units of the registry the unit belongs to and
    [unit_dim] its dimensionality. Only multiplicative units are modelled.
    Units with an offset ([degC = kelvin; offset: 273.15]), which convert
    by a factor and a shift, are in [OffsetUnits]. *)
Record Unit : Type := mkUnit {
  unit_str : string;
  unit_scale : Q;
  unit_dim : Dimensionality
}.

(** A quantity: a magnitude and a unit. *)
Record Quantity : Type := mkQuantity {
  magnitude : Q;
  units : Unit
}.

Definition dimensionality (q : Quantity) : Dimensionality := unit_dim (units q).

(** [number * unit]. *)
Definition rmul (number : Q) (unit : Unit) : Quantity := mkQuantity number unit.

(** [q1.to(q2)]: the magnitude of [q1] re-expressed in the units of [q2];
    only the units of [q2] are used.  Pint computes in binary64 floating
    point, where a result is rounded and can overflow; the embedding
    computes the exact result, which a floating-point result of the code
    approximates ([OffsetConversion.approximates]). *)
Definition to (q1 q2 : Quantity) : result Quantity :=
  if decide (dimensionality q1 = dimensionality q2) then
    Ok (mkQuantity (magnitude q1 * unit_scale (units q1) / unit_scale (units q2))
                   (units q2))
  else Raise DimensionalityError.

(** The registry: the units known by name (aliases and symbols are names of
    their own, mapped to the unit they stand for), the prefixes, each with
    its long name and factor, and the arithmetic the registry raises a scale
    to a fractional power with (in Pint, floating point), which is left
    open. *)
Record UnitRegistry : Type := mkRegistry {
  reg_units : gmap string Unit;
  reg_prefixes : list (string * (string * Q));
  reg_fractional_power : Q → Q → Q
}.

(** [scale ** exponent]: exact for an integer exponent. *)
Definition power (ureg : UnitRegistry) (scale exponent : Q) : Q :=
  if decide (Qden exponent = 1%positive)
  then Qpower scale (Qnum exponent)
  else reg_fractional_power ureg scale exponent.

(** A name that is not itself registered is tried as a prefix followed by a
    registered name, prefixes in the order of the table. *)
Fixpoint lookup_prefixed (us : gmap string Unit) (ps : list (string * (string * Q)))
    (name : string) : option Unit :=
  match ps with
  | [] => None
  | (p, (long, factor)) :: ps' =>
      match strip_prefix p name with
      | Some rest =>
          match us !! rest with
          | Some u => Some (mkUnit (long +:+ unit_str u) (factor * unit_scale u) (unit_dim u))
          | None => lookup_prefixed us ps' name
          end
      | None => lookup_prefixed us ps' name
      end
  end.

Definition lookup_unit (ureg : UnitRegistry) (name : string) : option Unit :=
  match reg_units ureg !! name with
  | Some u => Some u
  | None => lookup_prefixed (reg_units ureg) (reg_prefixes ureg) name
  end.

(** [getattr(ureg, name)] for a name that is not the name of an attribute of
    the registry object itself.  Python finds the methods and fields of
    [UnitRegistry] ([define], [parse_expression], ...) before Pint is asked
    for a unit of that name, so that [get_quantity] never builds a declared
    unit of such a name; unit names are taken not to be such names.
    [RegistryAttributes] has the look-up with the attributes, and shows that
    nothing changes for a model that declares no unit under such a name. *)
Definition getattr (ureg : UnitRegistry) (name : string) : result Unit :=
  match lookup_unit ureg name with
  | Some u => Ok u
  | None => Raise (UndefinedUnitError name)
  end.

(** [ureg.parse_expression(name)] for an expression that is a single unit
    name (not a number, not the empty text). *)
Definition parse_expression (ureg : UnitRegistry) (name : string) : result Quantity :=
  match lookup_unit ureg name with
  | Some u => Ok (mkQuantity 1 u)
  | None => Raise (UndefinedUnitError name)
  end.

(** The right-hand side of a definition is a product of factors; a factor is
    a unit name, a unit name raised to a power, or the inverse of a unit
    name.  [render_term] is the text of a factor; for the first two, as
    [UnitStore._make_cellml_unit] writes it. *)
Inductive Term : Type :=
| Atom (name : string)
| Pow (name : string) (exponent : string)
| Per (name : string).

Definition render_term (t : Term) : string :=
  match t with
  | Atom name => name
  | Pow name exponent => "((" +:+ name +:+ ")**" +:+ exponent +:+ ")"
  | Per name => "1 / " +:+ name
  end.

(** A definition [name = factor*factor*... = alias = ...]. *)
Record Definition_ : Type := mkDefinition {
  def_name : string;
  def_terms : list Term;
  def_aliases : list string
}.

Definition render (d : Definition_) : string :=
  def_name d +:+ " = " +:+ join "*" (render_term <$> def_terms d).

Definition eval_term (ureg : UnitRegistry) (t : Term) : result (Q * Dimensionality) :=
  match t with
  | Atom name =>
      do u <- getattr ureg name;
      Ok (unit_scale u, unit_dim u)
  | Pow name exponent =>
      do u <- getattr ureg name;
      match parse_number exponent with
      | Some e => Ok (power ureg (unit_scale u) e, dim_pow e (unit_dim u))
      | None => Raise (DefinitionSyntaxError exponent)
      end
  | Per name =>
      do u <- getattr ureg name;
      Ok ((/ unit_scale u)%Q, dim_pow (-1) (unit_dim u))
  end.

Fixpoint eval_terms (ureg : UnitRegistry) (ts : list Term) : result (Q * Dimensionality) :=
  match ts with
  | [] => Ok (1%Q, ∅)
  | t :: ts' =>
      do '(s, d) <- eval_term ureg t;
      do '(s', d') <- eval_terms ureg ts';
      Ok ((s * s')%Q, dim_mul d d')
  end.

(** [ureg.define(definition)]: the new unit is registered under its name and
    under each alias.  The embedding evaluates the factors when the unit is
    defined.  Pint keeps the text of the definition and evaluates it when
    the unit is first converted: a factor that is not registered, or an
    exponent that is not a decimal numeral, raises here and shows only then
    in Pint.  The two agree on definitions whose factors are registered and
    whose exponents are decimal numerals. *)
Definition define (ureg : UnitRegistry) (d : Definition_) : result UnitRegistry :=
  do '(s, dm) <- eval_terms ureg (def_terms d);
  let u := mkUnit (def_name d) s dm in
  Ok (mkRegistry
        (foldr (λ alias us, <[alias := u]> us) (<[def_name d := u]> (reg_units ureg))
               (def_aliases d))
        (reg_prefixes ureg) (reg_fractional_power ureg)).

End Pint.

(** ** [cellmlmanip/units.py] *)

Module Units.
Import Pint.

(** A [<unit>] element as the parser hands it over: the dict of its XML
    attributes ([units], [prefix], [exponent], ...). *)
Abbreviation unit_element := (gmap string string).

(** The attributes of a [UnitStore] instance. *)
Record UnitStore : Type := mkUnitStore {
  ureg : UnitRegistry;
  cellml_definitions : gmap string (list unit_element);
  cellml_defined : gset string
}.

(** A method of [UnitStore]: the state is the instance. *)
Abbreviation Method := (Stateful UnitStore).

(** [self.ureg.define(unit_definition)]. *)
Definition ureg_define (unit_definition : Definition_) : Method unit :=
  λ self,
    match define (ureg self) unit_definition with
    | Ok ureg' =>
        (Ok (), mkUnitStore ureg' (cellml_definitions self) (cellml_defined self))
    | Raise e => (Raise e, self)
    end.

(** [self.cellml_defined.add(unit_name)]. *)
Definition cellml_defined_add (unit_name : string) : Method unit :=
  λ self,
    (Ok (), mkUnitStore (ureg self) (cellml_definitions self)
                        ({[unit_name]} ∪ cellml_defined self)).

Definition katal_definition : Definition_ :=
  mkDefinition "katal" [Atom "mol"; Per "second"] ["kat"].

(** [UnitStore.__add_undefined_units]. *)
Definition __add_undefined_units (ureg : UnitRegistry) : result UnitRegistry :=
  define ureg katal_definition.

(** [UnitStore.__init__]; [pint_registry] is what [pint.UnitRegistry()]
    builds from Pint's default definitions. *)
Definition __init__ (pint_registry : UnitRegistry)
    (cellml_def : option (gmap string (list unit_element))) : result UnitStore :=
  do ureg <- __add_undefined_units pint_registry;
  Ok (mkUnitStore ureg
        (match cellml_def with
         | Some d => if decide (d = ∅) then ∅ else d
         | None => ∅
         end)
        ∅).

(** The loop of [UnitStore._make_cellml_unit] over the [<unit>] elements of a
    definition; [get_quantity] is the method the loop calls back. *)
Fixpoint for_unit_elements (get_quantity : string → Method Unit)
    (elements : list unit_element) (full_unit_expr : list Term) : Method (list Term) :=
  match elements with
  | [] => ret full_unit_expr
  | unit_element :: elements' =>
      let* name := lift (getitem unit_element "units") in
      let* matched_unit := get_quantity name in
      let expr := unit_str matched_unit in
      let expr :=
        match unit_element !! "prefix" with
        | Some prefix => prefix +:+ expr
        | None => expr
        end in
      let term :=
        match unit_element !! "exponent" with
        | Some exponent => Pow expr exponent
        | None => Atom expr
        end in
      for_unit_elements get_quantity elements' (full_unit_expr ++ [term])
  end.

(** [UnitStore._make_cellml_unit]. *)
Definition _make_cellml_unit (get_quantity : string → Method Unit)
    (custom_unit_name : string) : Method Definition_ :=
  λ self,
    (let* elements := lift (getitem (cellml_definitions self) custom_unit_name) in
     let* full_unit_expr := for_unit_elements get_quantity elements [] in
     ret (mkDefinition custom_unit_name full_unit_expr [])) self.

Definition cannot_find (unit_name : string) : string :=
  "Cannot find the unit with name " +:+ dquote +:+ unit_name +:+ dquote.

(** [UnitStore.get_quantity]. *)
Fixpoint get_quantity (fuel : nat) (unit_name : string) : Method Unit :=
  match fuel with
  | O => raise RecursionError
  | S fuel' =>
      let* _ :=
        (λ self,
           if bool_decide (unit_name ∈ dom (cellml_definitions self))
              && bool_decide (unit_name ∉ cellml_defined self)
           then
             match getattr (ureg self) unit_name with
             | Ok _ => (Ok (), self)
             | Raise (UndefinedUnitError _) =>
                 (let* unit_definition :=
                    _make_cellml_unit (get_quantity fuel') unit_name in
                  let* _ := ureg_define unit_definition in
                  cellml_defined_add unit_name) self
             | Raise e => (Raise e, self)
             end
           else (Ok (), self)) in
      (λ self,
         match parse_expression (ureg self) unit_name with
         | Ok resolved => (Ok (units resolved), self)
         | Raise (UndefinedUnitError _) => (Raise (ValueError (cannot_find unit_name)), self)
         | Raise e => (Raise e, self)
         end)
  end.

(** An argument that is a unit or a quantity. *)
Inductive UnitOrQuantity : Type :=
| AUnit (u : Unit)
| AQuantity (q : Quantity).

(** [UnitStore.one_of_unit]. *)
Definition one_of_unit (unit : UnitOrQuantity) : result Quantity :=
  match unit with
  | AUnit u => Ok (rmul 1 u)
  | AQuantity _ => Raise AssertionError
  end.

Definition quantity_of (u : UnitOrQuantity) : result Quantity :=
  match u with
  | AQuantity q => Ok q
  | AUnit _ => one_of_unit u
  end.

Definition rel_tol : Q := 1 # 1000000000.
Definition abs_tol : Q := 0.

(** [math.isclose(a, b)] with its default tolerances, over exact numbers:
    at the very boundary of the tolerance the floating-point test can
    differ. *)
Definition isclose (a b : Q) : bool :=
  Qle_bool (Qabs (a - b)) (Qmax (rel_tol * Qmax (Qabs a) (Qabs b)) abs_tol).


(** [UnitStore.convert_to]. *)
Definition convert_to (q1 q2 : UnitOrQuantity) : result Quantity :=
  do q1 <- quantity_of q1;
  do q2 <- quantity_of q2;
  to q1 q2.

(** [UnitStore.get_conversion_factor]. *)
Definition get_conversion_factor (from_unit to_unit : UnitOrQuantity) : result Q :=
  match from_unit, to_unit with
  | AUnit from_unit, AUnit to_unit =>
      if decide (unit_dim from_unit = unit_dim to_unit) then
        let from_quantity := rmul 1 from_unit in
        let to_quantity := rmul 1 to_unit in
        do converted <- to from_quantity to_quantity;
        Ok (magnitude converted)
      else Raise AssertionError
  | _, _ => Raise AssertionError
  end.


End Units.

(** ** Units with an offset

    [Pint.Unit] holds the units that convert by a factor alone.  Pint also
    has units with an offset, such as [degC = kelvin; offset: 273.15 =
    celsius]; [units.py] lists [celsius] among the units of CellML, and the
    conversion functions of [UnitStore] take such units like any other.
    [convert_to] and [get_conversion_factor] are embedded here for units
    with their offset; on units without offset they are those of [Units]
    ([OffsetConversion.get_conversion_factor_of_plain]). *)

Module OffsetUnits.
Import Pint.

(** A unit of Pint with the offset of its zero, in root units: a magnitude
    [m] in the unit is [scale * m + offset] in root units.  The units of
    [Pint.Unit] are those with the offset 0. *)
Record OffsetUnit : Type := mkOffsetUnit {
  plain : Unit;
  unit_offset : Q
}.

Record OffsetQuantity : Type := mkOffsetQuantity {
  offset_magnitude : Q;
  offset_units : OffsetUnit
}.

Definition offset_dimensionality (q : OffsetQuantity) : Dimensionality :=
  unit_dim (plain (offset_units q)).

(** [Quantity(number, unit)], the quantity of a magnitude in a unit; it is
    what [1 * unit] builds. *)
Definition offset_rmul (number : Q) (unit : OffsetUnit) : OffsetQuantity :=
  mkOffsetQuantity number unit.

(** [q1.to(q2)]: the magnitude of [q1] is taken to root units and from there
    to the units of [q2]. *)
Definition offset_to (q1 q2 : OffsetQuantity) : result OffsetQuantity :=
  if decide (offset_dimensionality q1 = offset_dimensionality q2) then
    let root := (offset_magnitude q1 * unit_scale (plain (offset_units q1))
                 + unit_offset (offset_units q1))%Q in
    Ok (mkOffsetQuantity
          ((root - unit_offset (offset_units q2))
           / unit_scale (plain (offset_units q2)))%Q
          (offset_units q2))
  else Raise DimensionalityError.

(** An argument that is a unit or a quantity. *)
Inductive UnitOrQuantity : Type :=
| AUnit (u : OffsetUnit)
| AQuantity (q : OffsetQuantity).

(** [UnitStore.one_of_unit]. *)
Definition one_of_unit (unit : UnitOrQuantity) : result OffsetQuantity :=
  match unit with
  | AUnit u => Ok (offset_rmul 1 u)
  | AQuantity _ => Raise AssertionError
  end.

Definition quantity_of (u : UnitOrQuantity) : result OffsetQuantity :=
  match u with
  | AQuantity q => Ok q
  | AUnit _ => one_of_unit u
  end.

(** [UnitStore.convert_to]. *)
Definition convert_to (q1 q2 : UnitOrQuantity) : result OffsetQuantity :=
  do q1 <- quantity_of q1;
  do q2 <- quantity_of q2;
  offset_to q1 q2.

(** [UnitStore.get_conversion_factor]. *)
Definition get_conversion_factor (from_unit to_unit : UnitOrQuantity) : result Q :=
  match from_unit, to_unit with
  | AUnit from_unit, AUnit to_unit =>
      if decide (unit_dim (plain from_unit) = unit_dim (plain to_unit)) then
        let from_quantity := offset_rmul 1 from_unit in
        let to_quantity := offset_rmul 1 to_unit in
        do converted <- offset_to from_quantity to_quantity;
        Ok (offset_magnitude converted)
      else Raise AssertionError
  | _, _ => Raise AssertionError
  end.

End OffsetUnits.

(** ** Instances of [UnitStore] as objects

    Python objects are shared by reference.  An instance of [UnitStore] holds
    references to three objects: its registry, the dict of definitions it
    was given and its set of defined names.  The object store maps addresses
    to objects; [__init__] allocates, [get_quantity] updates in place. *)

Module ObjectStore.
Import Pint Units.

(** The objects a [UnitStore] is made of: a registry, the dict of
    definitions, the set of defined names, and the instance itself, which
    holds the addresses of the three. *)
Inductive Object : Type :=
| ORegistry (registry : UnitRegistry)
| ODict (definitions : gmap string (list unit_element))
| OSet (defined : gset string)
| OUnitStore (ureg cellml_definitions cellml_defined : nat).

Abbreviation Heap := (gmap nat Object).

(** A new object, at an address not in use. *)
Definition alloc (o : Object) : Stateful Heap nat :=
  λ h, let a := fresh (dom h) in (Ok a, <[a := o]> h).

(** [cellml_def if cellml_def else {}]: the dict that is passed, or a new
    empty one when [None] or an empty dict is passed. *)
Definition definitions_object (cellml_def : option nat) : Stateful Heap nat :=
  λ h,
    match cellml_def with
    | Some a =>
        match h !! a with
        | Some (ODict d) => if decide (d = ∅) then alloc (ODict ∅) h else (Ok a, h)
        | _ => (Raise TypeError, h)
        end
    | None => alloc (ODict ∅) h
    end.

(** [UnitStore(cellml_def)]: [__init__] on the store.  [cellml_def] is the
    address of a dict, or [None]. *)
Definition new_UnitStore (pint_registry : UnitRegistry) (cellml_def : option nat)
    : Stateful Heap nat :=
  let* registry := alloc (ORegistry pint_registry) in
  let* _ :=
    (λ h, match __add_undefined_units pint_registry with
          | Ok ureg => (Ok (), <[registry := ORegistry ureg]> h)
          | Raise e => (Raise e, h)
          end) in
  let* definitions := definitions_object cellml_def in
  let* defined := alloc (OSet ∅) in
  alloc (OUnitStore registry definitions defined).

(** The addresses an instance holds. *)
Definition fields (h : Heap) (self : nat) : option (nat * nat * nat) :=
  match h !! self with
  | Some (OUnitStore a b c) => Some (a, b, c)
  | _ => None
  end.

(** The state of an instance: what its three objects hold. *)
Definition view (h : Heap) (self : nat) : option UnitStore :=
  match fields h self with
  | Some (a, b, c) =>
      match h !! a, h !! b, h !! c with
      | Some (ORegistry r), Some (ODict d), Some (OSet s) => Some (mkUnitStore r d s)
      | _, _, _ => None
      end
  | None => None
  end.

(** [self.get_quantity(unit_name)] on the store: the registry and the set of
    the instance are updated in place. *)
Definition get_quantity_at (fuel : nat) (self : nat) (unit_name : string)
    : Stateful Heap Unit :=
  λ h,
    match fields h self, view h self with
    | Some (a, _, c), Some state =>
        let '(r, state') := get_quantity fuel unit_name state in
        (r, <[a := ORegistry (ureg state')]> (<[c := OSet (cellml_defined state')]> h))
    | _, _ => (Raise TypeError, h)
    end.

End ObjectStore.

(** ** [cellmlmanip/parser.py] *)

Module Parser.

(** Standard namespaces present in CellML documents. *)
Inductive XmlNs : Type := CELLML | CMETA | MATHML | RDF.

Definition XmlNs_value (ns : XmlNs) : string :=
  match ns with
  | CELLML => "http://www.cellml.org/cellml/1.0#"
  | CMETA => "http://www.cellml.org/metadata/1.0#"
  | MATHML => "http://www.w3.org/1998/Math/MathML"
  | RDF => "http://www.w3.org/1999/02/22-rdf-syntax-ns#"
  end.

(** [Parser.with_ns]. *)
Definition with_ns (ns_enum : XmlNs) (name : string) : string :=
  "{" +:+ XmlNs_value ns_enum +:+ "}" +:+ name.

(** An element of the parsed document ([lxml.etree.Element]): its tag, its
    attributes and its child elements in document order. *)
#[local] Unset Elimination Schemes.
Inductive Element : Type :=
| mkElement (tag : string) (attrib : gmap string string) (children : list Element).
#[local] Set Elimination Schemes.

Definition tag (e : Element) : string := match e with mkElement t _ _ => t end.
Definition attrib (e : Element) : gmap string string := match e with mkElement _ a _ => a end.
Definition children (e : Element) : list Element := match e with mkElement _ _ c => c end.

(** [element.findall(name)]: the direct children with that tag. *)
Definition findall (element : Element) (name : string) : list Element :=
  filter (λ child, tag child = name) (children element).

(** [element.find(name)]: the first of them, or [None]. *)
Definition find (element : Element) (name : string) : option Element :=
  head (findall element name).

(** A component name as the parser holds it: [attrib.get(...)] gives a string
    or [None]. *)
Abbreviation Name := (option string).

(** The truth value of a name in an [if]: [None] and the empty string are
    false. *)
Definition truthy (name : Name) : bool :=
  match name with
  | Some s => bool_decide (s ≠ EmptyString)
  | None => false
  end.

(** Modelled from the spec: an equation of a component, "a symbolic equality
    lhs = rhs"; the transpiler of [cellmlmanip/mathml2sympy.py] that produces
    equations is not among the sources, and an equation is kept as
    an opaque text. *)
Definition Equation : Type := string.

(** Modelled from the spec: the class [Component] of [cellmlmanip/model.py],
    which is not among the sources: "name (unique key), parent (0
    or 1, weak reference by name), set of encapsulated child names, set of
    sibling names (other children of the same parent), ordered sequence of
    equations, mapping from variable name to Variable". *)
Record Component : Type := mkComponent {
  name : Name;
  parent : Name;
  encapsulated : gset Name;
  siblings : gset Name;
  equations : list Equation;
  variables : gmap string (gmap string string)
}.

(** Modelled from the spec: [Component.add_encapsulated], [set_parent] and
    [add_sibling] record a child, the parent and a sibling by name. *)
Definition add_encapsulated (child : Name) (c : Component) : Component :=
  mkComponent (name c) (parent c) ({[child]} ∪ encapsulated c) (siblings c)
              (equations c) (variables c).

Definition set_parent (p : Name) (c : Component) : Component :=
  mkComponent (name c) p (encapsulated c) (siblings c) (equations c) (variables c).

Definition add_sibling (sibling : Name) (c : Component) : Component :=
  mkComponent (name c) (parent c) (encapsulated c) ({[sibling]} ∪ siblings c)
              (equations c) (variables c).

(** Modelled from the spec: the part of the class [Model] the hierarchy is
    recorded in, the dict [components] from name to component. *)
Record Model : Type := mkModel {
  components : gmap Name Component
}.

(** [self.model.components[key].method(...)]: [KeyError] when no component
    has that name. *)
Definition on_component (key : Name) (method : Component → Component)
    : Stateful Model unit :=
  λ model,
    match components model !! key with
    | Some c => (Ok (), mkModel (<[key := method c]> (components model)))
    | None => (Raise (KeyError key), model)
    end.

(** [for x in xs: body(x)]. *)
Fixpoint for_each {S A} (xs : list A) (body : A → Stateful S unit) : Stateful S unit :=
  match xs with
  | [] => ret ()
  | x :: xs' => let* _ := body x in for_each xs' body
  end.

(** What is done for one [<component_ref>] child before descending into it. *)
Definition record_child (parent_component child_component : Name) : Stateful Model unit :=
  if truthy parent_component then
    let* _ := on_component parent_component (add_encapsulated child_component) in
    on_component child_component (set_parent parent_component)
  else ret ().

(** The end of [__handle_component_ref]: the siblings are registered with
    each other. *)
Definition register_siblings (parent_component : Name) (siblings : list Name)
    : Stateful Model unit :=
  if truthy parent_component && bool_decide (1 < length siblings) then
    for_each (list_prod siblings siblings)
      (λ '(component_a, component_b),
         if decide (component_a ≠ component_b)
         then on_component component_a (add_sibling component_b)
         else ret ())
  else ret ().

(** [Parser.__handle_component_ref].  The loop runs over
    [parent_tag.findall(component_ref)]: children with another tag are
    passed over. *)
Fixpoint __handle_component_ref (parent_tag : Element) (parent_component : Name)
    {struct parent_tag} : Stateful Model unit :=
  match parent_tag with
  | mkElement _ _ elements =>
      let* siblings :=
        (fix loop (elements : list Element) (siblings : list Name) {struct elements}
           : Stateful Model (list Name) :=
           match elements with
           | [] => ret siblings
           | component_ref_element :: elements' =>
               if decide (tag component_ref_element = with_ns CELLML "component_ref") then
                 let child_component := attrib component_ref_element !! "component" in
                 let siblings := siblings ++ [child_component] in
                 let* _ := record_child parent_component child_component in
                 let* _ := __handle_component_ref component_ref_element child_component in
                 loop elements' siblings
               else loop elements' siblings
           end) elements [] in
      register_siblings parent_component siblings
  end.

(** The body of the loop of [__add_relationships], for one [<group>]. *)
Definition add_group (group_element : Element) : Stateful Model unit :=
  match findall group_element (with_ns CELLML "relationship_ref") with
  | [relationship_ref] =>
      let relationship := attrib relationship_ref !! "relationship" in
      if decide (relationship = Some "encapsulation")
      then __handle_component_ref group_element None
      else ret ()
  | _ => raise AssertionError
  end.

(** [Parser.__add_relationships]. *)
Definition __add_relationships (model : Element) : Stateful Model unit :=
  for_each (findall model (with_ns CELLML "group")) add_group.

(** Modelled from the spec: the constant [SYMPY_SYMBOL_DELIMITER] of
    [cellmlmanip/model.py], the delimiter of "<component>$<variable>". *)
Definition SYMPY_SYMBOL_DELIMITER : string := "$".

Section Maths.

(** The transpiler of [cellmlmanip/mathml2sympy.py] and
    [Component.collect_variable_attributes] are not among the sources.
    [parse_string symbol_prefix math_element] stands for
    [Transpiler(dummify=True, symbol_prefix=...).parse_string(...)] on the
    text of the element, returning the equations and the metadata of the
    transpiler; [collect_variable_attributes] updates the variables of the
    component from that metadata. *)
Variable Metadata : Type.
Variable parse_string : string → Element → result (list Equation * Metadata).
Variable collect_variable_attributes :
  Metadata → gmap string (gmap string string) → gmap string (gmap string string).

(** [Parser.__add_maths]; the state is the component. *)
Definition __add_maths (component_element : Element) : Stateful Component unit :=
  λ component,
    match find component_element (with_ns MATHML "math") with
    | Some math_element =>
        match name component with
        | Some component_name =>
            match parse_string (component_name +:+ SYMPY_SYMBOL_DELIMITER) math_element with
            | Ok (sympy_exprs, metadata) =>
                (Ok (),
                 mkComponent (name component) (parent component) (encapsulated component)
                   (siblings component) (equations component ++ sympy_exprs)
                   (collect_variable_attributes metadata (variables component)))
            | Raise e => (Raise e, component)
            end
        | None => (Raise TypeError, component)
        end
    | None => (Ok (), component)
    end.

End Maths.

(** *** [<units>] *)

(** The body of the loop of [Parser.__add_units], for one [<units>]
    element. *)
Definition collect_units (units_collected : gmap Name (list (gmap string string)))
    (units_element : Element) : gmap Name (list (gmap string string)) :=
  let units_name := attrib units_element !! "name" in
  let unit_elements := attrib <$> children units_element in
  match unit_elements with
  | [] =>
      if decide (attrib units_element !! "base_units" = Some "yes")
      then <[units_name := [ {[ "base_units" := "yes" ]} ]]> units_collected
      else units_collected
  | _ :: _ => <[units_name := unit_elements]> units_collected
  end.

(** The dict [units_collected] that [Parser.__add_units] builds and hands
    to [model.add_unit]. *)
Definition units_collected (model : Element) : gmap Name (list (gmap string string)) :=
  foldl collect_units ∅ (findall model (with_ns CELLML "units")).

(** *** [<connection>] *)

(** An entry of [model.connections]. *)
Definition Connection : Type := (Name * Name) * (Name * Name).

(** The error of a local variable that is read before it is assigned. *)
Inductive NameError : Type :=
| UnboundLocalError (variable : string).

(** The loop over the children of one [<connection>]; [map_component] is
    the local variable of that name, [None] while it is unbound. *)
Fixpoint for_children (children : list Element) (map_component : option (Name * Name))
    (map_variables : list (Name * Name)) : option (Name * Name) * list (Name * Name) :=
  match children with
  | [] => (map_component, map_variables)
  | child :: children' =>
      if decide (tag child = with_ns CELLML "map_components") then
        for_children children'
          (Some (attrib child !! "component_1", attrib child !! "component_2"))
          map_variables
      else if decide (tag child = with_ns CELLML "map_variables") then
        for_children children' map_component
          (map_variables ++ [(attrib child !! "variable_1", attrib child !! "variable_2")])
      else for_children children' map_component map_variables
  end.

(** The loop of [Parser.__add_connection] over the [<connection>] elements.
    The local [map_component] lives across the iterations; the state is
    the list [model.connections], and the outcome the error raised, if
    any. *)
Fixpoint for_connections (connection_elements : list Element)
    (map_component : option (Name * Name)) (connections : list Connection)
    : option NameError * list Connection :=
  match connection_elements with
  | [] => (None, connections)
  | connection :: connection_elements' =>
      let '(map_component, map_variables) :=
        for_children (children connection) map_component [] in
      match map_variables, map_component with
      | [], _ => for_connections connection_elements' map_component connections
      | _ :: _, Some (component_1, component_2) =>
          for_connections connection_elements' map_component
            (connections ++
             ((λ '(variable_0, variable_1),
                 ((component_1, variable_0), (component_2, variable_1))) <$> map_variables))
      | _ :: _, None => (Some (UnboundLocalError "map_component"), connections)
      end
  end.

(** [Parser.__add_connection]. *)
Definition __add_connection (model : Element) (connections : list Connection)
    : option NameError * list Connection :=
  for_connections (findall model (with_ns CELLML "connection")) None connections.

(** *** [<component>] *)

Section Components.

(** [Model.add_rdf] and [Model.add_component] of [cellmlmanip/model.py] are
    not among the sources.  [Rdf] stands for what the model holds of RDF,
    [add_rdf rdf] for [self.model.add_rdf(etree.tostring(rdf, encoding=str))]
    and [add_component] for [self.model.add_component]; the transpiler is
    taken as in [__add_maths]. *)
Variable Rdf : Type.
Variable add_rdf : Element → Stateful Rdf unit.
Variable add_component : Component → Stateful Model unit.
Variable Metadata : Type.
Variable parse_string : string → Element → result (list Equation * Metadata).
Variable collect_variable_attributes :
  Metadata → gmap string (gmap string string) → gmap string (gmap string string).

(** Modelled from the spec: [Component(name, model)], a component "created
    once per [<component>] element", with no parent, children, siblings,
    equations or variables yet. *)
Definition new_Component (name : Name) : Component := mkComponent name None ∅ ∅ [] ∅.

(** A computation on one of two objects. *)
Definition on_fst {A B X} (m : Stateful A X) : Stateful (A * B) X :=
  λ s, let '(r, a) := m s.1 in (r, (a, s.2)).

Definition on_snd {A B X} (m : Stateful B X) : Stateful (A * B) X :=
  λ s, let '(r, b) := m s.2 in (r, (s.1, b)).

(** [Parser.__add_rdf]. *)
Definition __add_rdf (element : Element) : Stateful Rdf unit :=
  for_each (findall element (with_ns RDF "RDF")) add_rdf.

(** The attributes of a [<variable>], the key of the [cmeta:id] renamed. *)
Definition variable_attributes (variable_element : Element) : gmap string string :=
  let attributes := attrib variable_element in
  let cmeta_id_attribute := with_ns CMETA "id" in
  match attributes !! cmeta_id_attribute with
  | Some cmeta_id => <["cmeta:id" := cmeta_id]> (delete cmeta_id_attribute attributes)
  | None => attributes
  end.

(** [component.variables[key] = attributes]. *)
Definition set_variable (key : string) (attributes : gmap string string)
    : Stateful Component unit :=
  λ component,
    (Ok (), mkComponent (name component) (parent component) (encapsulated component)
              (siblings component) (equations component)
              (<[key := attributes]> (variables component))).

(** [Parser.__add_variables]; the state is the component and the RDF of the
    model. *)
Definition __add_variables (component_element : Element) : Stateful (Component * Rdf) unit :=
  for_each (findall component_element (with_ns CELLML "variable"))
    (λ variable_element,
       let attributes := variable_attributes variable_element in
       let* key := lift (getitem attributes "name") in
       let* _ := on_fst (set_variable key attributes) in
       on_snd (__add_rdf variable_element)).

(** The body of the loop of [Parser.__add_components]: what is done to the
    new component before it is added to the model. *)
Definition fill_component (component_element : Element) : Stateful (Component * Rdf) unit :=
  let* _ := __add_variables component_element in
  let* _ := on_fst (__add_maths Metadata parse_string collect_variable_attributes
                      component_element) in
  on_snd (__add_rdf component_element).

(** [Parser.__add_components]; the state is the model and its RDF.  A
    component that is not added is dropped with the exception. *)
Definition __add_components (model : Element) : Stateful (Model * Rdf) unit :=
  for_each (findall model (with_ns CELLML "component"))
    (λ component_element s,
       let component := new_Component (attrib component_element !! "name") in
       match fill_component component_element (component, s.2) with
       | (Ok _, (component, rdf)) =>
           let '(r, m) := add_component component s.1 in (r, (m, rdf))
       | (Raise e, (_, rdf)) => (Raise e, (s.1, rdf))
       end).

End Components.

End Parser.

(** ** A small registry and model for the examples *)

Module Sample.
Import Pint Units Parser.

Definition base (name dim : string) : Unit := mkUnit name 1 {[dim := 1%Q]}.

Definition volt_dim : Dimensionality :=
  {[ "[mass]" := 1%Q; "[length]" := 2%Q; "[current]" := (-1)%Q; "[time]" := (-3)%Q ]}.

(** A stand-in for the fractional power of the registry: the exponent is
    rounded down (which is exact on the scale 1). *)
Definition floor_power (scale exponent : Q) : Q :=
  Qpower scale (Qnum exponent / Z.pos (Qden exponent)).

(** An excerpt of Pint's default registry. *)
Definition pint_registry : UnitRegistry :=
  mkRegistry
    (list_to_map
       [ ("meter", base "meter" "[length]"); ("metre", base "meter" "[length]");
         ("m", base "meter" "[length]");
         ("second", base "second" "[time]"); ("s", base "second" "[time]");
         ("kilogram", base "kilogram" "[mass]");
         ("gram", mkUnit "gram" (1 # 1000) {[ "[mass]" := 1%Q ]});
         ("ampere", base "ampere" "[current]"); ("A", base "ampere" "[current]");
         ("kelvin", base "kelvin" "[temperature]");
         ("mole", base "mole" "[substance]"); ("mol", base "mole" "[substance]");
         ("candela", base "candela" "[luminosity]");
         ("volt", mkUnit "volt" 1 volt_dim); ("V", mkUnit "volt" 1 volt_dim);
         ("liter", mkUnit "liter" (1 # 1000) {[ "[length]" := 3%Q ]});
         ("litre", mkUnit "liter" (1 # 1000) {[ "[length]" := 3%Q ]});
         ("dimensionless", mkUnit "dimensionless" 1 ∅) ])
    [ ("milli", ("milli", 1 # 1000)); ("micro", ("micro", 1 # 1000000));
      ("kilo", ("kilo", 1000 # 1)); ("centi", ("centi", 1 # 100));
      ("m", ("milli", 1 # 1000)); ("u", ("micro", 1 # 1000000));
      ("k", ("kilo", 1000 # 1)); ("c", ("centi", 1 # 100)) ]
    floor_power.

(** The least registry a store can be built over: [katal] is defined from
    [mol] and [second]. *)
Definition tiny_registry : UnitRegistry :=
  mkRegistry
    (list_to_map [ ("second", base "second" "[time]"); ("mol", base "mole" "[substance]") ])
    [ ("milli", ("milli", 1 # 1000)) ]
    floor_power.

Definition element (attrs : list (string * string)) : unit_element := list_to_map attrs.

(** Scenario E of the specification: [X = Y^2 * milli-Z], with [Y] and [Z]
    declared after [X]. *)
Definition scenario_E : gmap string (list unit_element) :=
  list_to_map
    [ ("X", [ element [("units", "Y"); ("exponent", "2")];
              element [("units", "Z"); ("prefix", "milli")] ]);
      ("Y", [ element [("units", "metre"); ("prefix", "centi")];
              element [("units", "second"); ("exponent", "-1")] ]);
      ("Z", [ element [("units", "volt"); ("prefix", "kilo")] ]) ].

(** A model with exponents that are not integer literals. *)
Definition fractional : gmap string (list unit_element) :=
  list_to_map
    [ ("root_s", [ element [("units", "second"); ("exponent", "0.5")] ]);
      ("cm2", [ element [("units", "metre"); ("prefix", "centi"); ("exponent", "2.0")] ]) ].


(** A model that declares [mV], a name the registry resolves as milli-volt. *)
Definition colliding : gmap string (list unit_element) :=
  list_to_map [ ("mV", [ element [("units", "volt"); ("prefix", "milli")] ]) ].

(** The registry of a new store: Pint's, with [katal] added. *)
Definition ureg0 : UnitRegistry :=
  match __add_undefined_units pint_registry with
  | Ok ureg => ureg
  | Raise _ => pint_registry
  end.

(** The store [UnitStore(cellml_def)] right after construction. *)
Definition store (cellml_def : gmap string (list unit_element)) : UnitStore :=
  mkUnitStore ureg0 cellml_def ∅.

Definition second : Unit := base "second" "[time]".
Definition millisecond : Unit := mkUnit "millisecond" ((1 # 1000) * 1) {[ "[time]" := 1%Q ]}.
Definition volt : Unit := mkUnit "volt" 1 volt_dim.

Definition component_ref (component : string) (refs : list Element) : Element :=
  mkElement (with_ns CELLML "component_ref") {[ "component" := component ]} refs.

Definition relationship_ref (relationship : string) : Element :=
  mkElement (with_ns CELLML "relationship_ref") {[ "relationship" := relationship ]} [].

Definition group (relationship : string) (refs : list Element) : Element :=
  mkElement (with_ns CELLML "group") ∅ (relationship_ref relationship :: refs).

(** The hierarchy of the test model: [circle_parent] encapsulates [circle_x]
    and [circle_y], [circle_x] encapsulates [circle_x_source] and
    [circle_x_sibling], [circle_y] encapsulates [circle_y_implementation]. *)
Definition circle_refs : list Element :=
  [ component_ref "circle_parent"
      [ component_ref "circle_x"
          [ component_ref "circle_x_source" []; component_ref "circle_x_sibling" [] ];
        component_ref "circle_y"
          [ component_ref "circle_y_implementation" [] ] ] ].

Definition new_component (component_name : string) : Component :=
  mkComponent (Some component_name) None ∅ ∅ [] ∅.

Definition circle_model : Model :=
  mkModel (list_to_map
    ((λ n, (Some n, new_component n)) <$>
     [ "circle_parent"; "circle_x"; "circle_y"; "circle_x_source"; "circle_x_sibling";
       "circle_y_implementation" ])).

Definition model_xml (groups : list Element) : Element :=
  mkElement (with_ns CELLML "model") ∅ groups.

(** A transpiler for the examples: one equation for each child of the
    [<math>] element, named after the [id] of the child. *)
Definition transpile (symbol_prefix : string) (math_element : Element)
    : result (list Equation * unit) :=
  Ok ((λ e, symbol_prefix +:+ default "eq" (attrib e !! "id")) <$> children math_element,
      ()).

Definition math (ids : list string) : Element :=
  mkElement (with_ns MATHML "math") ∅
    ((λ i, mkElement (with_ns MATHML "apply") {[ "id" := i ]} []) <$> ids).

(** A component [A] with two [<math>] elements of one equation each. *)
Definition component_with_maths : Element :=
  mkElement (with_ns CELLML "component") {[ "name" := "A" ]}
    [ math ["first"]; math ["second"] ].

End Sample.

(** * Properties *)

(** ** Unit equality *)

Module Conversion.
Import Pint Units.
Local Open Scope Q_scope.


Lemma isclose_compat (a a' b b' : Q) :
  a == a' → b == b' → isclose a b = isclose a' b'.
Proof.
  intros Ha Hb. unfold isclose.
  apply Bool.eq_iff_eq_true. rewrite !Qle_bool_iff.
  rewrite Ha, Hb. reflexivity.
Qed.


Lemma to_other_dim (q1 q2 : Quantity) :
  dimensionality q1 ≠ dimensionality q2 → to q1 q2 = Raise DimensionalityError.
Proof. intros H. unfold to. rewrite decide_False by done. reflexivity. Qed.


Lemma isclose_refl (a b : Q) : a == b → isclose a b = true.
Proof.
  intros H. rewrite (isclose_compat a b b b H) by reflexivity.
  unfold isclose. apply Qle_bool_iff.
  assert (E : Qabs (b - b) == 0).
  { assert (E0 : b - b == 0) by ring. rewrite E0. reflexivity. }
  rewrite E. apply Q.le_max_r.
Qed.


End Conversion.

(** ** Conversion factors *)

Module OffsetConversion.
Import Pint OffsetUnits.
Local Open Scope Q_scope.

(** *** Numbers of the code and numbers of the embedding *)

(** The bound taken for the relative error of a floating-point result of
    Pint: a few operations in binary64, each within [2^-53] of the exact
    result when nothing overflows or underflows, stay far below it. *)
Definition rounding : Q := 1 # 10000000000.

(** [x] may be the floating-point result of a computation whose exact
    result is [X]. *)
Definition approximates (x X : Q) : Prop := Qabs (x - X) <= rounding * Qabs X.

(** [a] and [b] are close for [math.isclose], and stay so when the test
    itself is rounded: the difference is within seven tenths of the
    tolerance. *)
Definition well_within_tolerance (a b : Q) : Prop :=
  Qabs (a - b) <= (7 # 10) * (Units.rel_tol * Qmax (Qabs a) (Qabs b)).

(** A unit without offset. *)
Definition no_offset (u : OffsetUnit) : Prop := unit_offset u == 0.

(** The unit of [Pint.Unit], as a unit with the offset 0. *)
Definition of_plain (u : Unit) : OffsetUnit := mkOffsetUnit u 0.

(** Pint's [kelvin] and [degC = kelvin; offset: 273.15 = celsius]. *)
Definition kelvin : OffsetUnit := mkOffsetUnit (Sample.base "kelvin" "[temperature]") 0.
Definition celsius : OffsetUnit :=
  mkOffsetUnit (mkUnit "degC" 1 {[ "[temperature]" := 1 ]}) (5463 # 20).

Lemma isclose_iff (a b : Q) :
  Units.isclose a b = true ↔ Qabs (a - b) <= Units.rel_tol * Qmax (Qabs a) (Qabs b).
Proof.
  unfold Units.isclose. rewrite Qle_bool_iff.
  assert (H : 0 <= Units.rel_tol * Qmax (Qabs a) (Qabs b)).
  { apply Qmult_le_0_compat; [discriminate|].
    eapply Qle_trans; [apply Qabs_nonneg|apply Q.le_max_l]. }
  unfold Units.abs_tol. rewrite (Q.max_l _ _ H). reflexivity.
Qed.

Lemma well_within_isclose (a b : Q) :
  well_within_tolerance a b → Units.isclose a b = true.
Proof.
  unfold well_within_tolerance. intros H. apply isclose_iff.
  assert (H0 : 0 <= Units.rel_tol * Qmax (Qabs a) (Qabs b)).
  { apply Qmult_le_0_compat; [discriminate|].
    eapply Qle_trans; [apply Qabs_nonneg|apply Q.le_max_l]. }
  lra.
Qed.

(** Two numbers within three roundings of one exact value are close. *)
Lemma close_of_approximations (X x y : Q) :
  Qabs (x - X) <= 3 * rounding * Qabs X →
  Qabs (y - X) <= 3 * rounding * Qabs X →
  well_within_tolerance x y.
Proof.
  intros Hx Hy. unfold well_within_tolerance.
  assert (Ht : Qabs (x - y) <= Qabs (x - X) + Qabs (y - X)).
  { assert (E : x - y == (x - X) + (X - y)) by ring. rewrite E.
    eapply Qle_trans; [apply Qabs_triangle|].
    rewrite (Qabs_Qminus X y). apply Qle_refl. }
  assert (Hr : Qabs X - Qabs x <= Qabs (x - X)).
  { rewrite (Qabs_Qminus x X). apply Qabs_triangle_reverse. }
  assert (Hm : Qabs x <= Qmax (Qabs x) (Qabs y)) by apply Q.le_max_l.
  assert (HN : 0 <= Qabs X) by apply Qabs_nonneg.
  unfold rounding in *. unfold Units.rel_tol.
  set (N := Qabs X) in *. set (a := Qabs (x - X)) in *. set (b := Qabs (y - X)) in *.
  set (M := Qmax (Qabs x) (Qabs y)) in *. set (ax := Qabs x) in *.
  lra.
Qed.


(** Within the range of the normal numbers of binary64, where the
    arithmetic of Pint neither overflows nor underflows. *)
Definition in_float_range (x : Q) : Prop :=
  Qpower 2 (-1022) <= Qabs x ∧ Qabs x <= Qpower 2 1023.

(** *** The embedding on units without offset *)

Definition same_outcome (r : result Q) (r' : result Q) : Prop :=
  match r, r' with
  | Ok x, Ok x' => x == x'
  | Raise e, Raise e' => e = e'
  | _, _ => False
  end.

Lemma get_conversion_factor_of_plain (u1 u2 : Unit) :
  same_outcome
    (get_conversion_factor (AUnit (of_plain u1)) (AUnit (of_plain u2)))
    (Units.get_conversion_factor (Units.AUnit u1) (Units.AUnit u2)).
Proof.
  unfold get_conversion_factor, Units.get_conversion_factor, offset_to, to.
  unfold offset_dimensionality, dimensionality, offset_rmul, rmul, of_plain.
  cbn [plain unit_offset offset_units offset_magnitude units magnitude].
  destruct (decide (unit_dim u1 = unit_dim u2)); [|reflexivity].
  cbn. unfold Qdiv. ring.
Qed.

Lemma convert_to_of_plain (m : Q) (u1 u2 : Unit) :
  same_outcome
    (do q <- convert_to (AQuantity (offset_rmul m (of_plain u1))) (AUnit (of_plain u2));
     Ok (offset_magnitude q))
    (do q <- Units.convert_to (Units.AQuantity (rmul m u1)) (Units.AUnit u2);
     Ok (magnitude q)).
Proof.
  unfold convert_to, Units.convert_to, offset_to, to.
  cbn [quantity_of one_of_unit Units.quantity_of Units.one_of_unit result_bind].
  unfold offset_dimensionality, dimensionality, offset_rmul, rmul, of_plain.
  cbn [plain unit_offset offset_units offset_magnitude units magnitude].
  destruct (decide (unit_dim u1 = unit_dim u2)); [|reflexivity].
  cbn. unfold Qdiv. ring.
Qed.

(** *** Conversion factors *)

Lemma get_conversion_factor_units (from_unit to_unit : OffsetUnit) :
  get_conversion_factor (AUnit from_unit) (AUnit to_unit) =
  if decide (unit_dim (plain from_unit) = unit_dim (plain to_unit))
  then Ok ((1 * unit_scale (plain from_unit) + unit_offset from_unit - unit_offset to_unit)
           / unit_scale (plain to_unit))
  else Raise AssertionError.
Proof.
  unfold get_conversion_factor, offset_to, offset_dimensionality, offset_rmul.
  cbn [offset_units offset_magnitude].
  destruct (decide (unit_dim (plain from_unit) = unit_dim (plain to_unit))); reflexivity.
Qed.

Lemma convert_to_unit (m : Q) (from_unit to_unit : OffsetUnit) :
  convert_to (AQuantity (offset_rmul m from_unit)) (AUnit to_unit) =
  if decide (unit_dim (plain from_unit) = unit_dim (plain to_unit))
  then Ok (mkOffsetQuantity
             ((m * unit_scale (plain from_unit) + unit_offset from_unit
               - unit_offset to_unit) / unit_scale (plain to_unit))
             to_unit)
  else Raise DimensionalityError.
Proof.
  unfold convert_to, offset_to, offset_dimensionality.
  cbn [quantity_of one_of_unit result_bind]. unfold offset_rmul.
  cbn [offset_units offset_magnitude].
  destruct (decide (unit_dim (plain from_unit) = unit_dim (plain to_unit))); reflexivity.
Qed.

Lemma approximates_product (m f' p' F : Q) :
  approximates f' F → approximates p' (m * f') →
  Qabs (p' - m * F) <= 3 * rounding * Qabs (m * F).
Proof.
  unfold approximates. intros Hf Hp.
  assert (E1 : Qabs (m * f' - m * F) <= rounding * Qabs (m * F)).
  { assert (E : m * f' - m * F == m * (f' - F)) by ring.
    rewrite E, !Qabs_Qmult.
    assert (E' : rounding * (Qabs m * Qabs F) == Qabs m * (rounding * Qabs F)) by ring.
    rewrite E'. rewrite !(Qmult_comm (Qabs m)).
    apply Qmult_le_compat_r; [exact Hf|apply Qabs_nonneg]. }
  assert (E2 : Qabs (m * f') <= Qabs (m * F) + Qabs (m * f' - m * F)).
  { assert (E : m * f' == m * F + (m * f' - m * F)) by ring.
    rewrite E at 1. apply Qabs_triangle. }
  assert (E3 : Qabs (p' - m * F) <= Qabs (p' - m * f') + Qabs (m * f' - m * F)).
  { assert (E : p' - m * F == (p' - m * f') + (m * f' - m * F)) by ring.
    rewrite E at 1. apply Qabs_triangle. }
  assert (HN : 0 <= Qabs (m * F)) by apply Qabs_nonneg.
  unfold rounding in *.
  set (N := Qabs (m * F)) in *. set (a := Qabs (m * f' - m * F)) in *.
  set (b := Qabs (p' - m * f')) in *. set (c := Qabs (m * f')) in *.
  set (d := Qabs (p' - m * F)) in *.
  lra.
Qed.

Lemma approximates_refl (x : Q) : approximates x x.
Proof.
  unfold approximates. assert (E : x - x == 0) by ring. rewrite E.
  apply Qmult_le_0_compat; [discriminate|apply Qabs_nonneg].
Qed.

Lemma approximates_weaken (x X : Q) :
  approximates x X → Qabs (x - X) <= 3 * rounding * Qabs X.
Proof.
  unfold approximates. intros H.
  assert (HN : 0 <= Qabs X) by apply Qabs_nonneg.
  unfold rounding in *. set (N := Qabs X) in *. set (a := Qabs (x - X)) in *. lra.
Qed.

(** The rounded inverse of an approximation of [F] is within three
    roundings of the inverse of [F]. *)
Lemma approximates_inverse (f i F : Q) :
  0 < F → approximates f F → approximates i (1 / f) →
  Qabs (i - 1 / F) <= 3 * rounding * Qabs (1 / F).
Proof.
  unfold approximates. intros HF Hf Hi.
  assert (HFabs : Qabs F == F) by (apply Qabs_pos; lra).
  rewrite HFabs in Hf.
  assert (Hfpos : 0 < f).
  { apply Qabs_Qle_condition in Hf. unfold rounding in Hf. lra. }
  assert (HFnz : ¬ F == 0) by lra. assert (Hfnz : ¬ f == 0) by lra.
  set (u := 1 / f) in *. set (G := 1 / F) in *.
  assert (Hu : 0 < u).
  { unfold u. unfold Qdiv. rewrite Qmult_1_l. by apply Qinv_lt_0_compat. }
  assert (HG : 0 < G).
  { unfold G. unfold Qdiv. rewrite Qmult_1_l. by apply Qinv_lt_0_compat. }
  assert (Huabs : Qabs u == u) by (apply Qabs_pos; lra).
  assert (HGabs : Qabs G == G) by (apply Qabs_pos; lra).
  rewrite Huabs in Hi. rewrite HGabs.
  assert (HuG : Qabs (u - G) <= rounding * u).
  { assert (E : u - G == (F - f) * (u * G)) by (unfold u, G; field; split; assumption).
    rewrite E, Qabs_Qmult.
    assert (Epos : Qabs (u * G) == u * G).
    { apply Qabs_pos. apply Qlt_le_weak. apply Qmult_lt_0_compat; assumption. }
    rewrite Epos. rewrite (Qabs_Qminus F f).
    assert (E' : rounding * u == (rounding * F) * (u * G))
      by (unfold u, G; field; split; assumption).
    rewrite E'. apply Qmult_le_compat_r; [exact Hf|].
    apply Qlt_le_weak. apply Qmult_lt_0_compat; assumption. }
  assert (Ht : Qabs (i - G) <= Qabs (i - u) + Qabs (u - G)).
  { assert (E : i - G == (i - u) + (u - G)) by ring.
    rewrite E at 1. apply Qabs_triangle. }
  assert (HuG' : u - G <= rounding * u).
  { eapply Qle_trans; [apply Qle_Qabs|exact HuG]. }
  unfold rounding in *.
  set (a := Qabs (i - G)) in *. set (b := Qabs (i - u)) in *. set (c := Qabs (u - G)) in *.
  lra.
Qed.


(** C4, as the code has it. [get_conversion_factor] on two units fails,
    with the assertion error, when their dimensionalities differ; when they
    agree its outcome is that of converting one [from_unit] to [to_unit],
    of which it returns the magnitude.  For units without offset, with
    positive scales that are, as their quotient is, within the range of
    binary64, that magnitude is the quotient of the scales, and it is the
    factor between the units: a magnitude [m] in [from_unit] converts to
    [m] times the factor, in that any floating-point results within the
    relative error [rounding] of the factor, of the converted magnitude and
    of the product are well within the tolerance of [math.isclose]. *)
Theorem get_conversion_factor_spec (from_unit to_unit : OffsetUnit) :
  (unit_dim (plain from_unit) ≠ unit_dim (plain to_unit) →
   get_conversion_factor (AUnit from_unit) (AUnit to_unit) = Raise AssertionError) ∧
  (unit_dim (plain from_unit) = unit_dim (plain to_unit) →
   get_conversion_factor (AUnit from_unit) (AUnit to_unit)
   = (do one <- convert_to (AUnit from_unit) (AUnit to_unit);
      Ok (offset_magnitude one))) ∧
  (unit_dim (plain from_unit) = unit_dim (plain to_unit) →
   no_offset from_unit → no_offset to_unit →
   0 < unit_scale (plain from_unit) → 0 < unit_scale (plain to_unit) →
   in_float_range (unit_scale (plain from_unit)) →
   in_float_range (unit_scale (plain to_unit)) →
   in_float_range (unit_scale (plain from_unit) / unit_scale (plain to_unit)) →
   ∃ f, get_conversion_factor (AUnit from_unit) (AUnit to_unit) = Ok f ∧
        f == unit_scale (plain from_unit) / unit_scale (plain to_unit) ∧
        ∀ m, ∃ q,
          convert_to (AQuantity (offset_rmul m from_unit)) (AUnit to_unit) = Ok q ∧
          offset_units q = to_unit ∧
          ∀ f' q' p',
            approximates f' f → approximates q' (offset_magnitude q) →
            approximates p' (m * f') →
            well_within_tolerance q' p' ∧ Units.isclose q' p' = true).
Proof.
  rewrite get_conversion_factor_units. split; [|split].
  - intros Hd. rewrite decide_False by done. reflexivity.
  - intros Hd. rewrite decide_True by done.
    unfold convert_to, offset_to, offset_dimensionality.
    cbn [quantity_of one_of_unit result_bind]. unfold offset_rmul.
    cbn [offset_units offset_magnitude]. rewrite decide_True by done. reflexivity.
  - intros Hd Hof Hot Hsf Hst _ _ _. unfold no_offset in *.
    rewrite decide_True by done. eexists. split; [reflexivity|].
    assert (Hnz : ¬ unit_scale (plain to_unit) == 0) by lra.
    assert (Ef : (1 * unit_scale (plain from_unit) + unit_offset from_unit
                  - unit_offset to_unit) / unit_scale (plain to_unit)
                 == unit_scale (plain from_unit) / unit_scale (plain to_unit)).
    { rewrite Hof, Hot. field. exact Hnz. }
    split; [exact Ef|].
    intros m. rewrite convert_to_unit, decide_True by done.
    eexists. split; [reflexivity|]. split; [reflexivity|].
    cbn [offset_magnitude]. intros f' q' p' Hf Hq Hp.
    set (F := unit_scale (plain from_unit) / unit_scale (plain to_unit)) in *.
    assert (Eq : (m * unit_scale (plain from_unit) + unit_offset from_unit
                  - unit_offset to_unit) / unit_scale (plain to_unit) == m * F).
    { rewrite Hof, Hot. unfold F. field. exact Hnz. }
    unfold approximates in Hf, Hq. rewrite Ef in Hf. rewrite Eq in Hq.
    assert (W : well_within_tolerance q' p').
    { apply (close_of_approximations (m * F)).
      - by apply approximates_weaken.
      - by apply approximates_product with f'. }
    split; [exact W|by apply well_within_isclose].
Qed.

Lemma in_float_range_decide (x : Q) :
  Qle_bool (Qpower 2 (-1022)) (Qabs x) && Qle_bool (Qabs x) (Qpower 2 1023) = true →
  in_float_range x.
Proof.
  intros [H1 H2]%andb_true_iff. split; by apply Qle_bool_iff.
Defined.

Lemma get_conversion_factor_spec_witness :
  ∃ f, get_conversion_factor (AUnit (of_plain Sample.second))
                              (AUnit (of_plain Sample.millisecond)) = Ok f ∧
       f == 1000 ∧
       ∃ q, convert_to (AQuantity (offset_rmul 3 (of_plain Sample.second)))
                       (AUnit (of_plain Sample.millisecond)) = Ok q ∧
            Units.isclose (offset_magnitude q) (3 * f) = true.
Proof.
  destruct (get_conversion_factor_spec (of_plain Sample.second)
              (of_plain Sample.millisecond)) as (_ & _ & H).
  destruct H as (f & Hf & Ef & Hm).
  - reflexivity.
  - reflexivity.
  - reflexivity.
  - reflexivity.
  - reflexivity.
  - apply in_float_range_decide. vm_compute. reflexivity.
  - apply in_float_range_decide. vm_compute. reflexivity.
  - apply in_float_range_decide. vm_compute. reflexivity.
  - exists f. split; [exact Hf|]. split; [rewrite Ef; reflexivity|].
    destruct (Hm 3) as (q & Hq & _ & Hclose). exists q. split; [exact Hq|].
    apply (Hclose f (offset_magnitude q) (3 * f)); apply approximates_refl.
Defined.

(** C4, as stated, fails. [celsius] and [kelvin] have one dimensionality,
    and the number returned for them, 274.15, is what one [celsius] is in
    [kelvin]: 2 [celsius] are 275.15 [kelvin], not 2 times 274.15. *)
Lemma celsius_has_no_factor :
  ¬ (∀ from_unit to_unit : OffsetUnit,
       unit_dim (plain from_unit) = unit_dim (plain to_unit) →
       0 < unit_scale (plain from_unit) → 0 < unit_scale (plain to_unit) →
       ∃ f, get_conversion_factor (AUnit from_unit) (AUnit to_unit) = Ok f ∧
            ∀ m q,
              convert_to (AQuantity (offset_rmul m from_unit)) (AUnit to_unit) = Ok q →
              Units.isclose (offset_magnitude q) (m * f) = true).
Proof.
  intros H.
  destruct (H celsius kelvin eq_refl eq_refl eq_refl) as (f & Hf & Hm).
  vm_compute in Hf. injection Hf as <-.
  specialize (Hm 2 _ eq_refl). vm_compute in Hm. discriminate Hm.
Qed.

(** C5, as the code has it. For two units of one dimensionality, without
    offset, whose positive scales have quotients within the range of
    binary64, the two factors are the two quotients of the scales, and the
    factor from [b] to [a] is the inverse of the factor from [a] to [b]
    within the tolerance of [math.isclose]: any floating-point results
    within the relative error [rounding] of the two factors and of the
    inverse are well within that tolerance. *)
Theorem conversion_factor_round_trip (a b : OffsetUnit) :
  unit_dim (plain a) = unit_dim (plain b) →
  no_offset a → no_offset b →
  0 < unit_scale (plain a) → 0 < unit_scale (plain b) →
  in_float_range (unit_scale (plain a) / unit_scale (plain b)) →
  in_float_range (unit_scale (plain b) / unit_scale (plain a)) →
  ∃ F G,
    get_conversion_factor (AUnit a) (AUnit b) = Ok F ∧
    get_conversion_factor (AUnit b) (AUnit a) = Ok G ∧
    F == unit_scale (plain a) / unit_scale (plain b) ∧
    G == unit_scale (plain b) / unit_scale (plain a) ∧
    ∀ f g i,
      approximates f F → approximates g G → approximates i (1 / f) →
      well_within_tolerance g i ∧ Units.isclose g i = true.
Proof.
  intros Hd Hoa Hob Ha Hb _ _. unfold no_offset in *.
  rewrite !get_conversion_factor_units.
  rewrite decide_True by done. rewrite decide_True by done.
  do 2 eexists. split; [reflexivity|]. split; [reflexivity|].
  assert (Hnza : ¬ unit_scale (plain a) == 0) by lra.
  assert (Hnzb : ¬ unit_scale (plain b) == 0) by lra.
  set (F := unit_scale (plain a) / unit_scale (plain b)).
  set (G := unit_scale (plain b) / unit_scale (plain a)).
  assert (EF : (1 * unit_scale (plain a) + unit_offset a - unit_offset b)
               / unit_scale (plain b) == F).
  { rewrite Hoa, Hob. unfold F. field. exact Hnzb. }
  assert (EG : (1 * unit_scale (plain b) + unit_offset b - unit_offset a)
               / unit_scale (plain a) == G).
  { rewrite Hoa, Hob. unfold G. field. exact Hnza. }
  split; [exact EF|]. split; [exact EG|].
  intros f g i Hf Hg Hi. unfold approximates in Hf, Hg. rewrite EF in Hf. rewrite EG in Hg.
  assert (HF : 0 < F).
  { unfold F, Qdiv. apply Qmult_lt_0_compat; [exact Ha|by apply Qinv_lt_0_compat]. }
  assert (EGF : G == 1 / F) by (unfold F, G; field; split; assumption).
  assert (W : well_within_tolerance g i).
  { apply (close_of_approximations G).
    - by apply approximates_weaken.
    - rewrite EGF. by apply approximates_inverse with f. }
  split; [exact W|by apply well_within_isclose].
Qed.

Lemma conversion_factor_round_trip_witness :
  ∃ F G,
    get_conversion_factor (AUnit (of_plain Sample.second))
                          (AUnit (of_plain Sample.millisecond)) = Ok F ∧
    get_conversion_factor (AUnit (of_plain Sample.millisecond))
                          (AUnit (of_plain Sample.second)) = Ok G ∧
    F == 1000 ∧ G == 1 / 1000.
Proof.
  destruct (conversion_factor_round_trip (of_plain Sample.second)
              (of_plain Sample.millisecond)) as (F & G & HF & HG & EF & EG & _).
  - reflexivity.
  - reflexivity.
  - reflexivity.
  - reflexivity.
  - reflexivity.
  - apply in_float_range_decide. vm_compute. reflexivity.
  - apply in_float_range_decide. vm_compute. reflexivity.
  - exists F, G. split; [exact HF|]. split; [exact HG|].
    split; [rewrite EF; reflexivity|rewrite EG; reflexivity].
Defined.

(** C5, as stated, fails. [celsius] and [kelvin] have one dimensionality;
    the number from [celsius] to [kelvin] is 274.15 and the number from
    [kelvin] to [celsius] is -272.15, which is not the inverse of 274.15. *)
Lemma celsius_factors_not_inverse :
  ¬ (∀ a b : OffsetUnit,
       unit_dim (plain a) = unit_dim (plain b) →
       0 < unit_scale (plain a) → 0 < unit_scale (plain b) →
       ∃ f g, get_conversion_factor (AUnit a) (AUnit b) = Ok f ∧
              get_conversion_factor (AUnit b) (AUnit a) = Ok g ∧
              Units.isclose g (1 / f) = true).
Proof.
  intros H.
  destruct (H celsius kelvin eq_refl eq_refl eq_refl) as (f & g & Hf & Hg & Hc).
  vm_compute in Hf. injection Hf as <-.
  vm_compute in Hg. injection Hg as <-.
  vm_compute in Hc. discriminate Hc.
Qed.

End OffsetConversion.

(** ** Name resolution *)

Module Resolution.
Import Pint Units.

(** The two halves of [get_quantity]: the [if] that materialises a custom
    unit, and the final look-up. *)
Definition materialise (get_quantity : string → Method Unit) (unit_name : string)
    : Method unit :=
  λ self,
    if bool_decide (unit_name ∈ dom (cellml_definitions self))
       && bool_decide (unit_name ∉ cellml_defined self)
    then
      match getattr (ureg self) unit_name with
      | Ok _ => (Ok (), self)
      | Raise (UndefinedUnitError _) =>
          (let* unit_definition := _make_cellml_unit get_quantity unit_name in
           let* _ := ureg_define unit_definition in
           cellml_defined_add unit_name) self
      | Raise e => (Raise e, self)
      end
    else (Ok (), self).

Definition resolve (unit_name : string) : Method Unit :=
  λ self,
    match parse_expression (ureg self) unit_name with
    | Ok resolved => (Ok (units resolved), self)
    | Raise (UndefinedUnitError _) => (Raise (ValueError (cannot_find unit_name)), self)
    | Raise e => (Raise e, self)
    end.

Lemma get_quantity_unfold (fuel : nat) (unit_name : string) :
  get_quantity (S fuel) unit_name =
  bind (materialise (get_quantity fuel) unit_name) (λ _, resolve unit_name).
Proof. reflexivity. Qed.

Lemma resolve_Some (unit_name : string) (self : UnitStore) (u : Unit) :
  lookup_unit (ureg self) unit_name = Some u → resolve unit_name self = (Ok u, self).
Proof. intros H. unfold resolve, parse_expression. rewrite H. reflexivity. Qed.


Lemma resolve_Ok (unit_name : string) (self self' : UnitStore) (u : Unit) :
  resolve unit_name self = (Ok u, self') →
  self' = self ∧ lookup_unit (ureg self) unit_name = Some u.
Proof.
  unfold resolve, parse_expression.
  destruct (lookup_unit (ureg self) unit_name); intros [= <- <-]; done.
Qed.

Lemma materialise_known get_quantity (unit_name : string) (self : UnitStore) (u : Unit) :
  lookup_unit (ureg self) unit_name = Some u →
  materialise get_quantity unit_name self = (Ok (), self).
Proof.
  intros H. unfold materialise, getattr. rewrite H.
  destruct (_ && _); reflexivity.
Qed.


Lemma get_quantity_known (fuel : nat) (unit_name : string) (self : UnitStore) (u : Unit) :
  lookup_unit (ureg self) unit_name = Some u →
  get_quantity (S fuel) unit_name self = (Ok u, self).
Proof.
  intros H. rewrite get_quantity_unfold. unfold bind.
  rewrite (materialise_known _ _ _ _ H). apply resolve_Some, H.
Qed.

(** A successful call ends with the final look-up, made in the state the
    call leaves behind. *)
Lemma get_quantity_Ok_lookup (fuel : nat) (unit_name : string) (self self' : UnitStore)
    (u : Unit) :
  get_quantity fuel unit_name self = (Ok u, self') →
  lookup_unit (ureg self') unit_name = Some u.
Proof.
  destruct fuel as [|fuel]; [intros [=]|].
  rewrite get_quantity_unfold. unfold bind.
  destruct (materialise _ _ self) as [[[]|e] s]; [|intros [=]].
  intros H. apply resolve_Ok in H as [-> H]. exact H.
Qed.

(** What a successful [materialise] does to a name that is declared, not yet
    marked and not resolvable: it marks it. *)
Lemma materialise_marks get_quantity (unit_name : string) (self self' : UnitStore) :
  unit_name ∈ dom (cellml_definitions self) →
  lookup_unit (ureg self) unit_name = None →
  unit_name ∉ cellml_defined self →
  materialise get_quantity unit_name self = (Ok (), self') →
  unit_name ∈ cellml_defined self'.
Proof.
  intros Hdecl Hnone Hnot. unfold materialise, getattr.
  rewrite Hnone, !bool_decide_true by done. cbn [andb]. unfold bind.
  destruct (_make_cellml_unit _ _ self) as [[d|e] s1]; [|intros [=]].
  unfold ureg_define. destruct (define (ureg s1) d) as [r|e]; [|intros [=]].
  unfold cellml_defined_add. intros [= <-]. cbn. set_solver.
Qed.

(** C10. A name that is declared in the model and that the registry already
    resolves is answered with the unit of the registry; the store is left as
    it was, so the declared definition is neither registered nor marked as
    defined, whatever the recursion budget. *)
Theorem registry_name_shadows_definition (fuel : nat) (unit_name : string)
    (self : UnitStore) (u : Unit) :
  unit_name ∈ dom (cellml_definitions self) →
  lookup_unit (ureg self) unit_name = Some u →
  get_quantity (S fuel) unit_name self = (Ok u, self).
Proof. intros _ H. apply get_quantity_known, H. Qed.

Lemma registry_name_shadows_definition_witness :
  "mV" ∈ dom (cellml_definitions (Sample.store Sample.colliding)) ∧
  (∃ u, lookup_unit (ureg (Sample.store Sample.colliding)) "mV" = Some u ∧
        unit_str u = "millivolt" ∧
        get_quantity 1 "mV" (Sample.store Sample.colliding)
        = (Ok u, Sample.store Sample.colliding)).
Proof.
  assert (Hd : "mV" ∈ dom (cellml_definitions (Sample.store Sample.colliding))).
  { apply elem_of_dom. eexists. vm_compute. reflexivity. }
  split; [exact Hd|].
  destruct (lookup_unit (ureg (Sample.store Sample.colliding)) "mV") as [u|] eqn:Hu.
  - exists u. split; [reflexivity|]. split.
    + vm_compute in Hu. injection Hu as <-. reflexivity.
    + exact (registry_name_shadows_definition 0 "mV" _ u Hd Hu).
  - vm_compute in Hu. discriminate.
Defined.





(** C6, as the code has it. After a successful [get_quantity], asking for
    the same name again returns the same unit and leaves the store as the
    first call left it.  The name is marked in [cellml_defined] by the first
    call when it is declared and the registry did not resolve it before;
    when the registry did resolve it, the first call left the store as it
    found it, and marked nothing. *)
Theorem get_quantity_twice (fuel fuel' : nat) (unit_name : string)
    (self self' : UnitStore) (u : Unit) :
  get_quantity fuel unit_name self = (Ok u, self') →
  get_quantity (S fuel') unit_name self' = (Ok u, self') ∧
  (unit_name ∈ dom (cellml_definitions self) →
   lookup_unit (ureg self) unit_name = None →
   unit_name ∈ cellml_defined self') ∧
  (is_Some (lookup_unit (ureg self) unit_name) → self' = self).
Proof.
  intros H. split; [|split].
  - apply get_quantity_known. eapply get_quantity_Ok_lookup, H.
  - intros Hd Hn. destruct fuel as [|fuel]; [discriminate H|].
    rewrite get_quantity_unfold in H. unfold bind in H.
    destruct (materialise _ _ self) as [[[]|e] s] eqn:Hm; [|discriminate H].
    apply resolve_Ok in H as [-> Hs].
    destruct (decide (unit_name ∈ cellml_defined self)) as [Hin|Hnot].
    + unfold materialise in Hm.
      rewrite (bool_decide_false (unit_name ∉ _)), andb_false_r in Hm by tauto.
      injection Hm as <-. congruence.
    + eapply materialise_marks; eassumption.
  - intros [u0 Hu0]. destruct fuel as [|fuel]; [discriminate H|].
    rewrite (get_quantity_known fuel unit_name self u0 Hu0) in H. congruence.
Qed.

Lemma get_quantity_twice_witness :
  ∃ u self',
    get_quantity 5 "X" (Sample.store Sample.scenario_E) = (Ok u, self') ∧
    get_quantity 1 "X" self' = (Ok u, self').
Proof.
  destruct (get_quantity 5 "X" (Sample.store Sample.scenario_E)) as [[u|e] self'] eqn:H.
  - exists u, self'. split; [reflexivity|].
    exact (proj1 (get_quantity_twice 5 0 "X" _ self' u H)).
  - vm_compute in H. discriminate H.
Defined.

(** C6, as stated, fails in its remark on memoisation. [mV] is declared,
    the registry resolves it as milli-volt, and after a successful
    [get_quantity] the name is not in [cellml_defined]. *)
Lemma colliding_name_not_marked :
  ¬ (∀ (fuel fuel' : nat) (unit_name : string) (self self' : UnitStore) (u : Unit),
       unit_name ∈ dom (cellml_definitions self) →
       get_quantity fuel unit_name self = (Ok u, self') →
       get_quantity (S fuel') unit_name self' = (Ok u, self') ∧
       unit_name ∈ cellml_defined self').
Proof.
  intros H.
  destruct (lookup_unit (ureg (Sample.store Sample.colliding)) "mV") as [u|] eqn:Hu.
  - apply (not_elem_of_empty (C:=gset string) "mV").
    apply (H 1%nat 0%nat "mV" (Sample.store Sample.colliding)
             (Sample.store Sample.colliding) u).
    + apply elem_of_dom. eexists. vm_compute. reflexivity.
    + apply get_quantity_known, Hu.
  - vm_compute in Hu. discriminate Hu.
Qed.

End Resolution.

(** ** The encapsulation hierarchy *)

Module Hierarchy.
Import Parser.

(** *** The hierarchy a document describes *)

Definition is_component_ref (e : Element) : Prop :=
  tag e = with_ns CELLML "component_ref".

Definition ref_name (e : Element) : Name := attrib e !! "component".

(** The families of a nested [<component_ref>] structure: for the element
    itself and for every [<component_ref>] below it, the component it names
    (for a [<group>]: none) and the components its [<component_ref>]
    children name. *)
Fixpoint families (parent_tag : Element) (parent_component : Name)
    : list (Name * list Name) :=
  match parent_tag with
  | mkElement _ _ elements =>
      (parent_component, ref_name <$> filter is_component_ref elements) ::
      (fix below (elements : list Element) : list (Name * list Name) :=
         match elements with
         | [] => []
         | e :: elements' =>
             (if decide (is_component_ref e) then families e (ref_name e) else [])
             ++ below elements'
         end) elements
  end.

Definition relationship (group_element : Element) : option Name :=
  match findall group_element (with_ns CELLML "relationship_ref") with
  | [relationship_ref] => Some (attrib relationship_ref !! "relationship")
  | _ => None
  end.

Definition is_encapsulation (group_element : Element) : Prop :=
  relationship group_element = Some (Some "encapsulation").

(** The families of a document: those of its groups of the relationship
    kind [encapsulation]; a group is the root of its tree and names no
    component. *)
Definition hierarchy (model : Element) : list (Name * list Name) :=
  group_element ← findall model (with_ns CELLML "group");
  if decide (is_encapsulation group_element) then families group_element None else [].

(** [p] encapsulates [c]: [c] is a child in a family of the component [p]. *)
Definition encapsulates (fs : list (Name * list Name)) (p c : Name) : Prop :=
  ∃ cs, (p, cs) ∈ fs ∧ truthy p = true ∧ c ∈ cs.

(** [a] has the sibling [b]: both are children in one family of a
    component, and they are different. *)
Definition sibling_of (fs : list (Name * list Name)) (a b : Name) : Prop :=
  ∃ p cs, (p, cs) ∈ fs ∧ truthy p = true ∧ a ∈ cs ∧ b ∈ cs ∧ a ≠ b.

(** *** What a walk records *)

(** The component [c'] is [c] with the children [E n] and the siblings [S n]
    added, and with a parent taken from [E] if [E] has one for [n]. *)
Definition grown (E S : Name → Name → Prop) (n : Name) (c c' : Component) : Prop :=
  name c' = name c ∧ equations c' = equations c ∧ variables c' = variables c ∧
  (∀ x, x ∈ encapsulated c' ↔ x ∈ encapsulated c ∨ E n x) ∧
  (∀ x, x ∈ siblings c' ↔ x ∈ siblings c ∨ S n x) ∧
  (parent c' = parent c ∨ E (parent c') n) ∧
  ((∃ p, E p n) → E (parent c') n).

(** The model [m'] has the components of [m], each grown by [E] and [S]. *)
Definition recorded (E S : Name → Name → Prop) (m m' : Model) : Prop :=
  (∀ n, components m !! n = None ↔ components m' !! n = None) ∧
  (∀ n c c', components m !! n = Some c → components m' !! n = Some c' → grown E S n c c').

Definition nothing : Name → Name → Prop := λ _ _, False.

Lemma recorded_refl (m : Model) : recorded nothing nothing m m.
Proof.
  split; [done|]. intros n c c' H1 H2. simplify_eq.
  unfold grown, nothing. clear. naive_solver.
Qed.

Lemma recorded_trans (E1 S1 E2 S2 : Name → Name → Prop) (m m1 m2 : Model) :
  recorded E1 S1 m m1 → recorded E2 S2 m1 m2 →
  recorded (λ a b, E1 a b ∨ E2 a b) (λ a b, S1 a b ∨ S2 a b) m m2.
Proof.
  intros [Hd1 Hg1] [Hd2 Hg2]. split.
  - intros n. rewrite Hd1. apply Hd2.
  - intros n c c2 Hc Hc2.
    destruct (components m1 !! n) as [c1|] eqn:Hc1.
    2:{ apply Hd1 in Hc1. congruence. }
    destruct (Hg1 n c c1 Hc Hc1) as (N1 & Q1 & V1 & En1 & Sb1 & P1 & L1).
    destruct (Hg2 n c1 c2 Hc1 Hc2) as (N2 & Q2 & V2 & En2 & Sb2 & P2 & L2).
    unfold grown. repeat split; try congruence.
    + rewrite En2, En1. tauto.
    + rewrite En2, En1. tauto.
    + rewrite Sb2, Sb1. tauto.
    + rewrite Sb2, Sb1. tauto.
    + destruct P2 as [P2|P2]; [|tauto]. rewrite P2. tauto.
    + intros [p [Hp|Hp]].
      * destruct P2 as [P2|P2]; [|tauto]. rewrite P2. left. apply L1. eauto.
      * right. apply L2. eauto.
Qed.

Lemma recorded_iff (E S E' S' : Name → Name → Prop) (m m' : Model) :
  (∀ a b, E a b ↔ E' a b) → (∀ a b, S a b ↔ S' a b) →
  recorded E S m m' → recorded E' S' m m'.
Proof.
  intros HE HS [Hd Hg]. split; [exact Hd|].
  intros n c c' Hc Hc'. destruct (Hg n c c' Hc Hc') as (N & Q & V & En & Sb & P & L).
  unfold grown. repeat split; try congruence.
  - rewrite En, HE. tauto.
  - rewrite En, HE. tauto.
  - rewrite Sb, HS. tauto.
  - rewrite Sb, HS. tauto.
  - rewrite <- HE. exact P.
  - intros [p Hp]. apply HE, L. exists p. apply HE, Hp.
Qed.

Lemma recorded_dom (E S : Name → Name → Prop) (m m' : Model) (n : Name) :
  recorded E S m m' → n ∈ dom (components m) → n ∈ dom (components m').
Proof.
  intros [Hd _]. rewrite !elem_of_dom, <- !not_eq_None_Some, Hd. done.
Qed.

(** *** The steps of the walk *)

Ltac solve_grown :=
  intros ? ?; simplify_eq; unfold grown, nothing; cbn;
  repeat split; try tauto; try set_solver; try naive_solver.

Lemma on_component_Some (key : Name) (method : Component → Component) (m : Model)
    (c : Component) :
  components m !! key = Some c →
  on_component key method m = (Ok (), mkModel (<[key := method c]> (components m))).
Proof. intros H. unfold on_component. rewrite H. reflexivity. Qed.

Lemma on_component_None (key : Name) (method : Component → Component) (m : Model) :
  components m !! key = None →
  on_component key method m = (Raise (KeyError key), m).
Proof. intros H. unfold on_component. rewrite H. reflexivity. Qed.

Lemma record_child_falsy (p c : Name) (m : Model) :
  truthy p = false → record_child p c m = (Ok (), m).
Proof. intros H. unfold record_child. rewrite H. reflexivity. Qed.

Lemma record_child_spec (p c : Name) (m : Model) :
  truthy p = true →
  p ∈ dom (components m) → c ∈ dom (components m) →
  ∃ m', record_child p c m = (Ok (), m') ∧
        recorded (λ a b, a = p ∧ b = c) nothing m m'.
Proof.
  intros Ht [P HP]%elem_of_dom [C HC]%elem_of_dom.
  unfold record_child. rewrite Ht. unfold bind.
  rewrite (on_component_Some _ _ _ _ HP). cbn [components].
  destruct (decide (p = c)) as [->|Hne].
  - rewrite (on_component_Some _ _ _ (add_encapsulated c P))
      by (cbn [components]; apply lookup_insert_eq).
    eexists. split; [reflexivity|]. split; cbn [components].
    + intros n. rewrite !lookup_insert. case_decide; [subst; split; congruence|done].
    + intros n c0 c0'. rewrite !lookup_insert. case_decide as Hn.
      * subst n. solve_grown.
      * solve_grown.
  - rewrite (on_component_Some _ _ _ C)
      by (cbn [components]; rewrite lookup_insert_ne by done; exact HC).
    eexists. split; [reflexivity|]. split; cbn [components].
    + intros n. rewrite !lookup_insert. repeat case_decide; subst; split; congruence.
    + intros n c0 c0'. rewrite !lookup_insert. repeat case_decide; subst.
      * solve_grown.
      * solve_grown.
      * solve_grown.
Qed.

Lemma add_sibling_spec (a b : Name) (m : Model) :
  a ∈ dom (components m) →
  ∃ m', on_component a (add_sibling b) m = (Ok (), m') ∧
        recorded nothing (λ x y, x = a ∧ y = b) m m'.
Proof.
  intros [A HA]%elem_of_dom. rewrite (on_component_Some _ _ _ _ HA).
  eexists. split; [reflexivity|]. split; cbn [components].
  - intros n. rewrite !lookup_insert. case_decide; [subst; split; congruence|done].
  - intros n c0 c0'. rewrite !lookup_insert. case_decide; subst.
    + solve_grown.
    + solve_grown.
Qed.

Definition register_pair : Name * Name → Stateful Model unit :=
  λ '(component_a, component_b),
    if decide (component_a ≠ component_b)
    then on_component component_a (add_sibling component_b)
    else ret ().

Lemma register_pairs_spec (pairs : list (Name * Name)) (m : Model) :
  (∀ a b, (a, b) ∈ pairs → a ≠ b → a ∈ dom (components m)) →
  ∃ m', for_each pairs register_pair m = (Ok (), m') ∧
        recorded nothing (λ a b, (a, b) ∈ pairs ∧ a ≠ b) m m'.
Proof.
  revert m. induction pairs as [|[a b] pairs IH]; intros m Hdom.
  - exists m. split; [reflexivity|].
    eapply recorded_iff; [| |apply recorded_refl]; [done|].
    intros x y. unfold nothing. rewrite elem_of_nil. tauto.
  - cbn [for_each]. unfold bind. cbn [register_pair].
    destruct (decide (a ≠ b)) as [Hab|Hab].
    + destruct (add_sibling_spec a b m) as (m1 & -> & R1).
      { apply (Hdom a b); [left|done]. }
      destruct (IH m1) as (m2 & -> & R2).
      { intros x y Hxy Hne. eapply recorded_dom; [exact R1|].
        apply (Hdom x y); [by right|done]. }
      exists m2. split; [reflexivity|].
      eapply recorded_iff; [| |exact (recorded_trans _ _ _ _ _ _ _ R1 R2)].
      * unfold nothing. tauto.
      * intros x y. cbn beta. rewrite elem_of_cons. naive_solver.
    + cbn [ret]. destruct (IH m) as (m2 & -> & R2).
      { intros x y Hxy Hne. apply (Hdom x y); [by right|done]. }
      exists m2. split; [reflexivity|].
      eapply recorded_iff; [| |exact R2]; [done|].
      intros x y. rewrite elem_of_cons. apply dec_stable in Hab. naive_solver.
Qed.

Lemma register_siblings_spec (p : Name) (names : list Name) (m : Model) :
  (truthy p = true → ∀ c, c ∈ names → c ∈ dom (components m)) →
  ∃ m', register_siblings p names m = (Ok (), m') ∧
        recorded nothing
          (λ a b, truthy p = true ∧ a ∈ names ∧ b ∈ names ∧ a ≠ b) m m'.
Proof.
  intros Hdom. unfold register_siblings.
  destruct (truthy p) eqn:Ht; cbn [andb].
  - case_bool_decide as Hlen.
    + destruct (register_pairs_spec (list_prod names names) m) as (m' & Hm' & R).
      { intros a b [Ha _]%list_elem_of_In%in_prod_iff _.
        apply Hdom; [done|]. by apply list_elem_of_In. }
      exists m'. split; [exact Hm'|].
      eapply recorded_iff; [| |exact R]; [done|].
      intros a b. cbn beta.
      rewrite list_elem_of_In, in_prod_iff, <- !list_elem_of_In. tauto.
    + exists m. split; [reflexivity|].
      eapply recorded_iff; [| |apply recorded_refl]; [done|].
      intros a b. unfold nothing. split; [done|].
      intros (_ & Ha & Hb & Hne). destruct names as [|x [|y names]]; cbn in Hlen.
      * by apply elem_of_nil in Ha.
      * apply list_elem_of_singleton in Ha, Hb. congruence.
      * lia.
  - exists m. split; [reflexivity|].
    eapply recorded_iff; [| |apply recorded_refl]; [done|].
    intros a b. unfold nothing. naive_solver.
Qed.

(** *** The walk *)

Lemma Element_ind' (P : Element → Prop) :
  (∀ t a elements, Forall P elements → P (mkElement t a elements)) → ∀ e, P e.
Proof.
  intros step. fix IH 1. intros [t a elements]. apply step.
  induction elements as [|e elements IHl]; constructor; [apply IH|exact IHl].
Qed.

(** The loop of [__handle_component_ref], by name. *)
Definition walk_refs (handle : Element → Name → Stateful Model unit)
    (parent_component : Name) : list Element → list Name → Stateful Model (list Name) :=
  fix loop (elements : list Element) (siblings : list Name) {struct elements}
    : Stateful Model (list Name) :=
    match elements with
    | [] => ret siblings
    | component_ref_element :: elements' =>
        if decide (tag component_ref_element = with_ns CELLML "component_ref") then
          let child_component := attrib component_ref_element !! "component" in
          let siblings := siblings ++ [child_component] in
          let* _ := record_child parent_component child_component in
          let* _ := handle component_ref_element child_component in
          loop elements' siblings
        else loop elements' siblings
    end.

Lemma handle_component_ref_unfold t a (elements : list Element) (p : Name) :
  __handle_component_ref (mkElement t a elements) p =
  (let* siblings := walk_refs __handle_component_ref p elements [] in
   register_siblings p siblings).
Proof. reflexivity. Qed.

Fixpoint families_below (elements : list Element) : list (Name * list Name) :=
  match elements with
  | [] => []
  | e :: elements' =>
      (if decide (is_component_ref e) then families e (ref_name e) else [])
      ++ families_below elements'
  end.

Lemma families_unfold t a (elements : list Element) (p : Name) :
  families (mkElement t a elements) p =
  (p, ref_name <$> filter is_component_ref elements) :: families_below elements.
Proof. reflexivity. Qed.

(** Every component a family names exists in the model. *)
Definition declared (m : Model) (fs : list (Name * list Name)) : Prop :=
  ∀ p cs, (p, cs) ∈ fs → truthy p = true →
          p ∈ dom (components m) ∧ ∀ c, c ∈ cs → c ∈ dom (components m).

Lemma declared_recorded (E S : Name → Name → Prop) (m m' : Model) fs :
  recorded E S m m' → declared m fs → declared m' fs.
Proof.
  intros R D p cs Hin Ht. destruct (D p cs Hin Ht) as [Hp Hcs].
  split; [eapply recorded_dom; eauto|]. intros c Hc. eapply recorded_dom; eauto.
Qed.

Lemma declared_app (m : Model) fs1 fs2 :
  declared m (fs1 ++ fs2) ↔ declared m fs1 ∧ declared m fs2.
Proof.
  unfold declared. split.
  - intros D. split; intros p cs Hin; apply D, elem_of_app; tauto.
  - intros [D1 D2] p cs [Hin|Hin]%elem_of_app; [by apply D1|by apply D2].
Qed.

Lemma encapsulates_app fs1 fs2 (a b : Name) :
  encapsulates (fs1 ++ fs2) a b ↔ encapsulates fs1 a b ∨ encapsulates fs2 a b.
Proof. unfold encapsulates. setoid_rewrite elem_of_app. naive_solver. Qed.

Lemma sibling_of_app fs1 fs2 (a b : Name) :
  sibling_of (fs1 ++ fs2) a b ↔ sibling_of fs1 a b ∨ sibling_of fs2 a b.
Proof. unfold sibling_of. setoid_rewrite elem_of_app. naive_solver. Qed.

Lemma encapsulates_nil (a b : Name) : encapsulates [] a b ↔ False.
Proof. unfold encapsulates. setoid_rewrite elem_of_nil. naive_solver. Qed.

Lemma sibling_of_nil (a b : Name) : sibling_of [] a b ↔ False.
Proof. unfold sibling_of. setoid_rewrite elem_of_nil. naive_solver. Qed.

Lemma record_child_total (p c : Name) (m : Model) :
  (truthy p = true → p ∈ dom (components m) ∧ c ∈ dom (components m)) →
  ∃ m', record_child p c m = (Ok (), m') ∧
        recorded (λ a b, truthy p = true ∧ a = p ∧ b = c) nothing m m'.
Proof.
  intros H. destruct (truthy p) eqn:Ht.
  - destruct H as [Hp Hc]; [done|].
    destruct (record_child_spec p c m Ht Hp Hc) as (m' & Hm' & R).
    exists m'. split; [exact Hm'|].
    eapply recorded_iff; [| |exact R]; [|done]. naive_solver.
  - exists m. split; [by apply record_child_falsy|].
    eapply recorded_iff; [| |apply recorded_refl]; [|done].
    unfold nothing. naive_solver.
Qed.

(** What the walk below one element is to establish. *)
Definition walk_correct (e : Element) : Prop :=
  ∀ p m, declared m (families e p) →
         ∃ m', __handle_component_ref e p m = (Ok (), m') ∧
               recorded (encapsulates (families e p)) (sibling_of (families e p)) m m'.

Lemma walk_refs_spec (p : Name) (elements : list Element) :
  Forall walk_correct elements →
  ∀ (acc : list Name) (m : Model),
    (truthy p = true →
     p ∈ dom (components m) ∧
     ∀ c, c ∈ ref_name <$> filter is_component_ref elements → c ∈ dom (components m)) →
    declared m (families_below elements) →
    ∃ m', walk_refs __handle_component_ref p elements acc m
          = (Ok (acc ++ (ref_name <$> filter is_component_ref elements)), m') ∧
          recorded
            (λ a b, (truthy p = true ∧ a = p ∧
                     b ∈ ref_name <$> filter is_component_ref elements)
                    ∨ encapsulates (families_below elements) a b)
            (sibling_of (families_below elements)) m m'.
Proof.
  induction 1 as [|e elements He _ IH]; intros acc m Hp D.
  - exists m. cbn. rewrite app_nil_r. split; [reflexivity|].
    eapply recorded_iff; [| |apply recorded_refl].
    + intros a b. unfold nothing. rewrite encapsulates_nil, elem_of_nil. tauto.
    + intros a b. unfold nothing. rewrite sibling_of_nil. tauto.
  - cbn [walk_refs families_below] in *. rewrite filter_cons in *.
    fold (is_component_ref e) in *.
    destruct (decide (is_component_ref e)) as [Hr|Hr].
    + rewrite fmap_cons in *. fold (ref_name e). apply declared_app in D as [De Dl].
      unfold bind.
      destruct (record_child_total p (ref_name e) m) as (m1 & -> & R1).
      { intros Ht. destruct (Hp Ht) as [? Hc]. split; [done|]. apply Hc. left. }
      destruct (He (ref_name e) m1) as (m2 & -> & R2).
      { eapply declared_recorded; eauto. }
      pose proof (recorded_trans _ _ _ _ _ _ _ R1 R2) as R12.
      destruct (IH (acc ++ [ref_name e]) m2) as (m3 & -> & R3).
      { intros Ht. destruct (Hp Ht) as [? Hc].
        split; [eapply recorded_dom; eauto|].
        intros c Hin. eapply recorded_dom; [exact R12|]. apply Hc. by right. }
      { eapply declared_recorded; eauto. }
      exists m3. split; [by rewrite <- app_assoc|].
      eapply recorded_iff; [| |exact (recorded_trans _ _ _ _ _ _ _ R12 R3)].
      * intros a b. cbn beta. rewrite encapsulates_app, elem_of_cons.
        unfold nothing. naive_solver.
      * intros a b. cbn beta. rewrite sibling_of_app. unfold nothing. tauto.
    + cbn [app] in *. apply IH; assumption.
Qed.

Lemma handle_component_ref_spec (e : Element) : walk_correct e.
Proof.
  induction e as [t a elements IH] using Element_ind'. intros p m D.
  rewrite families_unfold in *. rewrite handle_component_ref_unfold. unfold bind.
  set (names := ref_name <$> filter is_component_ref elements) in *.
  assert (Dhead : truthy p = true →
                  p ∈ dom (components m) ∧ ∀ c, c ∈ names → c ∈ dom (components m)).
  { intros Ht. apply (D p names); [left|done]. }
  assert (Dbelow : declared m (families_below elements)).
  { intros q cs Hin. apply D. by right. }
  destruct (walk_refs_spec p elements IH [] m Dhead Dbelow) as (m1 & -> & R1).
  cbn [app]. fold names in R1 |- *.
  destruct (register_siblings_spec p names m1) as (m2 & -> & R2).
  { intros Ht c Hc. eapply recorded_dom; [exact R1|]. by apply Dhead. }
  exists m2. split; [reflexivity|].
  eapply recorded_iff; [| |exact (recorded_trans _ _ _ _ _ _ _ R1 R2)].
  - intros x y. cbn beta. unfold nothing, encapsulates.
    setoid_rewrite elem_of_cons. naive_solver.
  - intros x y. cbn beta. unfold nothing, sibling_of.
    setoid_rewrite elem_of_cons. naive_solver.
Qed.

(** *** Groups *)

Definition hierarchy_of (groups : list Element) : list (Name * list Name) :=
  group_element ← groups;
  if decide (is_encapsulation group_element) then families group_element None else [].

Lemma add_group_encapsulation (group_element : Element) :
  is_encapsulation group_element →
  add_group group_element = __handle_component_ref group_element None.
Proof.
  unfold is_encapsulation, relationship, add_group.
  destruct (findall group_element _) as [|r [|]]; try done.
  intros [= H]. rewrite decide_True by done. reflexivity.
Qed.

Lemma add_group_other (group_element : Element) (m : Model) :
  ¬ is_encapsulation group_element →
  add_group group_element m
  = (match relationship group_element with
     | Some _ => Ok ()
     | None => Raise AssertionError
     end, m).
Proof.
  unfold is_encapsulation, relationship, add_group.
  destruct (findall group_element _) as [|r [|]]; try done.
  intros H. rewrite decide_False by congruence. reflexivity.
Qed.

Lemma add_groups_spec (groups : list Element) (m : Model) :
  Forall (λ g, is_Some (relationship g)) groups →
  declared m (hierarchy_of groups) →
  ∃ m', for_each groups add_group m = (Ok (), m') ∧
        recorded (encapsulates (hierarchy_of groups)) (sibling_of (hierarchy_of groups))
                 m m'.
Proof.
  intros Hrel. revert m. induction Hrel as [|g groups [r Hr] _ IH]; intros m D.
  - exists m. split; [reflexivity|].
    eapply recorded_iff; [| |apply recorded_refl]; intros a b; unfold nothing.
    + by rewrite encapsulates_nil.
    + by rewrite sibling_of_nil.
  - unfold hierarchy_of in D |- *. rewrite bind_cons in D |- *.
    fold (hierarchy_of groups) in D |- *.
    apply declared_app in D as [Dg Dl]. cbn [for_each]. unfold bind.
    destruct (decide (is_encapsulation g)) as [He|He].
    + rewrite add_group_encapsulation by done.
      destruct (handle_component_ref_spec g None m Dg) as (m1 & -> & R1).
      destruct (IH m1) as (m2 & -> & R2); [eapply declared_recorded; eauto|].
      exists m2. split; [reflexivity|].
      eapply recorded_iff; [| |exact (recorded_trans _ _ _ _ _ _ _ R1 R2)]; intros a b.
      * by rewrite encapsulates_app.
      * by rewrite sibling_of_app.
    + rewrite add_group_other, Hr by done.
      destruct (IH m Dl) as (m2 & -> & R2).
      exists m2. split; [reflexivity|].
      eapply recorded_iff; [| |exact R2]; intros a b.
      * rewrite encapsulates_app, encapsulates_nil. tauto.
      * rewrite sibling_of_app, sibling_of_nil. tauto.
Qed.

(** Every group has exactly one [<relationship_ref>]. *)
Definition single_relationship (model : Element) : bool :=
  forallb (λ g, bool_decide (is_Some (relationship g)))
          (findall model (with_ns CELLML "group")).

(** [declared], as a test. *)
Definition all_declared (m : Model) (fs : list (Name * list Name)) : bool :=
  forallb (λ '(p, cs),
             negb (truthy p)
             || (bool_decide (p ∈ dom (components m))
                 && forallb (λ c, bool_decide (c ∈ dom (components m))) cs))
          fs.

Lemma all_declared_declared (m : Model) fs : all_declared m fs = true → declared m fs.
Proof.
  unfold all_declared. rewrite forallb_forall. intros H p cs Hin Ht.
  apply list_elem_of_In, H in Hin. rewrite Ht in Hin. cbn in Hin.
  apply andb_true_iff in Hin as [Hp Hcs]. apply bool_decide_eq_true in Hp.
  split; [exact Hp|]. intros c Hc. rewrite forallb_forall in Hcs.
  apply list_elem_of_In, Hcs in Hc. by apply bool_decide_eq_true in Hc.
Qed.

(** C7. A group that is not of the relationship kind [encapsulation] leaves
    the model as it is.  For a document whose groups each have one
    [<relationship_ref>] and name declared components, [__add_relationships]
    returns, and the model it leaves has the same components, each with:
    as encapsulated children, those it had and those a [<component_ref>]
    tree of an encapsulation group gives it at any depth; as parent, a
    component that encapsulates it if there is one; as siblings, those it had
    and the other children of a component that it is a child of.  No
    component is registered as its own sibling. *)
Theorem add_relationships_builds_hierarchy (model : Element) (m : Model) :
  single_relationship model = true →
  all_declared m (hierarchy model) = true →
  (∀ group_element m0,
     ¬ is_encapsulation group_element → (add_group group_element m0).2 = m0) ∧
  (∃ m', __add_relationships model m = (Ok (), m') ∧
         recorded (encapsulates (hierarchy model)) (sibling_of (hierarchy model)) m m') ∧
  (∀ a, ¬ sibling_of (hierarchy model) a a).
Proof.
  intros Hrel D. split; [|split].
  - intros g m0 Hg. rewrite add_group_other by done. reflexivity.
  - apply add_groups_spec.
    + apply Forall_forall. intros g Hg. unfold single_relationship in Hrel.
      rewrite forallb_forall in Hrel. apply list_elem_of_In, Hrel in Hg.
      by apply bool_decide_eq_true in Hg.
    + by apply all_declared_declared.
  - intros a (p & cs & _ & _ & _ & _ & Hne). by apply Hne.
Qed.

Lemma add_relationships_builds_hierarchy_witness :
  let model := Sample.model_xml
                 [ Sample.group "containment" Sample.circle_refs;
                   Sample.group "encapsulation" Sample.circle_refs ] in
  single_relationship model = true ∧
  all_declared Sample.circle_model (hierarchy model) = true ∧
  ∃ m', __add_relationships model Sample.circle_model = (Ok (), m') ∧
        recorded (encapsulates (hierarchy model)) (sibling_of (hierarchy model))
                 Sample.circle_model m'.
Proof.
  intros model.
  assert (H1 : single_relationship model = true) by (vm_compute; reflexivity).
  assert (H2 : all_declared Sample.circle_model (hierarchy model) = true)
    by (vm_compute; reflexivity).
  split; [exact H1|]. split; [exact H2|].
  exact (proj1 (proj2 (add_relationships_builds_hierarchy model Sample.circle_model H1 H2))).
Defined.

End Hierarchy.

(** ** Equations of a component *)

Module Equations.
Import Parser.

(** C8 fails on the code. Whatever the transpiler, [__add_maths] on a
    [<component>] that starts with two [<math>] elements does what it does on
    the component with the first [<math>] alone; with a transpiler that
    gives one equation per child of a [<math>], two [<math>] elements of one
    equation each leave the component with one equation. *)
Theorem add_maths_reads_first_math_only :
  (∀ (Metadata : Type) parse_string collect_variable_attributes
     (t : string) (a a1 : gmap string string) (c1 : list Element)
     (math_2 : Element) (rest : list Element) (component : Component),
     let math_1 := mkElement (with_ns MATHML "math") a1 c1 in
     __add_maths Metadata parse_string collect_variable_attributes
       (mkElement t a (math_1 :: math_2 :: rest)) component
     = __add_maths Metadata parse_string collect_variable_attributes
         (mkElement t a [math_1]) component) ∧
  (∃ component',
     __add_maths unit Sample.transpile (λ _ vs, vs) Sample.component_with_maths
       (Sample.new_component "A") = (Ok (), component') ∧
     length (findall Sample.component_with_maths (with_ns MATHML "math")) = 2%nat ∧
     length (equations component') = 1%nat).
Proof.
  split.
  - intros. unfold __add_maths, find, findall. cbn [children].
    rewrite !filter_cons. subst math_1. cbn [tag].
    rewrite !decide_True by done. reflexivity.
  - eexists. split; [vm_compute; reflexivity|]. split; vm_compute; reflexivity.
Qed.

End Equations.

(** ** Instances of [UnitStore] share no unit table *)

Module Instances.
Import Pint Units ObjectStore Resolution.

(** *** What [get_quantity] leaves alone *)

(** A method that does not touch [self.cellml_definitions]. *)
Definition keeps_definitions {A} (m : Method A) : Prop :=
  ∀ self, cellml_definitions (m self).2 = cellml_definitions self.

Lemma keeps_bind {A B} (m : Method A) (k : A → Method B) :
  keeps_definitions m → (∀ a, keeps_definitions (k a)) → keeps_definitions (bind m k).
Proof.
  intros Hm Hk self. unfold bind. specialize (Hm self).
  destruct (m self) as [[a|e] s]; cbn in *; [|done]. rewrite Hk. exact Hm.
Qed.

Lemma keeps_for_unit_elements (gq : string → Method Unit) elements acc :
  (∀ n, keeps_definitions (gq n)) → keeps_definitions (for_unit_elements gq elements acc).
Proof.
  intros Hgq. revert acc. induction elements as [|e elements IH]; intros acc; [done|].
  cbn [for_unit_elements]. apply keeps_bind; [done|]. intros nm.
  apply keeps_bind; [apply Hgq|]. intros u. apply IH.
Qed.

Lemma keeps_get_quantity (fuel : nat) (unit_name : string) :
  keeps_definitions (get_quantity fuel unit_name).
Proof.
  revert unit_name. induction fuel as [|fuel IH]; intros unit_name; [done|].
  rewrite get_quantity_unfold. apply keeps_bind.
  - intros self. unfold materialise.
    destruct (_ && _); [|done]. destruct (getattr _ _) as [u|[]]; try done.
    revert self. apply keeps_bind.
    + intros self. unfold _make_cellml_unit. revert self. apply keeps_bind; [done|].
      intros elements. apply keeps_bind; [|done].
      apply keeps_for_unit_elements, IH.
    + intros d. apply keeps_bind; [|done].
      intros self. unfold ureg_define. by destruct (define _ _).
  - intros _ self. unfold resolve. by destruct (parse_expression _ _) as [q|[]].
Qed.

(** *** Separate instances *)

(** Two instances that share neither registry nor set of defined names. *)
Definition separate (h : Heap) (self1 self2 : nat) : Prop :=
  ∃ a1 b1 c1 a2 b2 c2,
    fields h self1 = Some (a1, b1, c1) ∧ fields h self2 = Some (a2, b2, c2) ∧
    a1 ≠ a2 ∧ c1 ≠ c2 ∧ is_Some (view h self1) ∧ is_Some (view h self2).

Lemma view_Some (h : Heap) (self a b c : nat) r d s :
  h !! self = Some (OUnitStore a b c) →
  h !! a = Some (ORegistry r) → h !! b = Some (ODict d) → h !! c = Some (OSet s) →
  fields h self = Some (a, b, c) ∧ view h self = Some (mkUnitStore r d s).
Proof. intros Hs Ha Hb Hc. unfold view, fields. by rewrite Hs, Ha, Hb, Hc. Qed.

Lemma view_inv (h : Heap) (self a b c : nat) (state : UnitStore) :
  fields h self = Some (a, b, c) → view h self = Some state →
  h !! self = Some (OUnitStore a b c) ∧
  h !! a = Some (ORegistry (ureg state)) ∧
  h !! b = Some (ODict (cellml_definitions state)) ∧
  h !! c = Some (OSet (cellml_defined state)).
Proof.
  unfold view. intros Hf. rewrite Hf. unfold fields in Hf.
  destruct (h !! self) as [[| | |a' b' c']|]; try done. injection Hf as -> -> ->.
  destruct (h !! a) as [[r| | |]|]; try done.
  destruct (h !! b) as [[|d| |]|]; try done.
  destruct (h !! c) as [[| |s|]|]; try done.
  by intros [= <-].
Qed.

Lemma view_mono (h h' : Heap) (self : nat) (state : UnitStore) :
  h ⊆ h' → view h self = Some state →
  fields h' self = fields h self ∧ view h' self = Some state.
Proof.
  intros Hsub Hv. destruct (fields h self) as [[[a b] c]|] eqn:Hf.
  2:{ unfold view in Hv. by rewrite Hf in Hv. }
  destruct (view_inv _ _ _ _ _ _ Hf Hv) as (Hs & Ha & Hb & Hc).
  destruct state as [r d s]. cbn in *.
  apply (view_Some h'); eapply lookup_weaken; eauto.
Qed.

(** A call on one instance leaves a separate instance as it was. *)
Lemma get_quantity_at_frame (h h' : Heap) (self1 self2 : nat) (fuel : nat)
    (unit_name : string) (r : result Unit) :
  separate h self1 self2 →
  get_quantity_at fuel self1 unit_name h = (r, h') →
  separate h' self1 self2 ∧
  fields h' self2 = fields h self2 ∧ view h' self2 = view h self2.
Proof.
  intros (a1 & b1 & c1 & a2 & b2 & c2 & Hf1 & Hf2 & Hna & Hnc & [st1 Hv1] & [st2 Hv2]).
  unfold get_quantity_at. rewrite Hf1, Hv1.
  pose proof (keeps_get_quantity fuel unit_name st1) as Hdefs.
  destruct (get_quantity fuel unit_name st1) as [r' st1']. cbn in Hdefs.
  intros [= <- <-].
  destruct (view_inv _ _ _ _ _ _ Hf1 Hv1) as (Hs1 & Ha1 & Hb1 & Hc1).
  destruct (view_inv _ _ _ _ _ _ Hf2 Hv2) as (Hs2 & Ha2 & Hb2 & Hc2).
  set (h' := <[a1:=ORegistry (ureg st1')]> (<[c1:=OSet (cellml_defined st1')]> h)).
  assert (Hother : ∀ k o, h !! k = Some o → k ≠ a1 → k ≠ c1 → h' !! k = Some o).
  { intros k o Hk ? ?. unfold h'. by rewrite !lookup_insert_ne. }
  assert (V1 : fields h' self1 = Some (a1, b1, c1) ∧
               view h' self1 = Some (mkUnitStore (ureg st1') (cellml_definitions st1)
                                                 (cellml_defined st1'))).
  { apply view_Some.
    - apply Hother; [done|congruence..].
    - unfold h'. apply lookup_insert_eq.
    - apply Hother; [done|congruence..].
    - unfold h'. rewrite lookup_insert_ne by congruence. apply lookup_insert_eq. }
  assert (V2 : fields h' self2 = Some (a2, b2, c2) ∧ view h' self2 = Some st2).
  { destruct st2 as [r2 d2 s2]. cbn in *.
    apply view_Some; (apply Hother; [done|congruence..]). }
  split; [|rewrite Hf2, Hv2; exact V2].
  exists a1, b1, c1, a2, b2, c2.
  destruct V1 as [-> ->], V2 as [-> ->]. eauto 10.
Qed.

(** The outcome of a call is a function of the state of the instance. *)
Lemma get_quantity_at_view (h h' : Heap) (self : nat) (fuel : nat) (unit_name : string) :
  fields h' self = fields h self → view h' self = view h self →
  (get_quantity_at fuel self unit_name h').1 = (get_quantity_at fuel self unit_name h).1.
Proof.
  intros Hf Hv. unfold get_quantity_at. rewrite Hf, Hv.
  destruct (fields h self) as [[[a b] c]|]; [|done].
  destruct (view h self) as [state|]; [|done].
  by destruct (get_quantity fuel unit_name state).
Qed.

Lemma alloc_spec (o : Object) (h : Heap) :
  ∃ a, alloc o h = (Ok a, <[a := o]> h) ∧ h !! a = None.
Proof.
  exists (fresh (dom h)). split; [reflexivity|].
  apply not_elem_of_dom, is_fresh.
Qed.

Lemma definitions_object_spec (cellml_def : option nat) (h h2 : Heap) (b : nat) :
  definitions_object cellml_def h = (Ok b, h2) →
  ∃ d, h2 !! b = Some (ODict d) ∧ (h2 = h ∨ (h !! b = None ∧ h2 = <[b := ODict d]> h)).
Proof.
  unfold definitions_object.
  assert (Hnew : alloc (ODict ∅) h = (Ok b, h2) →
                 ∃ d, h2 !! b = Some (ODict d) ∧
                      (h2 = h ∨ (h !! b = None ∧ h2 = <[b := ODict d]> h))).
  { destruct (alloc_spec (ODict ∅) h) as (b' & -> & Hb'). intros [= <- <-].
    exists ∅. split; [apply lookup_insert_eq|]. by right. }
  destruct cellml_def as [x|]; [|exact Hnew].
  destruct (h !! x) as [[|d| |]|] eqn:Hx; try done.
  destruct (decide (d = ∅)); [exact Hnew|].
  intros [= <- <-]. exists d. split; [exact Hx|]. by left.
Qed.

(** A new instance is made of new objects (but for the dict it is given),
    and the objects that were there are as they were. *)
Lemma new_UnitStore_spec (pint_registry : UnitRegistry) (cellml_def : option nat)
    (h h' : Heap) (self : nat) :
  new_UnitStore pint_registry cellml_def h = (Ok self, h') →
  ∃ a b c state,
    h !! a = None ∧ h !! c = None ∧ h !! self = None ∧ h ⊆ h' ∧
    fields h' self = Some (a, b, c) ∧ view h' self = Some state ∧
    __init__ pint_registry (Some (cellml_definitions state)) = Ok state.
Proof.
  unfold new_UnitStore, bind.
  destruct (alloc_spec (ORegistry pint_registry) h) as (a & -> & Ha).
  unfold __init__. destruct (__add_undefined_units pint_registry) as [r|e]; [|done].
  cbn [result_bind]. rewrite insert_insert_eq.
  set (h1 := <[a:=ORegistry r]> h).
  assert (H01 : h ⊆ h1) by by apply insert_subseteq.
  assert (Ha1 : h1 !! a = Some (ORegistry r)) by apply lookup_insert_eq.
  destruct (definitions_object cellml_def h1) as [[b|e] h2] eqn:Hb; [|done].
  apply definitions_object_spec in Hb as (d & Hd & Hh2).
  assert (H12 : h1 ⊆ h2).
  { destruct Hh2 as [->|[Hnone ->]]; [done|by apply insert_subseteq]. }
  destruct (alloc_spec (OSet ∅) h2) as (c & -> & Hc).
  set (h3 := <[c:=OSet ∅]> h2).
  assert (H23 : h2 ⊆ h3) by by apply insert_subseteq.
  destruct (alloc_spec (OUnitStore a b c) h3) as (s & -> & Hs).
  assert (H34 : h3 ⊆ <[s:=OUnitStore a b c]> h3) by by apply insert_subseteq.
  intros [= <- <-].
  exists a, b, c, (mkUnitStore r d ∅).
  assert (H02 : h ⊆ h2) by (etrans; [exact H01|exact H12]).
  assert (H03 : h ⊆ h3) by (etrans; [exact H02|exact H23]).
  split; [exact Ha|].
  split; [eapply lookup_weaken_None; [exact Hc|exact H02]|].
  split; [eapply lookup_weaken_None; [exact Hs|exact H03]|].
  split; [etrans; [exact H03|exact H34]|].
  destruct (view_Some (<[s:=OUnitStore a b c]> h3) s a b c r d ∅) as [Hf Hv].
  - apply lookup_insert_eq.
  - eapply lookup_weaken; [|exact H34]. eapply lookup_weaken; [|exact H23].
    eapply lookup_weaken; [|exact H12]. exact Ha1.
  - eapply lookup_weaken; [|exact H34]. eapply lookup_weaken; [|exact H23]. exact Hd.
  - eapply lookup_weaken; [|exact H34]. apply lookup_insert_eq.
  - split; [exact Hf|]. split; [exact Hv|]. cbn. by destruct (decide (d = ∅)) as [->|].
Qed.

(** C9. Two instances made by [UnitStore(...)], even over one dict of
    definitions, hold different registries and different sets of defined
    names; a call of [get_quantity] on either leaves them so, leaves the
    state of the other as it was, and leaves the outcome of every call on
    the other as it was. *)
Theorem unit_stores_are_separate (pint_registry : UnitRegistry)
    (cellml_def1 cellml_def2 : option nat) (h h1 h2 : Heap) (self1 self2 : nat) :
  new_UnitStore pint_registry cellml_def1 h = (Ok self1, h1) →
  new_UnitStore pint_registry cellml_def2 h1 = (Ok self2, h2) →
  separate h2 self1 self2 ∧
  (∀ h h' fuel unit_name r,
     separate h self1 self2 →
     get_quantity_at fuel self1 unit_name h = (r, h') →
     separate h' self1 self2 ∧ view h' self2 = view h self2 ∧
     ∀ fuel' unit_name',
       (get_quantity_at fuel' self2 unit_name' h').1
       = (get_quantity_at fuel' self2 unit_name' h).1) ∧
  (∀ h h' fuel unit_name r,
     separate h self1 self2 →
     get_quantity_at fuel self2 unit_name h = (r, h') →
     separate h' self1 self2 ∧ view h' self1 = view h self1 ∧
     ∀ fuel' unit_name',
       (get_quantity_at fuel' self1 unit_name' h').1
       = (get_quantity_at fuel' self1 unit_name' h).1).
Proof.
  intros Hnew1 Hnew2.
  assert (Hsym : ∀ h s1 s2, separate h s1 s2 → separate h s2 s1).
  { intros h0 s1 s2 (a1 & b1 & c1 & a2 & b2 & c2 & ? & ? & ? & ? & ? & ?).
    exists a2, b2, c2, a1, b1, c1. eauto 10. }
  assert (Hframe : ∀ s1 s2 h h' fuel unit_name r,
     separate h s1 s2 →
     get_quantity_at fuel s1 unit_name h = (r, h') →
     separate h' s1 s2 ∧ view h' s2 = view h s2 ∧
     ∀ fuel' unit_name',
       (get_quantity_at fuel' s2 unit_name' h').1
       = (get_quantity_at fuel' s2 unit_name' h).1).
  { intros s1 s2 h0 h0' fuel unit_name r Hsep Hcall.
    destruct (get_quantity_at_frame _ _ _ _ _ _ _ Hsep Hcall) as (Hsep' & Hf & Hv).
    split; [exact Hsep'|]. split; [exact Hv|]. intros fuel' unit_name'.
    by apply get_quantity_at_view. }
  split; [|split].
  - apply new_UnitStore_spec in Hnew1
      as (a1 & b1 & c1 & st1 & _ & _ & _ & _ & Hf1 & Hv1 & _).
    apply new_UnitStore_spec in Hnew2
      as (a2 & b2 & c2 & st2 & Ha2 & Hc2 & _ & Hsub & Hf2 & Hv2 & _).
    destruct (view_inv _ _ _ _ _ _ Hf1 Hv1) as (_ & Ha1 & _ & Hc1).
    destruct (view_mono _ _ _ _ Hsub Hv1) as [Hf1' Hv1'].
    exists a1, b1, c1, a2, b2, c2. rewrite Hf1', Hf1, Hf2, Hv1', Hv2.
    split; [done|]. split; [done|]. split; [congruence|]. split; [congruence|]. eauto.
  - intros. by eapply Hframe.
  - intros h0 h0' fuel unit_name r Hsep Hcall.
    destruct (Hframe self2 self1 h0 h0' fuel unit_name r (Hsym _ _ _ Hsep) Hcall)
      as (Hsep' & ? & ?).
    split; [by apply Hsym|]. done.
Qed.

Lemma unit_stores_are_separate_witness :
  let h := {[ 0%nat := ODict Sample.colliding ]} in
  ∃ self1 h1 self2 h2,
    new_UnitStore Sample.tiny_registry (Some 0%nat) h = (Ok self1, h1) ∧
    new_UnitStore Sample.tiny_registry (Some 0%nat) h1 = (Ok self2, h2) ∧
    separate h2 self1 self2.
Proof.
  intros h.
  destruct (new_UnitStore Sample.tiny_registry (Some 0%nat) h) as [[self1|e] h1] eqn:H1.
  2:{ vm_compute in H1. discriminate H1. }
  destruct (new_UnitStore Sample.tiny_registry (Some 0%nat) h1) as [[self2|e] h2] eqn:H2.
  2:{ vm_compute in H1. injection H1 as <- <-. vm_compute in H2. discriminate H2. }
  exists self1, h1, self2, h2. split; [reflexivity|]. split; [exact H2|].
  exact (proj1 (unit_stores_are_separate _ _ _ _ _ _ _ _ H1 H2)).
Defined.

End Instances.

(** ** Attributes of the registry object

    [get_quantity] asks [getattr(self.ureg, unit_name)] whether the registry
    knows a declared name.  Python looks a name up on the object first, and
    only a name that is none of the object's own attributes reaches Pint's
    look-up of units.  [Units.get_quantity] embeds the method for unit names
    that are no such attributes; here it is embedded with them, for any set
    of attribute names.  The two agree on every model that declares no unit
    under the name of an attribute ([get_quantity_agrees]). *)

Module RegistryAttributes.
Import Pint Units Resolution Instances.

(** What [getattr(ureg, name)] evaluates to: an attribute of the object
    itself (a method such as [define], a field), or the unit of that name. *)
Inductive Attribute : Type :=
| OfObject
| OfUnit (u : Unit).

Section Attributes.

(** The names of the attributes of the registry object. *)
Variable attributes : gset string.

(** [getattr(ureg, name)]. *)
Definition getattr (ureg : UnitRegistry) (name : string) : result Attribute :=
  if bool_decide (name ∈ attributes) then Ok OfObject
  else do u <- Pint.getattr ureg name; Ok (OfUnit u).

(** [UnitStore.get_quantity]. *)
Fixpoint get_quantity (fuel : nat) (unit_name : string) : Method Unit :=
  match fuel with
  | O => raise RecursionError
  | S fuel' =>
      let* _ :=
        (λ self,
           if bool_decide (unit_name ∈ dom (cellml_definitions self))
              && bool_decide (unit_name ∉ cellml_defined self)
           then
             match getattr (ureg self) unit_name with
             | Ok _ => (Ok (), self)
             | Raise (UndefinedUnitError _) =>
                 (let* unit_definition :=
                    _make_cellml_unit (get_quantity fuel') unit_name in
                  let* _ := ureg_define unit_definition in
                  cellml_defined_add unit_name) self
             | Raise e => (Raise e, self)
             end
           else (Ok (), self)) in
      (λ self,
         match parse_expression (ureg self) unit_name with
         | Ok resolved => (Ok (units resolved), self)
         | Raise (UndefinedUnitError _) => (Raise (ValueError (cannot_find unit_name)), self)
         | Raise e => (Raise e, self)
         end)
  end.

(** No declared name is the name of an attribute. *)
Definition plain_names (self : UnitStore) : Prop :=
  ∀ name, name ∈ dom (cellml_definitions self) → name ∉ attributes.

Lemma bind_agrees {A B} (m m' : Method A) (k k' : A → Method B) (self : UnitStore) :
  m self = m' self →
  (∀ a s, m' self = (Ok a, s) → k a s = k' a s) →
  bind m k self = bind m' k' self.
Proof.
  intros Hm Hk. unfold bind. rewrite Hm.
  destruct (m' self) as [[a|e] s]; [by apply Hk|reflexivity].
Qed.

Lemma for_unit_elements_agrees (gq' gq : string → Method Unit)
    (elements : list unit_element) (acc : list Term) (self : UnitStore) :
  (∀ name s, plain_names s → gq' name s = gq name s) →
  (∀ name, keeps_definitions (gq name)) →
  plain_names self →
  for_unit_elements gq' elements acc self = for_unit_elements gq elements acc self.
Proof.
  intros Hgq Hkeeps. revert acc self.
  induction elements as [|e elements IH]; intros acc self Hself; [reflexivity|].
  cbn [for_unit_elements]. apply bind_agrees; [reflexivity|].
  intros name s [= _ <-]. apply bind_agrees; [by apply Hgq|].
  intros u s Hrun. apply IH.
  pose proof (Hkeeps name self) as Hk. rewrite Hrun in Hk. cbn [snd] in Hk.
  unfold plain_names. rewrite Hk. exact Hself.
Qed.

(** On a model that declares no unit under the name of an attribute, the
    method is [Units.get_quantity]. *)
Lemma get_quantity_agrees (fuel : nat) (unit_name : string) (self : UnitStore) :
  plain_names self →
  get_quantity fuel unit_name self = Units.get_quantity fuel unit_name self.
Proof.
  revert unit_name self.
  induction fuel as [|fuel IH]; intros unit_name self Hself; [reflexivity|].
  cbn [get_quantity Units.get_quantity]. apply bind_agrees; [|reflexivity].
  destruct (bool_decide (unit_name ∈ dom (cellml_definitions self))) eqn:Hdecl;
    cbn [andb]; [|reflexivity].
  destruct (bool_decide (unit_name ∉ cellml_defined self)); [|reflexivity].
  apply bool_decide_eq_true in Hdecl.
  unfold getattr. rewrite bool_decide_false by (by apply Hself).
  destruct (Pint.getattr (ureg self) unit_name) as [u|err]; cbn [result_bind];
    [reflexivity|].
  destruct err; try reflexivity.
  apply bind_agrees; [|reflexivity].
  unfold _make_cellml_unit. apply bind_agrees; [reflexivity|].
  intros elements s [= _ <-]. apply bind_agrees; [|reflexivity].
  apply for_unit_elements_agrees; [|apply keeps_get_quantity|exact Hself].
  intros nm s Hs. by apply IH.
Qed.

(** A declared unit under the name of an attribute is never built: the
    look-up finds the attribute, and the name is then looked up as it is. *)
Lemma get_quantity_attribute (fuel : nat) (unit_name : string) (self : UnitStore) :
  unit_name ∈ attributes →
  get_quantity (S fuel) unit_name self = resolve unit_name self.
Proof.
  intros Hattr. cbn [get_quantity]. unfold bind at 1. unfold getattr.
  rewrite (bool_decide_true _ Hattr). by destruct (_ && _).
Qed.

(** The first element of the definition of a declared unit that is not yet
    built: what reading it raises is what the request raises. *)
Lemma get_quantity_first_element (fuel : nat) (X : string) (self : UnitStore)
    (e : unit_element) (elements : list unit_element) :
  cellml_definitions self !! X = Some (e :: elements) →
  X ∉ cellml_defined self →
  X ∉ attributes →
  lookup_unit (ureg self) X = None →
  ∀ error,
    (let* name := lift (getitem e "units") in get_quantity fuel name) self
    = (Raise error, self) →
    get_quantity (S fuel) X self = (Raise error, self).
Proof.
  intros Hdef Hnot Hattr Hn error Hfail. cbn [get_quantity]. unfold bind at 1.
  unfold getattr, Pint.getattr.
  rewrite (bool_decide_false _ Hattr), Hn,
    !bool_decide_true by (done || (apply elem_of_dom; eauto)).
  cbn [andb result_bind]. unfold bind at 1. unfold bind at 1. unfold _make_cellml_unit.
  unfold bind at 1. unfold lift at 1. unfold getitem at 1. rewrite Hdef.
  unfold bind at 1. cbn [for_unit_elements].
  unfold bind at 1. unfold bind at 1 in Hfail.
  destruct (lift (getitem e "units") self) as [[name|err] s] eqn:Hname.
  - unfold lift in Hname. destruct (getitem e "units"); [|discriminate Hname].
    injection Hname as -> ->. unfold bind at 1. by rewrite Hfail.
  - by injection Hfail as -> ->.
Qed.

End Attributes.

End RegistryAttributes.

(** ** Custom units *)

Module CustomUnits.
Import Pint Units Resolution.

(** *** Strings and the registry *)

Lemma strip_prefix_app (p s : string) : strip_prefix p (p +:+ s) = Some s.
Proof.
  induction p as [|a p IH]; [done|].
  change (strip_prefix (String a p) (String a (p +:+ s)) = Some s).
  cbn [strip_prefix]. destruct (decide (a = a)); [exact IH|done].
Qed.

Lemma lookup_prefixed_None (us : gmap string Unit) ps (name : string) :
  lookup_prefixed us ps name = None ↔
  ∀ q long f rest, (q, (long, f)) ∈ ps → strip_prefix q name = Some rest → us !! rest = None.
Proof.
  induction ps as [|[q [long f]] ps IH]; cbn.
  - split; [|done]. intros _ ? ? ? ? []%elem_of_nil.
  - destruct (strip_prefix q name) as [rest|] eqn:Hs.
    + destruct (us !! rest) as [u|] eqn:Hu.
      * split; [done|]. intros H. specialize (H q long f rest). rewrite Hu in H.
        discriminate H; [left|done].
      * rewrite IH. split.
        -- intros H q' long' f' rest' [[= -> -> ->]|Hin]%elem_of_cons Hs'; [congruence|exact (H _ _ _ _ Hin Hs')].
        -- intros H q' long' f' rest' Hin. apply (H q' long' f'). by right.
    + rewrite IH. split.
      * intros H q' long' f' rest' [[= -> -> ->]|Hin]%elem_of_cons Hs'; [congruence|exact (H _ _ _ _ Hin Hs')].
      * intros H q' long' f' rest' Hin. apply (H q' long' f'). by right.
Qed.

(** *** Definitions that can be built *)

Section Static.

(** The registry of the new store and the definitions of the model. *)
Variable r0 : UnitRegistry.
Variable defs : gmap string (list unit_element).

(** Every name that is, or can come to be, registered. *)
Definition known_names : gset string := dom (reg_units r0) ∪ dom defs.

Fixpoint prefix_factor (ps : list (string * (string * Q))) (p : string) : option Q :=
  match ps with
  | [] => None
  | (q, (_, f)) :: ps' => if decide (q = p) then Some f else prefix_factor ps' p
  end.

(** The only way to read [name] as a prefix and a known name is a prefix of
    factor [pf] and the name [c]. *)
Definition split_ok (name c : string) (pf : Q) : bool :=
  forallb (λ '(q, (_, f)),
             match strip_prefix q name with
             | Some rest =>
                 if bool_decide (rest ∈ known_names)
                 then bool_decide (rest = c) && bool_decide (f = pf)
                 else true
             | None => true
             end)
          (reg_prefixes r0).

(** [p] is a prefix, and [p] followed by [c] reads in one way only. *)
Definition prefixed_ok (p c : string) : bool :=
  match prefix_factor (reg_prefixes r0) p with
  | Some pf => bool_decide (p +:+ c ∉ known_names) && split_ok (p +:+ c) c pf
  | None => false
  end.

Definition prefix_ok (e : unit_element) (c : string) : bool :=
  match e !! "prefix" with
  | Some p => prefixed_ok p c
  | None => true
  end.

(** The exponent, if any, is a number literal. *)
Definition exponent_ok (e : unit_element) : bool :=
  match e !! "exponent" with
  | Some x => bool_decide (is_Some (parse_number x))
  | None => true
  end.

(** The name a unit of the registry prints as is registered with the same
    scale and dimensionality. *)
Definition canonical_ok (u0 : Unit) : bool :=
  match reg_units r0 !! unit_str u0 with
  | Some uc => bool_decide (unit_scale uc = unit_scale u0)
               && bool_decide (unit_dim uc = unit_dim u0)
  | None => false
  end.

(** A [<unit>] element refers to a declared unit that can be built, or to a
    name of the registry. *)
Definition fragment_ok (below : string → bool) (e : unit_element) : bool :=
  match e !! "units" with
  | None => false
  | Some nm =>
      exponent_ok e &&
      if bool_decide (nm ∈ dom defs) then below nm && prefix_ok e nm
      else match reg_units r0 !! nm with
           | Some u0 => canonical_ok u0 && prefix_ok e (unit_str u0)
           | None => false
           end
  end.

(** [X] is declared and its definition bottoms out in the registry within
    [depth] levels of declared units. *)
Fixpoint buildable (depth : nat) (X : string) : bool :=
  match depth with
  | O => false
  | S depth' =>
      match defs !! X with
      | Some elements => forallb (fragment_ok (buildable depth')) elements
      | None => false
      end
  end.

(** No declared name is one the registry resolves. *)
Definition fresh_names : bool :=
  forallb (λ X, match lookup_unit r0 X with None => true | Some _ => false end)
          (elements (dom defs)).

(** No declared name is a prefix followed by a declared name. *)
Definition prefix_independent : bool :=
  forallb (λ X,
             forallb (λ '(q, _),
                        match strip_prefix q X with
                        | Some rest => bool_decide (rest ∉ dom defs)
                        | None => true
                        end)
                     (reg_prefixes r0))
          (elements (dom defs)).

Definition well_formed : bool := fresh_names && prefix_independent.

(** *** The unit a definition denotes *)

(** The scale of the unit a fragment refers to, times the factor of the
    prefix if there is one. *)
Definition fragment_base (e : unit_element) (u : Unit) : Q :=
  match e !! "prefix" with
  | Some p => (default 1 (prefix_factor (reg_prefixes r0) p) * unit_scale u)%Q
  | None => unit_scale u
  end.

Definition fragment_exponent (e : unit_element) : option Q :=
  match e !! "exponent" with
  | Some x => Some (default 0%Q (parse_number x))
  | None => None
  end.

(** The scale and the dimensionality of one fragment: the prefixed unit,
    raised to the exponent if there is one. *)
Definition fragment_scale (e : unit_element) (u : Unit) : Q :=
  match fragment_exponent e with
  | Some x => power r0 (fragment_base e u) x
  | None => fragment_base e u
  end.

Definition fragment_dim (e : unit_element) (u : Unit) : Dimensionality :=
  match fragment_exponent e with
  | Some x => dim_pow x (unit_dim u)
  | None => unit_dim u
  end.

(** The product of the fragments. *)
Definition product_scale (l : list (unit_element * Unit)) : Q :=
  foldr (λ '(e, u) acc, (fragment_scale e u * acc)%Q) 1%Q l.

Definition product_dim (l : list (unit_element * Unit)) : Dimensionality :=
  foldr (λ '(e, u) acc, dim_mul (fragment_dim e u) acc) ∅ l.

End Static.

(** The factor of a definition that [_make_cellml_unit] writes for a
    fragment whose unit has been resolved to [u]. *)
Definition fragment_term (e : unit_element) (u : Unit) : Term :=
  let expr := unit_str u in
  let expr :=
    match e !! "prefix" with
    | Some prefix => prefix +:+ expr
    | None => expr
    end in
  match e !! "exponent" with
  | Some exponent => Pow expr exponent
  | None => Atom expr
  end.

Lemma for_unit_elements_cons (gq : string → Method Unit) (e : unit_element) elements acc :
  for_unit_elements gq (e :: elements) acc =
  (let* name := lift (getitem e "units") in
   let* matched_unit := gq name in
   for_unit_elements gq elements (acc ++ [fragment_term e matched_unit])).
Proof. reflexivity. Qed.

(** *** Resolution *)

Section Dynamic.

Variable r0 : UnitRegistry.
Variable defs : gmap string (list unit_element).
Hypothesis Hfresh : fresh_names r0 defs = true.
Hypothesis Hindep : prefix_independent r0 defs = true.

(** The fragment [e] refers to a registered name, the unit [u] of that name
    prints as a registered name with the same scale and dimensionality, and
    a declared name that is referred to is marked as defined. *)
Definition resolved_in (self : UnitStore) (e : unit_element) (u : Unit) : Prop :=
  ∃ nm uc,
    e !! "units" = Some nm ∧
    reg_units (ureg self) !! nm = Some u ∧
    reg_units (ureg self) !! unit_str u = Some uc ∧
    unit_scale uc = unit_scale u ∧ unit_dim uc = unit_dim u ∧
    (nm ∈ dom defs → nm ∈ cellml_defined self) ∧
    prefix_ok r0 defs e (unit_str u) = true ∧ exponent_ok e = true.

(** [u] is the product of the fragments of the definition of [X], each
    resolved in the registry. *)
Definition described (self : UnitStore) (X : string) (u : Unit) : Prop :=
  ∃ elements units,
    defs !! X = Some elements ∧
    Forall2 (resolved_in self) elements units ∧
    unit_scale u = product_scale r0 (zip elements units) ∧
    unit_dim u = product_dim (zip elements units).

(** The states the store goes through: the registry is the initial one and
    declared units, each registered under its own name, marked as defined
    and being the product of its fragments. *)
Definition Inv (self : UnitStore) : Prop :=
  cellml_definitions self = defs ∧
  (reg_prefixes (ureg self) = reg_prefixes r0 ∧
   reg_fractional_power (ureg self) = reg_fractional_power r0) ∧
  reg_units r0 ⊆ reg_units (ureg self) ∧
  (∀ k u, reg_units (ureg self) !! k = Some u → reg_units r0 !! k = None →
          k ∈ dom defs ∧ k ∈ cellml_defined self ∧ unit_str u = k ∧ described self k u) ∧
  (∀ k, k ∈ cellml_defined self → k ∈ dom defs ∧ is_Some (reg_units (ureg self) !! k)).

Definition grows (self self' : UnitStore) : Prop :=
  reg_units (ureg self) ⊆ reg_units (ureg self') ∧
  cellml_defined self ⊆ cellml_defined self'.

Lemma grows_refl self : grows self self.
Proof. by split. Qed.

Lemma grows_trans s1 s2 s3 : grows s1 s2 → grows s2 s3 → grows s1 s3.
Proof. intros [? ?] [? ?]. split; etrans; eauto. Qed.

Lemma declared_fresh (X : string) : X ∈ dom defs → lookup_unit r0 X = None.
Proof.
  intros HX. unfold fresh_names in Hfresh. rewrite forallb_forall in Hfresh.
  specialize (Hfresh X). destruct (lookup_unit r0 X); [|done].
  discriminate Hfresh. apply list_elem_of_In, elem_of_elements, HX.
Qed.

Lemma declared_not_registered (X : string) : X ∈ dom defs → reg_units r0 !! X = None.
Proof.
  intros HX. apply declared_fresh in HX. unfold lookup_unit in HX.
  by destruct (reg_units r0 !! X).
Qed.

Lemma registered_known (self : UnitStore) (k : string) (u : Unit) :
  Inv self → reg_units (ureg self) !! k = Some u → k ∈ known_names r0 defs.
Proof.
  intros (_ & _ & _ & I4 & _) Hk. unfold known_names.
  destruct (reg_units r0 !! k) as [u0|] eqn:H0.
  - apply elem_of_union_l, elem_of_dom. eauto.
  - apply elem_of_union_r. by apply (I4 k u).
Qed.

(** A declared name that is not registered is not resolved either. *)
Lemma declared_stays_fresh (self : UnitStore) (X : string) :
  Inv self → X ∈ dom defs → reg_units (ureg self) !! X = None →
  lookup_unit (ureg self) X = None.
Proof.
  intros HI HX Hnone. unfold lookup_unit. rewrite Hnone.
  destruct HI as (_ & [I2 _] & _ & I4 & _). rewrite I2.
  apply lookup_prefixed_None. intros q long f rest Hin Hs.
  destruct (reg_units (ureg self) !! rest) as [u|] eqn:Hu; [|done]. exfalso.
  assert (H0 : reg_units r0 !! rest = None).
  { pose proof (declared_fresh X HX) as Hf. unfold lookup_unit in Hf.
    destruct (reg_units r0 !! X); [done|].
    by eapply lookup_prefixed_None in Hf. }
  destruct (I4 rest u Hu H0) as (Hd & _).
  unfold prefix_independent in Hindep. rewrite forallb_forall in Hindep.
  specialize (Hindep X). rewrite forallb_forall in Hindep.
  specialize (Hindep ltac:(apply list_elem_of_In, elem_of_elements, HX) (q, (long, f))).
  cbn in Hindep. rewrite Hs in Hindep.
  apply bool_decide_eq_true in Hindep; [done|]. by apply list_elem_of_In.
Qed.

Lemma resolved_in_grows (self self' : UnitStore) (e : unit_element) (u : Unit) :
  grows self self' → resolved_in self e u → resolved_in self' e u.
Proof.
  intros [Hu Hd] (nm & uc & ? & ? & ? & ? & ? & ? & ? & ?).
  exists nm, uc. repeat split; try done.
  - eapply lookup_weaken; eauto.
  - eapply lookup_weaken; eauto.
  - intros ?. apply Hd. eauto.
Qed.

Lemma described_grows (self self' : UnitStore) (X : string) (u : Unit) :
  grows self self' → described self X u → described self' X u.
Proof.
  intros Hg (elements & units & ? & HF & ? & ?). exists elements, units.
  repeat split; try done. eapply Forall2_impl; [exact HF|].
  intros e v. by apply resolved_in_grows.
Qed.

Lemma prefixed_search (us : gmap string Unit) (p c : string) (uc : Unit) (pf : Q)
    (K : gset string) l :
  (∀ k u, us !! k = Some u → k ∈ K) →
  us !! c = Some uc →
  forallb (λ '(q, (_, f)),
             match strip_prefix q (p +:+ c) with
             | Some rest =>
                 if bool_decide (rest ∈ K) then bool_decide (rest = c) && bool_decide (f = pf)
                 else true
             | None => true
             end) l = true →
  is_Some (prefix_factor l p) →
  ∃ v, lookup_prefixed us l (p +:+ c) = Some v ∧
       unit_scale v = (pf * unit_scale uc)%Q ∧ unit_dim v = unit_dim uc.
Proof.
  intros HK Hc. induction l as [|[q [long f]] l IH]; intros Hall Hp.
  - by destruct Hp.
  - cbn [forallb] in Hall. apply andb_true_iff in Hall as [Hhead Htail].
    cbn [lookup_prefixed prefix_factor] in *.
    assert (Hq : q = p → strip_prefix q (p +:+ c) = Some c)
      by (intros ->; apply strip_prefix_app).
    destruct (strip_prefix q (p +:+ c)) as [rest|] eqn:Hs.
    + destruct (us !! rest) as [u|] eqn:Hu.
      * rewrite bool_decide_true in Hhead by eauto.
        apply andb_true_iff in Hhead as [->%bool_decide_eq_true ->%bool_decide_eq_true].
        rewrite Hc in Hu. injection Hu as <-.
        eexists. split; [reflexivity|]. done.
      * apply IH; [done|]. destruct (decide (q = p)) as [E|]; [|done].
        specialize (Hq E). injection Hq as ->. congruence.
    + apply IH; [done|]. destruct (decide (q = p)) as [E|]; [|done].
      by specialize (Hq E).
Qed.

(** A prefix put before a registered name resolves as the unit of that name
    scaled by the factor of the prefix. *)
Lemma prefixed_value (self : UnitStore) (p c : string) (uc : Unit) :
  Inv self → prefixed_ok r0 defs p c = true →
  reg_units (ureg self) !! c = Some uc →
  ∃ v pf, prefix_factor (reg_prefixes r0) p = Some pf ∧
          lookup_unit (ureg self) (p +:+ c) = Some v ∧
          unit_scale v = (pf * unit_scale uc)%Q ∧ unit_dim v = unit_dim uc.
Proof.
  intros HI Hok Hc. unfold prefixed_ok in Hok.
  destruct (prefix_factor (reg_prefixes r0) p) as [pf|] eqn:Hpf; [|done].
  apply andb_true_iff in Hok as [Hnk%bool_decide_eq_true Hsplit].
  unfold lookup_unit.
  destruct (reg_units (ureg self) !! (p +:+ c)) as [w|] eqn:Hw.
  { exfalso. apply Hnk. eapply registered_known; eauto. }
  assert (HK : ∀ k u, reg_units (ureg self) !! k = Some u → k ∈ known_names r0 defs)
    by (intros k u; by apply registered_known).
  assert (Hsome : is_Some (prefix_factor (reg_prefixes r0) p)) by (by rewrite Hpf).
  destruct (prefixed_search (reg_units (ureg self)) p c uc pf (known_names r0 defs)
              (reg_prefixes r0) HK Hc Hsplit Hsome) as (v & Hv & ? & ?).
  exists v, pf. destruct HI as (_ & [-> _] & _). done.
Qed.

Lemma term_value (self : UnitStore) (e : unit_element) (u : Unit) :
  Inv self → resolved_in self e u →
  eval_term (ureg self) (fragment_term e u)
  = Ok (fragment_scale r0 e u, fragment_dim e u).
Proof.
  intros HI (nm & uc & Hnm & Hu & Huc & Hscale & Hdim & _ & Hp & He).
  unfold fragment_term, fragment_scale, fragment_dim, fragment_base, fragment_exponent.
  unfold prefix_ok in Hp. unfold exponent_ok in He.
  assert (Hv : ∃ v, getattr (ureg self)
                      (match e !! "prefix" with
                       | Some prefix => prefix +:+ unit_str u
                       | None => unit_str u
                       end) = Ok v ∧
                    unit_scale v =
                    match e !! "prefix" with
                    | Some p =>
                        (default 1 (prefix_factor (reg_prefixes r0) p) * unit_scale u)%Q
                    | None => unit_scale u
                    end ∧ unit_dim v = unit_dim u).
  { unfold getattr. destruct (e !! "prefix") as [p|].
    - destruct (prefixed_value self p (unit_str u) uc HI Hp Huc)
        as (v & pf & Hpf & -> & Hs & Hd).
      exists v. rewrite Hpf. cbn. split; [done|]. split; congruence.
    - unfold lookup_unit. rewrite Huc. exists uc. done. }
  destruct Hv as (v & Hv & Hs & Hd).
  assert (Hpow : ∀ s x, power (ureg self) s x = power r0 s x).
  { intros s x. unfold power. destruct HI as (_ & [_ ->] & _). done. }
  destruct (e !! "exponent") as [x|]; cbn [eval_term result_bind]; rewrite Hv;
    cbn [result_bind].
  - apply bool_decide_eq_true in He as [z Hz]. rewrite Hz. cbn [default].
    by rewrite Hpow, Hs, Hd.
  - by rewrite Hs, Hd.
Qed.

Lemma terms_value (self : UnitStore) (elements : list unit_element) (units : list Unit) :
  Inv self → Forall2 (resolved_in self) elements units →
  eval_terms (ureg self) (zip_with fragment_term elements units)
  = Ok (product_scale r0 (zip elements units), product_dim (zip elements units)).
Proof.
  intros HI. induction 1 as [|e u elements units He _ IH]; [done|].
  cbn [zip_with eval_terms]. rewrite (term_value self e u HI He). cbn [result_bind].
  rewrite IH. reflexivity.
Qed.

Lemma fragment_ok_mono (below below' : string → bool) (e : unit_element) :
  (∀ nm, below nm = true → below' nm = true) →
  fragment_ok r0 defs below e = true → fragment_ok r0 defs below' e = true.
Proof.
  intros Hb. unfold fragment_ok. destruct (e !! "units") as [nm|]; [|done].
  destruct (exponent_ok e); [|done]. cbn [andb].
  destruct (bool_decide (nm ∈ dom defs)); [|done].
  intros [? ?]%andb_true_iff. apply andb_true_iff. split; [by apply Hb|done].
Qed.

Lemma buildable_mono (d d' : nat) (X : string) :
  (d ≤ d')%nat → buildable r0 defs d X = true → buildable r0 defs d' X = true.
Proof.
  revert d' X. induction d as [|d IH]; intros d' X Hle; [done|].
  destruct d' as [|d']; [lia|]. cbn [buildable].
  destruct (defs !! X) as [elements|]; [|done].
  rewrite !forallb_forall. intros H e He.
  eapply fragment_ok_mono; [|by apply H]. intros nm. apply IH. lia.
Qed.

(** What a call of [get_quantity] with the recursion budget [fuel] does for
    every name that can be built within [depth] levels. *)
Definition calls_ok (fuel depth : nat) : Prop :=
  ∀ X self,
    Inv self → buildable r0 defs depth X = true →
    ∃ u self',
      get_quantity fuel X self = (Ok u, self') ∧ Inv self' ∧ grows self self' ∧
      reg_units (ureg self') !! X = Some u ∧ X ∈ cellml_defined self' ∧
      (∀ k, reg_units (ureg self) !! k = None → is_Some (reg_units (ureg self') !! k) →
            buildable r0 defs depth k = true).

Lemma for_unit_elements_spec (fuel depth : nat) :
  calls_ok (S fuel) depth →
  ∀ elements acc self,
    Inv self →
    forallb (fragment_ok r0 defs (buildable r0 defs depth)) elements = true →
    ∃ units self',
      for_unit_elements (get_quantity (S fuel)) elements acc self
      = (Ok (acc ++ zip_with fragment_term elements units), self') ∧
      Inv self' ∧ grows self self' ∧
      Forall2 (resolved_in self') elements units ∧
      (∀ k, reg_units (ureg self) !! k = None → is_Some (reg_units (ureg self') !! k) →
            buildable r0 defs depth k = true).
Proof.
  intros Hcalls. induction elements as [|e elements IH]; intros acc self HI Hok.
  - exists [], self. cbn. rewrite app_nil_r. split; [done|]. split; [done|].
    split; [apply grows_refl|]. split; [constructor|].
    intros k Hn [? Hs]. congruence.
  - cbn [forallb] in Hok. apply andb_true_iff in Hok as [He Hrest].
    unfold fragment_ok in He. destruct (e !! "units") as [nm|] eqn:Hnm; [|done].
    apply andb_true_iff in He as [Hexp He].
    assert (Hstep : ∃ u self1,
               get_quantity (S fuel) nm self = (Ok u, self1) ∧ Inv self1 ∧
               grows self self1 ∧ resolved_in self1 e u ∧
               (∀ k, reg_units (ureg self) !! k = None →
                     is_Some (reg_units (ureg self1) !! k) →
                     buildable r0 defs depth k = true)).
    { case_bool_decide as Hdecl.
      - apply andb_true_iff in He as [Hb Hp].
        destruct (Hcalls nm self HI Hb) as (u & self1 & Hgq & HI1 & Hg & Hu & Hd & Hnew).
        exists u, self1. split; [done|]. split; [done|]. split; [done|]. split; [|done].
        destruct HI1 as (_ & _ & _ & I4 & _).
        destruct (I4 nm u Hu (declared_not_registered nm Hdecl)) as (_ & _ & Hstr & _).
        exists nm, u. rewrite Hstr. done.
      - destruct (reg_units r0 !! nm) as [u0|] eqn:H0; [|done].
        apply andb_true_iff in He as [Hc Hp]. unfold canonical_ok in Hc.
        destruct (reg_units r0 !! unit_str u0) as [uc|] eqn:Hcan; [|done].
        apply andb_true_iff in Hc as [Hs%bool_decide_eq_true Hdm%bool_decide_eq_true].
        pose proof HI as (_ & _ & I3 & _).
        exists u0, self. split.
        { apply get_quantity_known. unfold lookup_unit.
          by rewrite (lookup_weaken _ _ _ _ H0 I3). }
        split; [done|]. split; [apply grows_refl|]. split.
        + exists nm, uc. repeat split; try done; eapply lookup_weaken; eauto.
        + intros k Hn [? Hsome]. congruence. }
    destruct Hstep as (u & self1 & Hgq & HI1 & Hg1 & Hres & Hnew1).
    destruct (IH (acc ++ [fragment_term e u]) self1 HI1 Hrest)
      as (units & self2 & Hloop & HI2 & Hg2 & Hall & Hnew2).
    exists (u :: units), self2. split.
    { rewrite for_unit_elements_cons. unfold bind, lift, getitem. rewrite Hnm, Hgq.
      rewrite Hloop. cbn [zip_with]. by rewrite <- app_assoc. }
    split; [done|]. split; [by eapply grows_trans|]. split.
    + constructor; [by eapply resolved_in_grows|done].
    + intros k Hn Hsome.
      destruct (reg_units (ureg self1) !! k) eqn:Hk1; [by apply Hnew1|by apply Hnew2].
Qed.

(** The step of the induction: a declared name that is not yet registered
    and whose fragments can be resolved within the budget. *)
Lemma get_quantity_builds (fuel depth : nat) (X : string) (self : UnitStore) :
  calls_ok (S fuel) depth →
  Inv self →
  buildable r0 defs (S depth) X = true →
  buildable r0 defs depth X = false →
  X ∉ cellml_defined self →
  ∃ u self',
    get_quantity (S (S fuel)) X self = (Ok u, self') ∧ Inv self' ∧ grows self self' ∧
    reg_units (ureg self') !! X = Some u ∧ X ∈ cellml_defined self' ∧
    (∀ k, reg_units (ureg self) !! k = None → is_Some (reg_units (ureg self') !! k) →
          buildable r0 defs (S depth) k = true).
Proof.
  intros Hcalls HI Hb Hmin Hnot. pose proof Hb as Hb'. cbn [buildable] in Hb'.
  destruct (defs !! X) as [elements|] eqn:Hdef; [|done].
  assert (Hdecl : X ∈ dom defs) by (apply elem_of_dom; eauto).
  pose proof HI as (I1 & I2 & I3 & I4 & I5).
  assert (Hnone : reg_units (ureg self) !! X = None).
  { destruct (reg_units (ureg self) !! X) as [u|] eqn:Hu; [|done].
    destruct (I4 X u Hu (declared_not_registered X Hdecl)) as (_ & ? & _). done. }
  destruct (for_unit_elements_spec fuel depth Hcalls elements [] self HI Hb')
    as (units & self1 & Hloop & HI1 & Hg1 & Hall & Hnew).
  pose proof (terms_value self1 elements units HI1 Hall) as Heval.
  set (s := product_scale r0 (zip elements units)) in *.
  set (dm := product_dim (zip elements units)) in *.
  assert (Hnone1 : reg_units (ureg self1) !! X = None).
  { destruct (reg_units (ureg self1) !! X) as [u|] eqn:Hu; [|done].
    rewrite (Hnew X Hnone) in Hmin by eauto. done. }
  pose proof HI1 as (J1 & J2 & J3 & J4 & J5).
  set (u := mkUnit X s dm).
  set (self3 := mkUnitStore
                  (mkRegistry (<[X := u]> (reg_units (ureg self1)))
                              (reg_prefixes (ureg self1))
                              (reg_fractional_power (ureg self1)))
                  (cellml_definitions self1) ({[X]} ∪ cellml_defined self1)).
  assert (Hg3 : grows self1 self3).
  { split; cbn; [by apply insert_subseteq|set_solver]. }
  exists u, self3. split.
  { rewrite get_quantity_unfold. unfold bind at 1. unfold materialise.
    rewrite I1, !bool_decide_true by done. cbn [andb]. unfold getattr.
    rewrite (declared_stays_fresh self X HI Hdecl Hnone).
    unfold bind at 1. unfold bind at 1. unfold _make_cellml_unit.
    unfold bind at 1. unfold lift, getitem. rewrite I1, Hdef.
    unfold bind at 1. rewrite Hloop. cbn [app]. unfold ret.
    unfold ureg_define. cbn [def_terms def_name def_aliases define].
    unfold define. cbn [def_terms def_name def_aliases]. rewrite Heval.
    cbn [result_bind foldr]. unfold cellml_defined_add. cbn [ureg cellml_definitions
      cellml_defined]. fold u. fold self3.
    apply resolve_Some. unfold lookup_unit. cbn. by rewrite lookup_insert_eq. }
  assert (Hdesc : described self3 X u).
  { exists elements, units. split; [done|]. split; [|done].
    eapply Forall2_impl; [exact Hall|]. intros e v. by apply resolved_in_grows. }
  split; [|split; [by eapply grows_trans|split; [apply lookup_insert_eq|split]]].
  - split; [exact J1|]. split; [exact J2|]. split.
    { etrans; [exact J3|apply Hg3]. }
    split.
    + intros k v. cbn. rewrite lookup_insert. case_decide as Hk.
      * subst k. intros [= <-] _. split; [done|]. split; [set_solver|]. done.
      * intros Hv H0. destruct (J4 k v Hv H0) as (? & ? & ? & ?).
        split; [done|]. split; [set_solver|]. split; [done|].
        by eapply described_grows.
    + intros k. cbn. rewrite elem_of_union, elem_of_singleton. intros [->|Hk].
      * split; [done|]. rewrite lookup_insert_eq. eauto.
      * destruct (J5 k Hk) as [? [v Hv]]. split; [done|].
        exists v. eapply lookup_weaken; [exact Hv|apply Hg3].
  - cbn. set_solver.
  - intros k Hk. unfold self3. cbn [ureg reg_units]. rewrite lookup_insert.
    case_decide as HkX; [by subst|].
    intros Hsome. eapply (buildable_mono depth); [lia|by apply Hnew].
Qed.

(** With a recursion budget above [depth], every name that can be built
    within [depth] levels is resolved. *)
Lemma get_quantity_resolves (depth : nat) :
  ∀ fuel, (depth < fuel)%nat → calls_ok fuel depth.
Proof.
  induction depth as [|depth IH]; intros fuel Hfuel X self HI Hb; [done|].
  destruct fuel as [|[|fuel]]; [lia..|].
  assert (Hcalls : calls_ok (S fuel) depth) by (apply IH; lia).
  destruct (buildable r0 defs depth X) eqn:Hmin.
  { destruct (IH (S (S fuel)) ltac:(lia) X self HI Hmin)
      as (u & self' & ? & ? & ? & ? & ? & Hnew).
    exists u, self'. do 5 (split; [done|]).
    intros k ? ?. eapply (buildable_mono depth); [lia|by apply Hnew]. }
  destruct (decide (X ∈ cellml_defined self)) as [Hin|Hnot].
  - pose proof HI as (I1 & _ & _ & _ & I5).
    destruct (I5 X Hin) as [Hdecl [u Hu]].
    exists u, self. split.
    { apply get_quantity_known. unfold lookup_unit. by rewrite Hu. }
    split; [done|]. split; [apply grows_refl|]. split; [done|]. split; [done|].
    intros k Hn [? Hs]. congruence.
  - by apply get_quantity_builds.
Qed.

End Dynamic.

Lemma init_definitions (pint_registry : UnitRegistry)
    (defs : gmap string (list unit_element)) (self0 : UnitStore) :
  __init__ pint_registry (Some defs) = Ok self0 →
  cellml_definitions self0 = defs ∧ cellml_defined self0 = ∅.
Proof.
  unfold __init__. destruct (__add_undefined_units pint_registry) as [r|e]; [|done].
  intros [= <-]. cbn. split; [|done]. by destruct (decide (defs = ∅)) as [->|].
Qed.

Lemma Inv_init (pint_registry : UnitRegistry)
    (defs : gmap string (list unit_element)) (self0 : UnitStore) :
  __init__ pint_registry (Some defs) = Ok self0 → Inv (ureg self0) defs self0.
Proof.
  intros [Hd He]%init_definitions. split; [done|]. split; [done|]. split; [done|].
  split.
  - intros k u ? ?. congruence.
  - intros k. rewrite He. set_solver.
Qed.

(** The definitions are a dict keyed by name: two models that declare the
    same units in a different order give the same store. *)
Lemma declaration_order (pint_registry : UnitRegistry)
    (declarations declarations' : list (string * list unit_element)) :
  NoDup declarations.*1 → declarations ≡ₚ declarations' →
  __init__ pint_registry (Some (list_to_map declarations))
  = __init__ pint_registry (Some (list_to_map declarations')).
Proof. intros Hnd Hperm. by rewrite (list_to_map_proper _ _ Hnd Hperm). Qed.

(** Custom units over units of the registry and over one another.  In a new
    store over definitions in which no declared name is one the
    registry resolves or a prefix followed by a declared name, take a
    declared unit [X] whose definition bottoms out in the registry within
    [depth] levels of declared units, each fragment with a prefix of the
    registry and a number (integer or decimal fraction) as exponent, if
    any.  With a recursion budget above [depth], [get_quantity] returns a
    unit that prints as [X], is registered under [X] and marked as defined;
    every fragment of [X] is resolved in the registry it leaves, declared
    ones being marked as defined; and the unit is the product of the
    fragments: its scale is the product of the prefix factor times the scale
    of the fragment's unit, raised to the exponent, and its dimensionality
    the corresponding product.  The store is any store over these
    definitions: the order in which the model declares the units plays no
    part ([declaration_order]). *)
Theorem custom_unit_resolution (pint_registry : UnitRegistry)
    (defs : gmap string (list unit_element)) (self0 : UnitStore)
    (depth fuel : nat) (X : string) :
  __init__ pint_registry (Some defs) = Ok self0 →
  well_formed (ureg self0) defs = true →
  buildable (ureg self0) defs depth X = true →
  (depth < fuel)%nat →
  ∃ u self',
    get_quantity fuel X self0 = (Ok u, self') ∧
    unit_str u = X ∧
    reg_units (ureg self') !! X = Some u ∧
    X ∈ cellml_defined self' ∧
    ∃ elements units,
      defs !! X = Some elements ∧
      Forall2 (λ e v, ∃ nm, e !! "units" = Some nm ∧
                            lookup_unit (ureg self') nm = Some v ∧
                            (nm ∈ dom defs → nm ∈ cellml_defined self'))
              elements units ∧
      unit_scale u = product_scale (ureg self0) (zip elements units) ∧
      unit_dim u = product_dim (zip elements units).
Proof.
  intros Hinit [Hfresh Hindep]%andb_true_iff Hb Hfuel.
  pose proof (Inv_init _ _ _ Hinit) as HI.
  destruct (get_quantity_resolves (ureg self0) defs Hfresh Hindep depth fuel Hfuel
              X self0 HI Hb) as (u & self' & Hgq & HI' & _ & Hu & Hd & _).
  exists u, self'. split; [done|].
  destruct HI' as (_ & _ & _ & I4 & _).
  assert (Hdecl : X ∈ dom defs).
  { destruct depth; [done|]. cbn in Hb. apply elem_of_dom.
    destruct (defs !! X); [eauto|done]. }
  destruct (I4 X u Hu (declared_not_registered _ _ Hfresh X Hdecl))
    as (_ & _ & Hstr & elements & units & Hdef & Hall & Hs & Hdm).
  split; [done|]. split; [done|]. split; [done|].
  exists elements, units. split; [done|]. split; [|done].
  eapply Forall2_impl; [exact Hall|].
  intros e v (nm & uc & ? & Hv & _ & _ & _ & ? & _). exists nm.
  split; [done|]. split; [|done]. unfold lookup_unit. by rewrite Hv.
Qed.

Lemma custom_unit_resolution_witness :
  __init__ Sample.pint_registry (Some Sample.scenario_E)
  = Ok (Sample.store Sample.scenario_E) ∧
  well_formed (ureg (Sample.store Sample.scenario_E)) Sample.scenario_E = true ∧
  buildable (ureg (Sample.store Sample.scenario_E)) Sample.scenario_E 2 "X" = true ∧
  (2 < 3)%nat ∧
  ∃ u self',
    get_quantity 3 "X" (Sample.store Sample.scenario_E) = (Ok u, self') ∧
    unit_str u = "X" ∧
    reg_units (ureg self') !! "X" = Some u ∧
    "X" ∈ cellml_defined self'.
Proof.
  assert (H1 : __init__ Sample.pint_registry (Some Sample.scenario_E)
               = Ok (Sample.store Sample.scenario_E)) by (vm_compute; reflexivity).
  assert (H2 : well_formed (ureg (Sample.store Sample.scenario_E)) Sample.scenario_E
               = true) by (vm_compute; reflexivity).
  assert (H3 : buildable (ureg (Sample.store Sample.scenario_E)) Sample.scenario_E 2 "X"
               = true) by (vm_compute; reflexivity).
  assert (H4 : (2 < 3)%nat) by lia.
  split; [exact H1|]. split; [exact H2|]. split; [exact H3|]. split; [exact H4|].
  destruct (custom_unit_resolution _ _ _ 2 3 "X" H1 H2 H3 H4)
    as (u & self' & Hgq & Hstr & Hu & Hd & _).
  exists u, self'. split; [exact Hgq|]. split; [exact Hstr|]. split; [exact Hu|exact Hd].
Defined.

(** Scenario E in numbers: with [Y] a centimetre per second and [Z] a
    kilovolt, [X = Y^2 * milli-Z] is written to Pint as
    [X = ((Y)**2)*milliZ] and has the scale 1/10000. *)
Example scenario_E_value :
  let self0 := Sample.store Sample.scenario_E in
  match (_make_cellml_unit (get_quantity 2) "X" self0).1 with
  | Ok d => render d
  | Raise _ => EmptyString
  end = "X = ((Y)**2)*milliZ" ∧
  match (get_quantity 3 "X" self0).1 with
  | Ok u =>
      Qeq_bool (unit_scale u) (1 # 10000)
      && bool_decide (unit_dim u = {[ "[length]" := 4%Q; "[time]" := (-5)%Q;
                                      "[mass]" := 1%Q; "[current]" := (-1)%Q ]})
  | Raise _ => false
  end = true ∧
  elements (cellml_defined (get_quantity 3 "X" self0).2) = ["Y"; "Z"; "X"].
Proof. repeat split; vm_compute; reflexivity. Qed.

(** Exponents that are not integers: the square root of a second has the
    dimensionality time to the 1/2, and [2.0] is the exponent two. *)
Example fractional_exponents :
  let self0 := Sample.store Sample.fractional in
  buildable (ureg self0) Sample.fractional 1 "root_s" = true ∧
  match (get_quantity 2 "root_s" self0).1 with
  | Ok u => bool_decide (unit_dim u = {[ "[time]" := 1 # 2 ]})
  | Raise _ => false
  end = true ∧
  match (get_quantity 2 "cm2" self0).1 with
  | Ok u => Qeq_bool (unit_scale u) (1 # 10000)
            && bool_decide (unit_dim u = {[ "[length]" := 2%Q ]})
  | Raise _ => false
  end = true.
Proof. repeat split; vm_compute; reflexivity. Qed.

(** *** Base units *)

(** The units of a model as [test_algebraic] loads it: the base unit
    [new_base], as the parser hands it over, and a unit derived from it. *)
Definition algebraic : gmap string (list unit_element) :=
  {[ "new_base" := [ {[ "base_units" := "yes" ]} ];
     "derived" := [ {[ "units" := "new_base" ]};
                    {[ "units" := "second"; "exponent" := "-1" ]} ] ]}.

(** Some of the attributes of a registry of Pint. *)
Definition registry_methods : gset string :=
  {[ "define"; "parse_expression"; "get_dimensionality"; "get_base_units" ]}.

(** C3. A custom unit defined over a declared base unit is not resolved.
    The parser hands a base unit over as the one element
    [{'base_units': 'yes'}], which has no [units] key; [_make_cellml_unit]
    reads [unit_element['units']] of every element.  So a request for the
    base unit [B] raises [KeyError('units')], and so does a request for a
    declared unit [X] whose first fragment refers to it, the store being
    left as it was (for names that are no attributes of the registry
    object).  Whatever the names, no recursion budget makes the request for
    [X] return. *)
Theorem custom_unit_over_base_unit (attributes : gset string) (X B : string)
    (self : UnitStore) (e b : unit_element) (elements others : list unit_element) :
  cellml_definitions self !! X = Some (e :: elements) →
  e !! "units" = Some B →
  cellml_definitions self !! B = Some (b :: others) →
  b !! "units" = None →
  X ∉ cellml_defined self →
  B ∉ cellml_defined self →
  lookup_unit (ureg self) X = None →
  lookup_unit (ureg self) B = None →
  (B ∉ attributes →
   ∀ fuel, RegistryAttributes.get_quantity attributes (S fuel) B self
           = (Raise (KeyError (Some "units")), self)) ∧
  (X ∉ attributes → B ∉ attributes →
   ∀ fuel, RegistryAttributes.get_quantity attributes (S (S fuel)) X self
           = (Raise (KeyError (Some "units")), self)) ∧
  (∀ fuel u self',
     RegistryAttributes.get_quantity attributes fuel X self ≠ (Ok u, self')).
Proof.
  intros HX He HB Hb HnX HnB HlX HlB.
  assert (H1 : B ∉ attributes →
               ∀ fuel, RegistryAttributes.get_quantity attributes (S fuel) B self
                       = (Raise (KeyError (Some "units")), self)).
  { intros HaB fuel.
    apply (RegistryAttributes.get_quantity_first_element attributes fuel B self b others
             HB HnB HaB HlB).
    unfold bind, lift, getitem. by rewrite Hb. }
  split; [exact H1|].
  assert (Hfirst : ∀ fuel error,
            RegistryAttributes.get_quantity attributes fuel B self = (Raise error, self) →
            X ∉ attributes →
            RegistryAttributes.get_quantity attributes (S fuel) X self
            = (Raise error, self)).
  { intros fuel error Hfail HaX.
    apply (RegistryAttributes.get_quantity_first_element attributes fuel X self e elements
             HX HnX HaX HlX).
    unfold bind at 1. unfold lift, getitem. by rewrite He. }
  split.
  { intros HaX HaB fuel. apply Hfirst; [by apply H1|exact HaX]. }
  intros fuel u self'.
  destruct fuel as [|fuel]; [discriminate|].
  destruct (decide (X ∈ attributes)) as [HaX|HaX].
  { rewrite (RegistryAttributes.get_quantity_attribute attributes fuel X self HaX).
    unfold resolve, parse_expression. by rewrite HlX. }
  destruct fuel as [|fuel].
  { by rewrite (Hfirst 0%nat RecursionError eq_refl HaX). }
  destruct (decide (B ∈ attributes)) as [HaB|HaB].
  - rewrite (Hfirst (S fuel) (ValueError (cannot_find B))); [done| |exact HaX].
    rewrite (RegistryAttributes.get_quantity_attribute attributes fuel B self HaB).
    unfold resolve, parse_expression. by rewrite HlB.
  - rewrite (Hfirst (S fuel) (KeyError (Some "units"))); [done| |exact HaX].
    by apply H1.
Qed.

Lemma custom_unit_over_base_unit_witness :
  RegistryAttributes.get_quantity registry_methods 2 "derived" (Sample.store algebraic)
  = (Raise (KeyError (Some "units")), Sample.store algebraic).
Proof.
  refine (proj1 (proj2 (custom_unit_over_base_unit registry_methods "derived" "new_base"
            (Sample.store algebraic) {[ "units" := "new_base" ]}
            {[ "base_units" := "yes" ]}
            [ {[ "units" := "second"; "exponent" := "-1" ]} ] [] _ _ _ _ _ _ _ _)) _ _ 0%nat).
  - vm_compute. reflexivity.
  - vm_compute. reflexivity.
  - vm_compute. reflexivity.
  - vm_compute. reflexivity.
  - intros H. vm_compute in H. discriminate H.
  - intros H. vm_compute in H. discriminate H.
  - vm_compute. reflexivity.
  - vm_compute. reflexivity.
  - intros H. vm_compute in H. discriminate H.
  - intros H. vm_compute in H. discriminate H.
Defined.

End CustomUnits.

(** ** Comparing quantities *)

Module Comparison.
Import Pint Units.
Local Open Scope Q_scope.


End Comparison.

(** ** What a request does to the store *)

Module StoreInvariants.
Import Pint Units Resolution.

(** What a call may do to the store, whether it returns or raises: the
    definitions, the prefixes and the fractional powers stay as they are,
    the registered names and the names marked as defined can only become
    more, and a name that is newly marked is declared and registered. *)
Definition extends (self self' : UnitStore) : Prop :=
  cellml_definitions self' = cellml_definitions self ∧
  reg_prefixes (ureg self') = reg_prefixes (ureg self) ∧
  reg_fractional_power (ureg self') = reg_fractional_power (ureg self) ∧
  dom (reg_units (ureg self)) ⊆ dom (reg_units (ureg self')) ∧
  cellml_defined self ⊆ cellml_defined self' ∧
  (∀ k, k ∈ cellml_defined self' → k ∉ cellml_defined self →
        k ∈ dom (cellml_definitions self) ∧ k ∈ dom (reg_units (ureg self'))).

Definition extending {A} (m : Method A) : Prop := ∀ self, extends self (m self).2.

Lemma extends_refl self : extends self self.
Proof. unfold extends. split_and!; try done. Qed.

Lemma extends_trans s1 s2 s3 : extends s1 s2 → extends s2 s3 → extends s1 s3.
Proof.
  intros (A1 & A2 & A3 & A4 & A5 & A6) (B1 & B2 & B3 & B4 & B5 & B6).
  unfold extends. split_and!; try (etrans; eassumption).
  intros k Hk Hn. destruct (decide (k ∈ cellml_defined s2)) as [H2|H2].
  - destruct (A6 k H2 Hn) as [? ?]. split; [done|]. by apply B4.
  - destruct (B6 k Hk H2) as [? ?]. split; [|done]. by rewrite <- A1.
Qed.

Lemma extending_bind {A B} (m : Method A) (k : A → Method B) :
  extending m → (∀ a, extending (k a)) → extending (bind m k).
Proof.
  intros Hm Hk self. unfold bind. specialize (Hm self).
  destruct (m self) as [[a|e] s]; cbn in *; [|done].
  eapply extends_trans; [exact Hm|apply Hk].
Qed.

Lemma extending_pure {A} (r : result A) : extending (lift r).
Proof. intros self. apply extends_refl. Qed.

Lemma extending_for_unit_elements (gq : string → Method Unit) elements acc :
  (∀ n, extending (gq n)) → extending (for_unit_elements gq elements acc).
Proof.
  intros Hgq. revert acc. induction elements as [|e elements IH]; intros acc.
  { intros self. apply extends_refl. }
  cbn [for_unit_elements]. apply extending_bind; [apply extending_pure|]. intros nm.
  apply extending_bind; [apply Hgq|]. intros u. apply IH.
Qed.

Lemma define_dom (r r' : UnitRegistry) (d : Definition_) :
  define r d = Ok r' →
  reg_prefixes r' = reg_prefixes r ∧
  reg_fractional_power r' = reg_fractional_power r ∧
  dom (reg_units r) ⊆ dom (reg_units r') ∧
  def_name d ∈ dom (reg_units r').
Proof.
  unfold define. destruct (eval_terms r (def_terms d)) as [[s dm]|e]; [|done].
  intros [= <-]. cbn. split; [done|]. split; [done|].
  induction (def_aliases d) as [|a l [IH1 IH2]]; cbn.
  - split; [|set_solver]. rewrite dom_insert. set_solver.
  - rewrite dom_insert. set_solver.
Qed.

Lemma extending_make (gq : string → Method Unit) (unit_name : string) :
  (∀ n, extending (gq n)) → extending (_make_cellml_unit gq unit_name).
Proof.
  intros Hgq self. unfold _make_cellml_unit. unfold bind at 1. unfold lift.
  destruct (getitem _ _) as [elements|e]; [|apply extends_refl].
  apply (extending_bind (for_unit_elements gq elements [])).
  - by apply extending_for_unit_elements.
  - intros l s. apply extends_refl.
Qed.

Lemma make_name (gq : string → Method Unit) (unit_name : string) self d self' :
  _make_cellml_unit gq unit_name self = (Ok d, self') → def_name d = unit_name.
Proof.
  unfold _make_cellml_unit, bind, lift, ret.
  destruct (getitem _ _) as [elements|e]; [|done].
  destruct (for_unit_elements _ _ _ _) as [[l|e] s]; [|done].
  by intros [= <- _].
Qed.

Lemma extending_materialise (gq : string → Method Unit) (unit_name : string) :
  (∀ n, extending (gq n)) → extending (materialise gq unit_name).
Proof.
  intros Hgq self. unfold materialise.
  destruct (decide (unit_name ∈ dom (cellml_definitions self))) as [Hdecl|Hdecl];
    [|rewrite (bool_decide_false _ Hdecl); apply extends_refl].
  destruct (decide (unit_name ∉ cellml_defined self)) as [Hnot|Hnot];
    [|rewrite (bool_decide_false _ Hnot), andb_false_r; apply extends_refl].
  rewrite (bool_decide_true _ Hdecl), (bool_decide_true _ Hnot). cbn [andb].
  destruct (getattr _ _) as [u|[]]; try apply extends_refl.
  unfold bind. pose proof (extending_make gq unit_name Hgq self) as H1.
  destruct (_make_cellml_unit gq unit_name self) as [[d|e] s1] eqn:Hmake; [|exact H1].
  cbn [snd] in H1. apply make_name in Hmake.
  unfold ureg_define. destruct (define (ureg s1) d) as [r|e] eqn:Hdef; [|exact H1].
  apply define_dom in Hdef as (D1 & D2 & D3 & D4).
  eapply extends_trans; [exact H1|]. unfold cellml_defined_add, extends. cbn.
  split_and!; try done; [set_solver|].
  intros k Hk Hn. assert (k = unit_name) as -> by set_solver.
  destruct H1 as (E1 & _). rewrite E1. split; [done|]. by rewrite <- Hmake.
Qed.

Lemma extending_get_quantity (fuel : nat) (unit_name : string) :
  extending (get_quantity fuel unit_name).
Proof.
  revert unit_name. induction fuel as [|fuel IH]; intros unit_name.
  { intros self. apply extends_refl. }
  rewrite get_quantity_unfold. apply extending_bind.
  - by apply extending_materialise.
  - intros _ self. unfold resolve.
    destruct (parse_expression _ _) as [q|[]]; apply extends_refl.
Qed.

(** Whether a name resolves depends on the registered names and on the
    prefixes only. *)
Lemma lookup_prefixed_is_Some (us us' : gmap string Unit) ps (name : string) :
  dom us ⊆ dom us' →
  is_Some (lookup_prefixed us ps name) → is_Some (lookup_prefixed us' ps name).
Proof.
  intros Hdom. induction ps as [|[p [long f]] ps IH]; cbn; [done|].
  destruct (strip_prefix p name) as [rest|]; [|done].
  destruct (us !! rest) as [u|] eqn:Hu.
  - assert (is_Some (us' !! rest)) as [u' ->]; [|eauto].
    apply elem_of_dom, Hdom, elem_of_dom. eauto.
  - intros H. destruct (us' !! rest); eauto.
Qed.

Lemma lookup_unit_is_Some (r r' : UnitRegistry) (name : string) :
  reg_prefixes r' = reg_prefixes r →
  dom (reg_units r) ⊆ dom (reg_units r') →
  is_Some (lookup_unit r name) → is_Some (lookup_unit r' name).
Proof.
  intros Hp Hdom. unfold lookup_unit. rewrite Hp.
  destruct (reg_units r !! name) as [u|] eqn:Hu.
  - assert (is_Some (reg_units r' !! name)) as [u' ->]; [|eauto].
    apply elem_of_dom, Hdom, elem_of_dom. eauto.
  - intros H. destruct (reg_units r' !! name); [eauto|].
    eapply lookup_prefixed_is_Some; eassumption.
Qed.

(** X8. Whatever its outcome, a call of [get_quantity] leaves the
    definitions of the model and the prefixes of the registry as they were;
    names that were marked as defined stay marked, and names that resolved
    still resolve.  If every name marked as defined was declared and
    registered before the call, so it is after it. *)
Theorem get_quantity_only_adds (fuel : nat) (unit_name : string) (self : UnitStore) :
  let self' := (get_quantity fuel unit_name self).2 in
  cellml_definitions self' = cellml_definitions self ∧
  reg_prefixes (ureg self') = reg_prefixes (ureg self) ∧
  cellml_defined self ⊆ cellml_defined self' ∧
  (∀ name, is_Some (lookup_unit (ureg self) name) →
           is_Some (lookup_unit (ureg self') name)) ∧
  (cellml_defined self ⊆ dom (cellml_definitions self) ∩ dom (reg_units (ureg self)) →
   cellml_defined self' ⊆ dom (cellml_definitions self') ∩ dom (reg_units (ureg self'))).
Proof.
  intros self'. destruct (extending_get_quantity fuel unit_name self)
    as (E1 & E2 & E3 & E4 & E5 & E6). fold self' in E1, E2, E3, E4, E5, E6.
  split_and!; try done.
  - intros name. by apply lookup_unit_is_Some.
  - intros H k Hk. rewrite E1. destruct (decide (k ∈ cellml_defined self)) as [Hin|Hn].
    + specialize (H k Hin). set_solver.
    + destruct (E6 k Hk Hn). set_solver.
Qed.







End StoreInvariants.

(** ** The unit a definition denotes *)

Module Denotation.
Import Pint Units Resolution CustomUnits.

Section Meaning.

Variable r0 : UnitRegistry.
Variable defs : gmap string (list unit_element).

(** The unit the definitions give a declared name, read off the definitions
    and the registry of the new store alone: the product of the fragments,
    a fragment that refers to a declared name standing for the unit of that
    name. *)
Fixpoint denote (depth : nat) (X : string) : option Unit :=
  match depth with
  | O => None
  | S depth' =>
      elements ← defs !! X;
      units ← mapM (λ e : unit_element,
                      nm ← e !! "units";
                      if decide (nm ∈ dom defs) then denote depth' nm
                      else reg_units r0 !! nm) elements;
      Some (mkUnit X (product_scale r0 (zip elements units))
                     (product_dim (zip elements units)))
  end.


(** [get_quantity] on one name after the other. *)
Fixpoint get_quantities (fuel : nat) (names : list string) : Method (list Unit) :=
  match names with
  | [] => ret []
  | name :: names' =>
      let* u := get_quantity fuel name in
      let* us := get_quantities fuel names' in
      ret (u :: us)
  end.

Hypothesis Hfresh : fresh_names r0 defs = true.
Hypothesis Hindep : prefix_independent r0 defs = true.

Lemma registered_denoted (self : UnitStore) :
  Inv r0 defs self →
  ∀ depth X u,
    buildable r0 defs depth X = true →
    reg_units (ureg self) !! X = Some u →
    denote depth X = Some u.
Proof.
  intros HI. pose proof HI as (I1 & I2 & I3 & I4 & I5).
  induction depth as [|depth IH]; intros X u Hb Hu; [done|].
  cbn [buildable] in Hb. cbn [denote].
  destruct (defs !! X) as [elements|] eqn:Hdef; [|done]. cbn [mbind option_bind].
  assert (Hdecl : X ∈ dom defs) by (apply elem_of_dom; eauto).
  destruct (I4 X u Hu (declared_not_registered r0 defs Hfresh X Hdecl))
    as (_ & _ & Hstr & elements' & units & Hdef' & Hall & Hs & Hd).
  assert (elements' = elements) as -> by congruence.
  assert (Hm : mapM (λ e : unit_element,
                       nm ← e !! "units";
                       if decide (nm ∈ dom defs) then denote depth nm
                       else reg_units r0 !! nm) elements = Some units).
  { apply mapM_Some. clear Hs Hd Hdef Hdef'.
    induction Hall as [|e v elements units He _ IHall]; [constructor|].
    cbn [forallb] in Hb. apply andb_true_iff in Hb as [Hok Hrest].
    constructor; [|by apply IHall].
    destruct He as (nm & uc & Hnm & Hv & _).
    unfold fragment_ok in Hok. rewrite Hnm in Hok. rewrite Hnm. cbn [mbind option_bind].
    apply andb_true_iff in Hok as [_ Hok].
    case_decide as Hnmd.
    - rewrite bool_decide_true in Hok by done.
      apply andb_true_iff in Hok as [Hbelow _]. by apply IH.
    - rewrite bool_decide_false in Hok by done.
      destruct (reg_units r0 !! nm) as [u0|] eqn:H0; [|done].
      rewrite (lookup_weaken _ _ _ _ H0 I3) in Hv. done. }
  rewrite Hm. cbn [mbind option_bind]. f_equal.
  destruct u as [s sc dm]. cbn in *. by subst.
Qed.

Lemma get_quantity_denoted (depth fuel : nat) (X : string) (self : UnitStore) :
  Inv r0 defs self → buildable r0 defs depth X = true → (depth < fuel)%nat →
  ∃ u self',
    get_quantity fuel X self = (Ok u, self') ∧ Inv r0 defs self' ∧
    grows self self' ∧ denote depth X = Some u ∧
    (∀ k, reg_units (ureg self) !! k = None → is_Some (reg_units (ureg self') !! k) →
          buildable r0 defs depth k = true).
Proof.
  intros HI Hb Hfuel.
  destruct (get_quantity_resolves r0 defs Hfresh Hindep depth fuel Hfuel X self HI Hb)
    as (u & self' & Hgq & HI' & Hg & Hu & _ & Hnew).
  exists u, self'. split; [done|]. split; [done|]. split; [done|]. split; [|done].
  by eapply registered_denoted.
Qed.

Lemma get_quantities_spec (depth fuel : nat) (names : list string) (self : UnitStore) :
  Inv r0 defs self →
  forallb (buildable r0 defs depth) names = true → (depth < fuel)%nat →
  ∃ us self',
    get_quantities fuel names self = (Ok us, self') ∧ Inv r0 defs self' ∧
    mapM (denote depth) names = Some us.
Proof.
  intros HI Hall Hfuel. revert self HI.
  induction names as [|name names IH]; intros self HI.
  - exists [], self. done.
  - cbn [forallb] in Hall. apply andb_true_iff in Hall as [Hb Hrest].
    destruct (get_quantity_denoted depth fuel name self HI Hb Hfuel)
      as (u & self1 & Hgq & HI1 & _ & Hu & _).
    destruct (IH Hrest self1 HI1) as (us & self2 & Hgqs & HI2 & Hus).
    exists (u :: us), self2. cbn [get_quantities]. unfold bind, ret.
    rewrite Hgq, Hgqs. split; [done|]. split; [done|].
    cbn. rewrite Hu. cbn. rewrite Hus. done.
Qed.


End Meaning.

(** [RegistryAttributes.get_quantity] on one name after the other. *)
Fixpoint get_quantities_with (attributes : gset string) (fuel : nat)
    (names : list string) : Method (list Unit) :=
  match names with
  | [] => ret []
  | name :: names' =>
      let* u := RegistryAttributes.get_quantity attributes fuel name in
      let* us := get_quantities_with attributes fuel names' in
      ret (u :: us)
  end.

Lemma get_quantities_agrees (attributes : gset string) (fuel : nat)
    (names : list string) (self : UnitStore) :
  RegistryAttributes.plain_names attributes self →
  get_quantities_with attributes fuel names self = get_quantities fuel names self.
Proof.
  revert self. induction names as [|name names IH]; intros self Hself; [reflexivity|].
  cbn [get_quantities_with get_quantities].
  apply RegistryAttributes.bind_agrees;
    [by apply RegistryAttributes.get_quantity_agrees|].
  intros u s Hrun. apply RegistryAttributes.bind_agrees; [|reflexivity].
  apply IH. pose proof (Instances.keeps_get_quantity fuel name self) as Hk.
  rewrite Hrun in Hk. cbn [snd] in Hk.
  unfold RegistryAttributes.plain_names. rewrite Hk. exact Hself.
Qed.

(** X11. The unit of a declared name does not depend on what was asked
    before.  In a new store over well-formed definitions that declare no
    unit under the name of an attribute of the registry object, after any
    sequence of requests for units that can be built, a request for a unit
    [X] that can be built returns the unit that the same request returns in
    the new store: the one the definitions denote. *)
Theorem get_quantity_order_independent (attributes : gset string)
    (pint_registry : UnitRegistry)
    (defs : gmap string (list unit_element)) (self0 : UnitStore)
    (depth fuel : nat) (before : list string) (X : string) :
  __init__ pint_registry (Some defs) = Ok self0 →
  well_formed (ureg self0) defs = true →
  (∀ name, name ∈ dom defs → name ∉ attributes) →
  forallb (buildable (ureg self0) defs depth) before = true →
  buildable (ureg self0) defs depth X = true →
  (depth < fuel)%nat →
  ∃ us self1 u self2 self2',
    get_quantities_with attributes fuel before self0 = (Ok us, self1) ∧
    RegistryAttributes.get_quantity attributes fuel X self1 = (Ok u, self2) ∧
    RegistryAttributes.get_quantity attributes fuel X self0 = (Ok u, self2') ∧
    denote (ureg self0) defs depth X = Some u.
Proof.
  intros Hinit [Hfresh Hindep]%andb_true_iff Hplain Hbefore Hb Hfuel.
  pose proof (Inv_init _ _ _ Hinit) as HI.
  destruct (get_quantities_spec _ _ Hfresh Hindep depth fuel before self0 HI Hbefore Hfuel)
    as (us & self1 & Hgqs & HI1 & _).
  destruct (get_quantity_denoted _ _ Hfresh Hindep depth fuel X self1 HI1 Hb Hfuel)
    as (u & self2 & Hgq & _ & _ & Hu & _).
  destruct (get_quantity_denoted _ _ Hfresh Hindep depth fuel X self0 HI Hb Hfuel)
    as (u' & self2' & Hgq' & _ & _ & Hu' & _).
  assert (H0 : RegistryAttributes.plain_names attributes self0).
  { unfold RegistryAttributes.plain_names. destruct HI as [-> _]. exact Hplain. }
  assert (H1 : RegistryAttributes.plain_names attributes self1).
  { unfold RegistryAttributes.plain_names. destruct HI1 as [-> _]. exact Hplain. }
  exists us, self1, u, self2, self2'.
  split; [rewrite get_quantities_agrees by exact H0; exact Hgqs|].
  split; [rewrite RegistryAttributes.get_quantity_agrees by exact H1; exact Hgq|].
  split; [|exact Hu].
  rewrite RegistryAttributes.get_quantity_agrees by exact H0.
  rewrite Hgq'. f_equal. f_equal. congruence.
Qed.

Lemma get_quantity_order_independent_witness :
  ∃ us self1 u self2 self2',
    get_quantities_with registry_methods 3 ["Z"; "Y"] (Sample.store Sample.scenario_E)
    = (Ok us, self1) ∧
    RegistryAttributes.get_quantity registry_methods 3 "X" self1 = (Ok u, self2) ∧
    RegistryAttributes.get_quantity registry_methods 3 "X" (Sample.store Sample.scenario_E)
    = (Ok u, self2') ∧
    denote (ureg (Sample.store Sample.scenario_E)) Sample.scenario_E 2 "X" = Some u.
Proof.
  assert (H1 : __init__ Sample.pint_registry (Some Sample.scenario_E)
               = Ok (Sample.store Sample.scenario_E)) by (vm_compute; reflexivity).
  assert (H2 : well_formed (ureg (Sample.store Sample.scenario_E)) Sample.scenario_E
               = true) by (vm_compute; reflexivity).
  assert (H3 : forallb (buildable (ureg (Sample.store Sample.scenario_E))
                          Sample.scenario_E 2) ["Z"; "Y"] = true)
    by (vm_compute; reflexivity).
  assert (H4 : buildable (ureg (Sample.store Sample.scenario_E)) Sample.scenario_E 2 "X"
               = true) by (vm_compute; reflexivity).
  assert (H5 : (2 < 3)%nat) by lia.
  assert (H6 : ∀ name, name ∈ dom Sample.scenario_E → name ∉ registry_methods).
  { intros name Hname Hattr.
    assert (Hdom : dom Sample.scenario_E ∩ registry_methods = ∅)
      by (vm_compute; reflexivity).
    assert (Hin : name ∈ dom Sample.scenario_E ∩ registry_methods)
      by (apply elem_of_intersection; split; assumption).
    rewrite Hdom in Hin. by apply not_elem_of_empty in Hin. }
  exact (get_quantity_order_independent registry_methods _ _ _ 2 3 ["Z"; "Y"] "X"
           H1 H2 H6 H3 H4 H5).
Defined.




End Denotation.

(** ** The hierarchy as a whole *)

Module Structure.
Import Parser Hierarchy.

(** A model whose components have no place in a hierarchy yet. *)
Definition fresh (m : Model) : Prop :=
  ∀ n c, components m !! n = Some c →
         parent c = None ∧ encapsulated c = ∅ ∧ siblings c = ∅.

(** The model holds the hierarchy [fs], and nothing else: children and
    siblings are those of [fs], and a parent is a component that
    encapsulates. *)
Definition holds (fs : list (Name * list Name)) (m : Model) : Prop :=
  ∀ n c, components m !! n = Some c →
         (∀ x, x ∈ encapsulated c ↔ encapsulates fs n x) ∧
         (∀ x, x ∈ siblings c ↔ sibling_of fs n x) ∧
         (parent c = None ∨ encapsulates fs (parent c) n) ∧
         ((∃ p, encapsulates fs p n) → encapsulates fs (parent c) n).

Lemma add_relationships_fresh (model : Element) (m : Model) :
  single_relationship model = true →
  all_declared m (hierarchy model) = true →
  fresh m →
  ∃ m', __add_relationships model m = (Ok (), m') ∧
        dom (components m') = dom (components m) ∧
        declared m' (hierarchy model) ∧
        holds (hierarchy model) m'.
Proof.
  intros Hrel D Hfresh.
  assert (Hall : Forall (λ g, is_Some (relationship g))
                   (findall model (with_ns CELLML "group"))).
  { apply Forall_forall. intros g Hg. unfold single_relationship in Hrel.
    rewrite forallb_forall in Hrel. apply list_elem_of_In, Hrel in Hg.
    by apply bool_decide_eq_true in Hg. }
  apply all_declared_declared in D.
  destruct (add_groups_spec _ m Hall D) as (m' & Hrun & R).
  exists m'. split; [exact Hrun|].
  fold (hierarchy model) in R. pose proof R as [Hd Hg].
  split; [|split; [by eapply declared_recorded|]].
  - apply set_eq. intros n. rewrite !elem_of_dom, <- !not_eq_None_Some, Hd. done.
  - intros n c' Hc'. destruct (components m !! n) as [c|] eqn:Hc.
    2:{ apply Hd in Hc. congruence. }
    destruct (Hfresh n c Hc) as (P0 & E0 & S0).
    destruct (Hg n c c' Hc Hc') as (_ & _ & _ & En & Sb & P & L).
    split; [|split; [|split]].
    + intros x. rewrite En, E0. set_solver.
    + intros x. rewrite Sb, S0. set_solver.
    + destruct P as [P|P]; [left; congruence|by right].
    + exact L.
Qed.

(** X13. In a model whose components had no place in a hierarchy, the
    fields [__add_relationships] fills agree with one another.  Being a
    sibling is mutual and never holds of a component and itself; two
    siblings are children of one component; the parent of a component lists
    it among its children; and every child that is listed has a parent that
    lists it. *)
Theorem hierarchy_fields_agree (model : Element) (m : Model) :
  single_relationship model = true →
  all_declared m (hierarchy model) = true →
  fresh m →
  ∃ m',
    __add_relationships model m = (Ok (), m') ∧
    (∀ a b ca cb,
       components m' !! a = Some ca → components m' !! b = Some cb →
       (b ∈ siblings ca ↔ a ∈ siblings cb)) ∧
    (∀ a b ca,
       components m' !! a = Some ca → b ∈ siblings ca →
       a ≠ b ∧ ∃ p pc, components m' !! p = Some pc ∧
                       a ∈ encapsulated pc ∧ b ∈ encapsulated pc) ∧
    (∀ n c,
       components m' !! n = Some c → parent c ≠ None →
       ∃ pc, components m' !! parent c = Some pc ∧ n ∈ encapsulated pc) ∧
    (∀ p pc x,
       components m' !! p = Some pc → x ∈ encapsulated pc →
       ∃ xc qc, components m' !! x = Some xc ∧
                components m' !! parent xc = Some qc ∧ x ∈ encapsulated qc).
Proof.
  intros Hrel D Hfresh.
  destruct (add_relationships_fresh model m Hrel D Hfresh) as (m' & Hrun & _ & D' & H).
  exists m'. split; [exact Hrun|].
  assert (Hlists : ∀ p n, encapsulates (hierarchy model) p n →
            ∃ pc, components m' !! p = Some pc ∧ n ∈ encapsulated pc).
  { intros p n He. pose proof He as (cs & Hin & Ht & Hn).
    pose proof (D' p cs Hin Ht) as [[pc Hpc]%elem_of_dom _].
    exists pc. split; [exact Hpc|]. by apply (H p pc Hpc). }
  split_and!.
  - intros a b ca cb Ha Hb.
    destruct (H a ca Ha) as (_ & Sa & _), (H b cb Hb) as (_ & Sb & _).
    rewrite Sa, Sb. unfold sibling_of. naive_solver.
  - intros a b ca Ha Hin. destruct (H a ca Ha) as (_ & Sa & _).
    apply Sa in Hin as (p & cs & Hf & Ht & Hac & Hbc & Hne).
    split; [exact Hne|].
    destruct (Hlists p a) as (pc & Hpc & Hapc); [by exists cs|].
    exists p, pc. split; [exact Hpc|]. split; [exact Hapc|].
    apply (H p pc Hpc). by exists cs.
  - intros n c Hc Hp. destruct (H n c Hc) as (_ & _ & [P|P] & _); [done|].
    by apply Hlists.
  - intros p pc x Hpc Hx. destruct (H p pc Hpc) as (En & _).
    apply En in Hx. pose proof Hx as (cs & Hin & Ht & Hxcs).
    destruct (D' p cs Hin Ht) as [_ Hcs].
    pose proof (Hcs x Hxcs) as [xc Hxc]%elem_of_dom.
    destruct (H x xc Hxc) as (_ & _ & _ & L).
    destruct (Hlists (parent xc) x) as (qc & Hqc & Hq); [apply L; by exists p|].
    by exists xc, qc.
Qed.

Lemma hierarchy_fields_agree_witness :
  ∃ m',
    __add_relationships
      (Sample.model_xml [ Sample.group "encapsulation" Sample.circle_refs ])
      Sample.circle_model = (Ok (), m') ∧
    ∀ a b ca cb,
      components m' !! a = Some ca → components m' !! b = Some cb →
      (b ∈ siblings ca ↔ a ∈ siblings cb).
Proof.
  set (model := Sample.model_xml [ Sample.group "encapsulation" Sample.circle_refs ]).
  assert (H1 : single_relationship model = true) by (vm_compute; reflexivity).
  assert (H2 : all_declared Sample.circle_model (hierarchy model) = true)
    by (vm_compute; reflexivity).
  assert (H3 : fresh Sample.circle_model).
  { intros n c Hc. unfold Sample.circle_model in Hc. cbn [components] in Hc.
    apply elem_of_list_to_map_2 in Hc.
    apply list_elem_of_fmap in Hc as (s & [= -> ->] & _). done. }
  destruct (hierarchy_fields_agree model Sample.circle_model H1 H2 H3)
    as (m' & Hrun & Hsym & _).
  exists m'. split; [exact Hrun|exact Hsym].
Defined.

Lemma for_each_app {S A} (xs ys : list A) (body : A → Stateful S unit) (s : S) :
  for_each (xs ++ ys) body s =
  match for_each xs body s with
  | (Ok _, s') => for_each ys body s'
  | (Raise e, s') => (Raise e, s')
  end.
Proof.
  revert s. induction xs as [|x xs IH]; intros s; [done|].
  cbn [app for_each]. unfold bind. destruct (body x s) as [[[]|e] s1]; [apply IH|done].
Qed.

(** X14. A [<group>] that does not have exactly one [<relationship_ref>]
    stops [__add_relationships] with the assertion error: what the groups
    before it recorded stays in the model, and the groups after it are not
    looked at.  So a call that returns has met one [<relationship_ref>] in
    every group. *)
Theorem add_relationships_assertion (model : Element) (m : Model) :
  (∀ before g after m1,
     findall model (with_ns CELLML "group") = before ++ g :: after →
     for_each before add_group m = (Ok (), m1) →
     relationship g = None →
     __add_relationships model m = (Raise AssertionError, m1)) ∧
  (∀ m', __add_relationships model m = (Ok (), m') → single_relationship model = true).
Proof.
  split.
  - intros before g after m1 Hfind Hbefore Hg. unfold __add_relationships.
    rewrite Hfind, for_each_app, Hbefore. cbn [for_each]. unfold bind.
    rewrite add_group_other by (unfold is_encapsulation; congruence). by rewrite Hg.
  - unfold __add_relationships, single_relationship.
    generalize (findall model (with_ns CELLML "group")). intros groups. revert m.
    induction groups as [|g groups IH]; intros m m'; [done|].
    cbn [for_each forallb]. unfold bind.
    destruct (add_group g m) as [[[]|e] m1] eqn:Hg; [|done].
    intros Hrest. rewrite (IH m1 m' Hrest), andb_true_r.
    apply bool_decide_eq_true. unfold relationship. unfold add_group in Hg.
    destruct (findall g _) as [|r [|]]; [done|eauto|done].
Qed.

(** X15. A [<component_ref>] under a declared parent that names a
    component the model does not have makes the walk raise [KeyError] with
    that name; the parent has already been given the child. *)
Theorem handle_component_ref_undeclared (t : string) (a : gmap string string)
    (ref : Element) (rest : list Element) (parent_component : Name) (pc : Component)
    (m : Model) :
  is_component_ref ref →
  truthy parent_component = true →
  components m !! parent_component = Some pc →
  components m !! ref_name ref = None →
  __handle_component_ref (mkElement t a (ref :: rest)) parent_component m
  = (Raise (KeyError (ref_name ref)),
     mkModel (<[parent_component := add_encapsulated (ref_name ref) pc]> (components m))).
Proof.
  intros Href Ht Hpc Hnone. cbn [__handle_component_ref].
  assert (Hne : parent_component ≠ ref_name ref) by congruence.
  unfold is_component_ref in Href. rewrite decide_True by done.
  unfold bind at 1. unfold bind at 1. unfold record_child. rewrite Ht.
  unfold bind at 1. unfold on_component at 1. rewrite Hpc.
  unfold on_component. cbn [components]. unfold ref_name in *.
  rewrite lookup_insert_ne by done. by rewrite Hnone.
Qed.

Lemma handle_component_ref_undeclared_witness :
  ∃ m', __handle_component_ref
          (Sample.component_ref "circle_parent" [ Sample.component_ref "ghost" [] ])
          (Some "circle_parent") Sample.circle_model
        = (Raise (KeyError (Some "ghost")), m') ∧
        ∃ pc, components m' !! Some "circle_parent" = Some pc ∧
              Some "ghost" ∈ encapsulated pc.
Proof.
  destruct (components Sample.circle_model !! Some "circle_parent") as [pc|] eqn:Hpc.
  - eexists. split.
    + apply (handle_component_ref_undeclared _ _ (Sample.component_ref "ghost" []) []
               (Some "circle_parent") pc).
      * reflexivity.
      * reflexivity.
      * exact Hpc.
      * vm_compute. reflexivity.
    + exists (add_encapsulated (Some "ghost") pc). cbn [components].
      split; [apply lookup_insert_eq|]. cbn. set_solver.
  - vm_compute in Hpc. discriminate Hpc.
Defined.

End Structure.

(** ** Units, variables, components and connections of a document *)

Module Loading.
Import Parser Hierarchy Structure.

(** *** What a document declares *)

(** What a [<units>] element contributes to the dict, if anything. *)
Definition units_entry (units_element : Element) : option (list (gmap string string)) :=
  match children units_element with
  | [] => if decide (attrib units_element !! "base_units" = Some "yes")
          then Some [ {[ "base_units" := "yes" ]} ] else None
  | cs => Some (attrib <$> cs)
  end.

Definition is_map_components (e : Element) : Prop := tag e = with_ns CELLML "map_components".
Definition is_map_variables (e : Element) : Prop := tag e = with_ns CELLML "map_variables".

Definition components_of (e : Element) : Name * Name :=
  (attrib e !! "component_1", attrib e !! "component_2").
Definition variables_of (e : Element) : Name * Name :=
  (attrib e !! "variable_1", attrib e !! "variable_2").

Definition pair_up (map_component : Name * Name) (map_variables : Name * Name) : Connection :=
  ((map_component.1, map_variables.1), (map_component.2, map_variables.2)).

(** The connections a [<connection>] element stands for: its
    [<map_variables>], in order, each with the components of its last
    [<map_components>]. *)
Definition connections_of (connection : Element) : list Connection :=
  match last (filter is_map_components (children connection)) with
  | Some mc =>
      pair_up (components_of mc)
        <$> (variables_of <$> filter is_map_variables (children connection))
  | None => []
  end.

Lemma collect_units_lookup (d : gmap Name (list (gmap string string))) (e : Element)
    (units_name : Name) :
  collect_units d e !! units_name =
  match (if decide (attrib e !! "name" = units_name) then units_entry e else None) with
  | Some l => Some l
  | None => d !! units_name
  end.
Proof.
  unfold collect_units, units_entry.
  destruct (children e) as [|c cs]; cbn [fmap list_fmap].
  - destruct (decide (attrib e !! "base_units" = Some "yes")).
    + case_decide as Hn.
      * by rewrite Hn, lookup_insert_eq.
      * by rewrite lookup_insert_ne.
    + by case_decide.
  - case_decide as Hn.
    + by rewrite Hn, lookup_insert_eq.
    + by rewrite lookup_insert_ne.
Qed.

Lemma units_entry_nonempty (e : Element) l : units_entry e = Some l → l ≠ [].
Proof.
  unfold units_entry. destruct (children e); [case_decide|]; intros [= <-]; done.
Qed.

(** X16. The dict that [__add_units] collects maps a name to what the last
    [<units>] element of that name that contributes gives: the attribute
    dicts of its children, or, if it has no children and is marked
    [base_units="yes"], the one dict [{'base_units': 'yes'}].  A [<units>]
    element without children and without that mark contributes nothing, and
    does not hide an earlier element of its name.  No name is mapped to an
    empty list. *)
Theorem units_collected_spec (model : Element) :
  (∀ units_name,
     units_collected model !! units_name =
     last (omap (λ e, if decide (attrib e !! "name" = units_name)
                      then units_entry e else None)
                (findall model (with_ns CELLML "units")))) ∧
  (∀ units_name l, units_collected model !! units_name = Some l → l ≠ []).
Proof.
  assert (H : ∀ units_name,
     units_collected model !! units_name =
     last (omap (λ e, if decide (attrib e !! "name" = units_name)
                      then units_entry e else None)
                (findall model (with_ns CELLML "units")))).
  { intros units_name. unfold units_collected.
    induction (findall model (with_ns CELLML "units")) as [|e l IH] using rev_ind; [done|].
    rewrite foldl_app, omap_app. cbn [foldl omap list_omap].
    rewrite collect_units_lookup, IH.
    destruct (if decide _ then _ else _) as [entry|].
    - by rewrite last_snoc.
    - by rewrite app_nil_r. }
  split; [exact H|].
  intros units_name l. rewrite H. intros Hl%last_Some_elem_of.
  apply list_elem_of_omap in Hl as (e & _ & He).
  case_decide; [|done]. by eapply units_entry_nonempty.
Qed.

Lemma for_children_spec (children : list Element) mc mvs :
  for_children children mc mvs =
  (match last (filter is_map_components children) with
   | Some e => Some (components_of e)
   | None => mc
   end,
   mvs ++ (variables_of <$> filter is_map_variables children)).
Proof.
  revert mc mvs. induction children as [|child children IH]; intros mc mvs.
  { cbn. by rewrite app_nil_r. }
  cbn [for_children]. unfold is_map_components, is_map_variables in *.
  assert (Hne : with_ns CELLML "map_components" ≠ with_ns CELLML "map_variables") by done.
  rewrite !filter_cons.
  destruct (decide (tag child = with_ns CELLML "map_components")) as [E|N].
  - rewrite IH. rewrite decide_False by congruence. f_equal.
    rewrite last_cons. by destruct (last _).
  - destruct (decide (tag child = with_ns CELLML "map_variables")) as [E|N'].
    + rewrite IH. cbn [fmap list_fmap]. by rewrite <- app_assoc.
    + by rewrite IH.
Qed.

Definition has_map_components (connection : Element) : Prop :=
  filter is_map_components (children connection) ≠ [].

(** The components [map_component] is bound to after a run of
    [<connection>] elements. *)
Definition bound_after (connection_elements : list Element)
    (map_component : option (Name * Name)) : option (Name * Name) :=
  foldl (λ mc connection,
           match last (filter is_map_components (children connection)) with
           | Some e => Some (components_of e)
           | None => mc
           end) map_component connection_elements.

Lemma for_connections_cons (c : Element) (rest : list Element) mc connections :
  has_map_components c →
  for_connections (c :: rest) mc connections =
  for_connections rest (bound_after [c] mc) (connections ++ connections_of c).
Proof.
  intros Hc. cbn [for_connections bound_after foldl]. rewrite for_children_spec.
  cbn [app]. unfold connections_of, has_map_components in *.
  destruct (last (filter is_map_components (children c))) as [e|] eqn:Hlast.
  2:{ by apply last_None in Hlast. }
  destruct (components_of e) as [c1 c2] eqn:He.
  destruct (variables_of <$> filter is_map_variables (children c)) as [|mv mvs] eqn:Hmv.
  - by rewrite app_nil_r.
  - do 2 f_equal. apply list_fmap_ext. intros i [v0 v1] _. done.
Qed.

Lemma for_connections_app (pre post : list Element) mc connections :
  Forall has_map_components pre →
  for_connections (pre ++ post) mc connections =
  for_connections post (bound_after pre mc) (connections ++ (pre ≫= connections_of)).
Proof.
  intros Hpre. revert mc connections.
  induction Hpre as [|c pre Hc _ IH]; intros mc connections.
  { cbn. by rewrite app_nil_r. }
  rewrite <- app_comm_cons, for_connections_cons by done.
  rewrite IH, bind_cons, app_assoc. done.
Qed.

Lemma connections_of_length (l : list Element) :
  Forall has_map_components l →
  length (l ≫= connections_of) = length (l ≫= λ c, filter is_map_variables (children c)).
Proof.
  induction 1 as [|c l Hc _ IH]; [done|].
  rewrite !bind_cons, !length_app, IH. f_equal.
  unfold connections_of. unfold has_map_components in Hc.
  destruct (last (filter is_map_components (children c))) eqn:Hlast.
  - by rewrite !length_fmap.
  - by apply last_None in Hlast.
Qed.

(** X17. When every [<connection>] has a [<map_components>] child,
    [__add_connection] returns, and has appended to [model.connections], for
    one [<connection>] after the other, one pair for each of its
    [<map_variables>] in document order, with the components of its last
    [<map_components>], wherever in the [<connection>] that one stands.
    There are as many new connections as [<map_variables>] elements. *)
Theorem add_connection_well_formed (model : Element) (connections : list Connection) :
  Forall has_map_components (findall model (with_ns CELLML "connection")) →
  __add_connection model connections =
    (None, connections ++ (findall model (with_ns CELLML "connection") ≫= connections_of)) ∧
  length (__add_connection model connections).2 =
    (length connections +
     length (findall model (with_ns CELLML "connection")
             ≫= λ c, filter is_map_variables (children c)))%nat.
Proof.
  intros Hall. unfold __add_connection.
  pose proof (for_connections_app _ [] None connections Hall) as H.
  rewrite app_nil_r in H. rewrite H. cbn [for_connections]. split; [done|].
  cbn [snd]. by rewrite length_app, connections_of_length.
Qed.


Lemma bound_after_last (pre : list Element) (before mc : Element) mc0 :
  last pre = Some before →
  last (filter is_map_components (children before)) = Some mc →
  bound_after pre mc0 = Some (components_of mc).
Proof.
  intros [l' ->]%last_Some Hmc. unfold bound_after. rewrite foldl_app. cbn [foldl].
  by rewrite Hmc.
Qed.

(** X18. A [<connection>] without [<map_components>] is paired with the
    components of the [<connection>] before it: after well-formed
    connections, its [<map_variables>] are appended with the components the
    last of those named.  When it is the first [<connection>] of the
    document, [__add_connection] raises [UnboundLocalError] and appends
    nothing. *)
Theorem add_connection_reuses_components (model : Element) (connections : list Connection)
    (pre : list Element) (c : Element) :
  findall model (with_ns CELLML "connection") = pre ++ [c] →
  Forall has_map_components pre →
  ¬ has_map_components c →
  filter is_map_variables (children c) ≠ [] →
  (pre = [] →
   __add_connection model connections
   = (Some (UnboundLocalError "map_component"), connections)) ∧
  (∀ before mc,
     last pre = Some before →
     last (filter is_map_components (children before)) = Some mc →
     __add_connection model connections
     = (None,
        connections ++ (pre ≫= connections_of) ++
        (pair_up (components_of mc) <$>
         (variables_of <$> filter is_map_variables (children c))))).
Proof.
  intros Hfind Hpre Hc Hmv. unfold __add_connection. rewrite Hfind.
  rewrite for_connections_app by done. cbn [for_connections].
  rewrite for_children_spec. cbn [app].
  assert (Hnone : last (filter is_map_components (children c)) = None).
  { apply last_None. unfold has_map_components in Hc.
    by destruct (filter is_map_components (children c)); [|exfalso; apply Hc]. }
  rewrite Hnone.
  destruct (variables_of <$> filter is_map_variables (children c)) as [|mv mvs] eqn:Hmvs.
  { by apply fmap_nil_inv in Hmvs. }
  split.
  - intros ->. cbn. by rewrite app_nil_r.
  - intros before mc Hlast Hmc. rewrite (bound_after_last pre before mc None Hlast Hmc).
    destruct (components_of mc) as [c1 c2] eqn:He. rewrite <- app_assoc. do 3 f_equal.
    apply list_fmap_ext. intros i [v0 v1] _. done.
Qed.

(** *** [<component>] *)

Section Components.
#[local] Set Default Proof Using "Type".

(** What is taken of [cellmlmanip/model.py] and of the transpiler, as in
    [Parser.__add_components]. *)
Variable Rdf : Type.
Variable add_rdf : Element → Stateful Rdf unit.
Variable add_component : Component → Stateful Model unit.
Variable Metadata : Type.
Variable parse_string : string → Element → result (list Equation * Metadata).
Variable collect_variable_attributes :
  Metadata → gmap string (gmap string string) → gmap string (gmap string string).

Lemma for_each_snoc {S A} (xs : list A) (x : A) (body : A → Stateful S unit) (s : S) :
  for_each (xs ++ [x]) body s =
  match for_each xs body s with
  | (Ok _, s') => body x s'
  | (Raise e, s') => (Raise e, s')
  end.
Proof.
  revert s. induction xs as [|y xs IH]; intros s.
  - cbn [app for_each]. unfold bind, ret. by destruct (body x s) as [[[]|e] s1].
  - cbn [app for_each]. unfold bind. destruct (body y s) as [[[]|e] s1]; [apply IH|done].
Qed.

(** The fields of a component that say where it is in the hierarchy. *)
Definition same_place (c c' : Component) : Prop :=
  name c' = name c ∧ parent c' = parent c ∧
  encapsulated c' = encapsulated c ∧ siblings c' = siblings c.

Lemma variable_attributes_name (v : Element) :
  variable_attributes v !! "name" = attrib v !! "name".
Proof.
  unfold variable_attributes. destruct (attrib v !! with_ns CMETA "id"); [|done].
  rewrite lookup_insert_ne by done. by rewrite lookup_delete_ne.
Qed.

(** One turn of the loop of [__add_variables]. *)
Definition add_variable (variable_element : Element) : Stateful (Component * Rdf) unit :=
  let attributes := variable_attributes variable_element in
  let* key := lift (getitem attributes "name") in
  let* _ := on_fst (set_variable key attributes) in
  on_snd (__add_rdf Rdf add_rdf variable_element).

Lemma add_variable_Ok (v : Element) c r c' r' :
  add_variable v (c, r) = (Ok (), (c', r')) →
  ∃ n, attrib v !! "name" = Some n ∧
       variables c' = <[n := variable_attributes v]> (variables c) ∧
       same_place c c' ∧ equations c' = equations c.
Proof.
  unfold add_variable, bind, lift, getitem. rewrite variable_attributes_name.
  destruct (attrib v !! "name") as [n|]; [|done].
  unfold on_fst, on_snd, set_variable. cbn [fst snd].
  destruct (__add_rdf Rdf add_rdf v r) as [[[]|e] r1]; [|done].
  intros [= <- <-]. exists n. done.
Qed.

Lemma add_variable_unnamed (v : Element) s :
  attrib v !! "name" = None → add_variable v s = (Raise (KeyError (Some "name")), s).
Proof.
  intros Hn. unfold add_variable, bind, lift, getitem.
  by rewrite variable_attributes_name, Hn.
Qed.

Lemma add_variables_run (component_element : Element) (c c' : Component) (r r' : Rdf) :
  __add_variables Rdf add_rdf component_element (c, r) = (Ok (), (c', r')) →
  let variable_elements := findall component_element (with_ns CELLML "variable") in
  Forall (λ v, is_Some (attrib v !! "name")) variable_elements ∧
  (∀ n, variables c' !! n =
        match last (filter (λ v, attrib v !! "name" = Some n) variable_elements) with
        | Some v => Some (variable_attributes v)
        | None => variables c !! n
        end) ∧
  same_place c c' ∧ equations c' = equations c.
Proof.
  intros Hrun variable_elements. unfold __add_variables in Hrun.
  change (for_each variable_elements add_variable (c, r) = (Ok (), (c', r'))) in Hrun.
  clearbody variable_elements. revert c' r' Hrun.
  induction variable_elements as [|v l IH] using rev_ind; intros c' r'.
  - intros [= <- <-]. done.
  - rewrite for_each_snoc.
    destruct (for_each l add_variable (c, r)) as [[[]|e] [c1 r1]] eqn:Hl; [|done].
    intros (n & Hn & Hv & (P1 & P2 & P3 & P4) & Q)%add_variable_Ok.
    destruct (IH c1 r1 eq_refl) as (F & L & (S1 & S2 & S3 & S4) & E).
    split; [|split; [|split]].
    + apply Forall_app. split; [done|]. constructor; [by rewrite Hn|constructor].
    + intros k. rewrite Hv, filter_app, filter_cons, filter_nil, last_app.
      rewrite lookup_insert. case_decide as Hk.
      * subst k. by rewrite decide_True.
      * rewrite decide_False by congruence. cbn. apply L.
    + unfold same_place. split_and!; congruence.
    + congruence.
Qed.

Lemma variable_attributes_keys (v : Element) :
  variable_attributes v !! with_ns CMETA "id" = None ∧
  variable_attributes v !! "cmeta:id" =
    match attrib v !! with_ns CMETA "id" with
    | Some cmeta_id => Some cmeta_id
    | None => attrib v !! "cmeta:id"
    end ∧
  ∀ key, key ≠ with_ns CMETA "id" → key ≠ "cmeta:id" →
         variable_attributes v !! key = attrib v !! key.
Proof.
  unfold variable_attributes.
  destruct (attrib v !! with_ns CMETA "id") as [i|] eqn:Hi.
  - split; [|split].
    + rewrite lookup_insert_ne by done. apply lookup_delete_eq.
    + apply lookup_insert_eq.
    + intros key H1 H2. rewrite lookup_insert_ne by done. by rewrite lookup_delete_ne.
  - done.
Qed.

(** X19. When [__add_variables] returns, every [<variable>] of the
    component has a [name]; under each name the component holds the
    attributes of the last [<variable>] of that name, and under other names
    what it held before.  In the attributes the key of the [cmeta:id], if
    there is one, is [cmeta:id] in place of the namespaced key, and the other
    keys are as in the document.  The name, the equations and the place of
    the component in the hierarchy are as before. *)
Theorem add_variables_spec (component_element : Element) (c c' : Component) (r r' : Rdf) :
  __add_variables Rdf add_rdf component_element (c, r) = (Ok (), (c', r')) →
  let variable_elements := findall component_element (with_ns CELLML "variable") in
  Forall (λ v, is_Some (attrib v !! "name")) variable_elements ∧
  (∀ n, variables c' !! n =
        match last (filter (λ v, attrib v !! "name" = Some n) variable_elements) with
        | Some v => Some (variable_attributes v)
        | None => variables c !! n
        end) ∧
  (∀ v, variable_attributes v !! with_ns CMETA "id" = None ∧
        variable_attributes v !! "cmeta:id" =
          match attrib v !! with_ns CMETA "id" with
          | Some cmeta_id => Some cmeta_id
          | None => attrib v !! "cmeta:id"
          end ∧
        ∀ key, key ≠ with_ns CMETA "id" → key ≠ "cmeta:id" →
               variable_attributes v !! key = attrib v !! key) ∧
  same_place c c' ∧ equations c' = equations c.
Proof.
  intros Hrun variable_elements.
  destruct (add_variables_run component_element c c' r r' Hrun) as (H1 & H2 & H3 & H4).
  split; [exact H1|]. split; [exact H2|].
  split; [exact variable_attributes_keys|]. split; [exact H3|exact H4].
Qed.

(** X20. A [<variable>] without a [name], after variables that have one,
    makes [__add_variables] raise [KeyError('name')], when [model.add_rdf]
    does not raise before. *)
Theorem add_variables_missing_name (component_element : Element)
    (before after : list Element) (v : Element) (c : Component) (r : Rdf) :
  (∀ rdf r0, (add_rdf rdf r0).1 = Ok ()) →
  findall component_element (with_ns CELLML "variable") = before ++ v :: after →
  Forall (λ v, is_Some (attrib v !! "name")) before →
  attrib v !! "name" = None →
  (__add_variables Rdf add_rdf component_element (c, r)).1 = Raise (KeyError (Some "name")).
Proof.
  intros Hrdf Hfind Hbefore Hv. unfold __add_variables. fold add_variable.
  change ((for_each (findall component_element (with_ns CELLML "variable"))
             add_variable (c, r)).1 = Raise (KeyError (Some "name"))).
  rewrite Hfind. clear Hfind.
  assert (Hrdfs : ∀ l r0, ∃ r1, for_each l add_rdf r0 = (Ok (), r1)).
  { induction l as [|x l IH]; intros r0; [by eexists|].
    cbn [for_each]. unfold bind. specialize (Hrdf x r0).
    destruct (add_rdf x r0) as [[[]|e] r1]; [apply IH|done]. }
  revert c r. induction Hbefore as [|w before [n Hn] _ IH]; intros c r.
  - cbn [app for_each]. unfold bind. by rewrite add_variable_unnamed.
  - cbn [app for_each]. unfold bind at 1.
    assert (∃ s1, add_variable w (c, r) = (Ok (), s1)) as [[c1 r1] ->]; [|apply IH].
    unfold add_variable, bind, lift, getitem. rewrite variable_attributes_name, Hn.
    unfold on_fst, on_snd, set_variable, __add_rdf. cbn [fst snd].
    destruct (Hrdfs (findall w (with_ns RDF "RDF")) r) as [r1 ->]. by eexists.
Qed.

(** *** Components, then relationships *)

(** [add_component], when it returns, has put the component in the model
    under its name. *)
Hypothesis add_component_Ok : ∀ c m m',
  add_component c m = (Ok (), m') → components m' = <[name c := c]> (components m).

Lemma fill_component_place (component_element : Element) c r c' r' :
  fill_component Rdf add_rdf Metadata parse_string collect_variable_attributes
    component_element (c, r) = (Ok (), (c', r')) →
  same_place c c'.
Proof.
  unfold fill_component. unfold bind at 1.
  destruct (__add_variables Rdf add_rdf component_element (c, r))
    as [[[]|e] [c1 r1]] eqn:H1; [|done].
  apply add_variables_run in H1 as (_ & _ & (P1 & P2 & P3 & P4) & _).
  unfold bind, on_fst, on_snd. cbn [fst snd].
  destruct (__add_maths _ _ _ component_element c1) as [[[]|e] c2] eqn:H2; [|done].
  cbn [fst snd]. destruct (__add_rdf Rdf add_rdf component_element r1) as [[[]|e] r2]; [|done].
  intros [= <- <-]. unfold __add_maths in H2.
  assert (same_place c1 c2) as (Q1 & Q2 & Q3 & Q4).
  { destruct (find _ _); [|by injection H2 as <-].
    destruct (name c1) eqn:Hname; [|done].
    destruct (parse_string _ _) as [[eqs md]|err]; [|done].
    injection H2 as <-. by unfold same_place. }
  unfold same_place. split_and!; congruence.
Qed.

(** The names of the [<component>] elements of a document. *)
Definition component_names (model : Element) : list Name :=
  (λ component_element, attrib component_element !! "name")
    <$> findall model (with_ns CELLML "component").

Lemma add_components_run (model : Element) (m m' : Model) (r r' : Rdf) :
  __add_components Rdf add_rdf add_component Metadata parse_string
      collect_variable_attributes model (m, r) = (Ok (), (m', r')) →
  (∀ n, n ∈ component_names model →
        ∃ c, components m' !! n = Some c ∧ name c = n ∧
             parent c = None ∧ encapsulated c = ∅ ∧ siblings c = ∅) ∧
  (∀ n, n ∉ component_names model → components m' !! n = components m !! n).
Proof using add_component_Ok.
  unfold __add_components, component_names.
  generalize (findall model (with_ns CELLML "component")). intros l. revert m r.
  induction l as [|el l IH]; intros m r.
  - intros [= <- <-]. split; [|done]. intros n Hn. by apply elem_of_nil in Hn.
  - cbn [for_each fmap list_fmap]. unfold bind at 1. cbn [fst snd].
    destruct (fill_component Rdf add_rdf Metadata parse_string collect_variable_attributes
                el _) as [[[]|e] [c1 r1]] eqn:Hfill; [|done].
    apply fill_component_place in Hfill as (P1 & P2 & P3 & P4). cbn in P1, P2, P3, P4.
    destruct (add_component c1 m) as [[[]|e] m1] eqn:Hadd; [|done].
    apply add_component_Ok in Hadd. rewrite P1 in Hadd.
    intros Hrest. destruct (IH m1 r1 Hrest) as [Hin Hout]. split.
    + intros n Hn. destruct (decide (n ∈ (λ e, attrib e !! "name") <$> l)) as [Hl|Hl].
      * by apply Hin.
      * apply elem_of_cons in Hn as [->|Hn]; [|done].
        exists c1. rewrite (Hout _ Hl), Hadd, lookup_insert_eq. done.
    + intros n Hn. apply not_elem_of_cons in Hn as [Hne Hl].
      rewrite (Hout _ Hl), Hadd. by rewrite lookup_insert_ne.
Qed.

(** X21. When [__add_components] returns, the model holds a component
    under the name of every [<component>] element, with that name, no
    parent, no children and no siblings, also where a component of that
    name was in the model before; under other names it holds what it held
    before. *)
Theorem add_components_spec (model : Element) (m m' : Model) (r r' : Rdf) :
  __add_components Rdf add_rdf add_component Metadata parse_string
      collect_variable_attributes model (m, r) = (Ok (), (m', r')) →
  (∀ n, n ∈ component_names model →
        ∃ c, components m' !! n = Some c ∧ name c = n ∧
             parent c = None ∧ encapsulated c = ∅ ∧ siblings c = ∅) ∧
  (∀ n, n ∉ component_names model → components m' !! n = components m !! n).
Proof using add_component_Ok.
  apply add_components_run.
Qed.

(** Every component that a [<component_ref>] of an encapsulation group
    names is a [<component>] of the document. *)
Definition refs_declared (model : Element) : bool :=
  forallb (λ '(p, cs),
             negb (truthy p)
             || (bool_decide (p ∈ component_names model)
                 && forallb (λ c, bool_decide (c ∈ component_names model)) cs))
          (hierarchy model).

(** X22. [parse] adds the components before the relationships.  When
    [__add_components] has returned on a new model, and every group of the
    document has one [<relationship_ref>] and refers to [<component>]
    elements of the document only, [__add_relationships] returns; the
    model then holds the components of the document, with the children, the
    siblings and a parent as the encapsulation groups give them, and no
    others. *)
Theorem components_then_relationships (model : Element) (m1 : Model) (r r1 : Rdf) :
  __add_components Rdf add_rdf add_component Metadata parse_string
      collect_variable_attributes model (mkModel ∅, r) = (Ok (), (m1, r1)) →
  single_relationship model = true →
  refs_declared model = true →
  ∃ m2, __add_relationships model m1 = (Ok (), m2) ∧
        dom (components m2) = list_to_set (component_names model) ∧
        holds (hierarchy model) m2.
Proof using add_component_Ok.
  intros [Hin Hout]%add_components_run Hrel Hrefs. cbn [components] in Hout.
  assert (Hdom : ∀ n, n ∈ dom (components m1) ↔ n ∈ component_names model).
  { intros n. rewrite elem_of_dom. split.
    - intros [c Hc]. destruct (decide (n ∈ component_names model)) as [|Hn]; [done|].
      rewrite (Hout n Hn), lookup_empty in Hc. done.
    - intros Hn. destruct (Hin n Hn) as (c & -> & _). eauto. }
  assert (Hfresh : fresh m1).
  { intros n c Hc. destruct (Hin n) as (c' & Hc' & _ & ?); [apply Hdom, elem_of_dom; eauto|].
    congruence. }
  assert (D : all_declared m1 (hierarchy model) = true).
  { unfold refs_declared in Hrefs. unfold all_declared.
    rewrite forallb_forall in Hrefs |- *. intros [p cs] Hpcs.
    specialize (Hrefs _ Hpcs). cbn beta iota in Hrefs.
    destruct (truthy p); [|done]. cbn [negb orb] in *.
    apply andb_true_iff in Hrefs as [Hp Hcs]. apply andb_true_iff. split.
    - apply bool_decide_eq_true, Hdom. by apply bool_decide_eq_true in Hp.
    - rewrite forallb_forall in Hcs |- *. intros c Hc.
      apply bool_decide_eq_true, Hdom. specialize (Hcs c Hc).
      by apply bool_decide_eq_true in Hcs. }
  destruct (add_relationships_fresh model m1 Hrel D Hfresh) as (m2 & Hrun & Hd & _ & H).
  exists m2. split; [exact Hrun|]. split; [|exact H].
  apply set_eq. intros n. rewrite Hd, Hdom, elem_of_list_to_set. done.
Qed.

End Components.

(** *** A document for the examples *)

(** [model.rdf] as the list of the [<RDF>] elements added, and
    [model.add_component] as [components[component.name] = component]. *)
Definition keep_rdf (rdf : Element) : Stateful (list Element) unit :=
  λ l, (Ok (), l ++ [rdf]).

Definition put_component (component : Component) : Stateful Model unit :=
  λ model, (Ok (), mkModel (<[name component := component]> (components model))).

Definition variable (attributes : gmap string string) : Element :=
  mkElement (with_ns CELLML "variable") attributes [].

Definition component (component_name : string) (variable_elements : list Element) : Element :=
  mkElement (with_ns CELLML "component") {[ "name" := component_name ]} variable_elements.

Definition map_components (component_1 component_2 : string) : Element :=
  mkElement (with_ns CELLML "map_components")
    {[ "component_1" := component_1; "component_2" := component_2 ]} [].

Definition map_variables (variable_1 variable_2 : string) : Element :=
  mkElement (with_ns CELLML "map_variables")
    {[ "variable_1" := variable_1; "variable_2" := variable_2 ]} [].

Definition connection (children : list Element) : Element :=
  mkElement (with_ns CELLML "connection") ∅ children.

(** Two components, the first with a variable that has a [cmeta:id]. *)
Definition membrane : Element :=
  component "circle_x"
    [ variable {[ "name" := "V"; "units" := "mV"; with_ns CMETA "id" := "membrane_voltage" ]};
      variable {[ "name" := "time"; "units" := "ms"; "public_interface" := "in" ]} ].

Definition environment : Element :=
  component "circle_parent"
    [ variable {[ "name" := "time"; "units" := "ms"; "public_interface" := "out" ]} ].

(** A component with a variable that has no name. *)
Definition unnamed : Element :=
  component "c" [ variable {[ "name" := "a" ]}; variable {[ "units" := "ms" ]} ].

Definition document : Element :=
  Sample.model_xml
    [ environment; membrane;
      Sample.group "encapsulation"
        [ Sample.component_ref "circle_parent" [ Sample.component_ref "circle_x" [] ] ];
      connection [ map_variables "time" "time"; map_components "circle_x" "circle_parent" ];
      connection [ map_variables "V" "time" ] ].

Lemma add_connection_well_formed_witness :
  __add_connection
    (Sample.model_xml
       [ connection [ map_variables "time" "time";
                      map_components "circle_x" "circle_parent";
                      map_variables "V" "V" ] ]) []
  = (None, [ ((Some "circle_x", Some "time"), (Some "circle_parent", Some "time"));
             ((Some "circle_x", Some "V"), (Some "circle_parent", Some "V")) ]).
Proof.
  refine (eq_trans (proj1 (add_connection_well_formed _ [] _)) _).
  - repeat constructor. vm_compute. discriminate.
  - vm_compute. reflexivity.
Defined.

Lemma add_connection_reuses_components_witness :
  __add_connection document []
  = (None, [ ((Some "circle_x", Some "time"), (Some "circle_parent", Some "time"));
             ((Some "circle_x", Some "V"), (Some "circle_parent", Some "time")) ]).
Proof.
  refine (eq_trans
    (proj2 (add_connection_reuses_components document []
              [ connection [ map_variables "time" "time";
                             map_components "circle_x" "circle_parent" ] ]
              (connection [ map_variables "V" "time" ]) _ _ _ _) _
       (map_components "circle_x" "circle_parent") _ _) _).
  - vm_compute. reflexivity.
  - repeat constructor. vm_compute. discriminate.
  - intros H. apply H. vm_compute. reflexivity.
  - vm_compute. discriminate.
  - reflexivity.
  - vm_compute. reflexivity.
  - vm_compute. reflexivity.
Defined.

Lemma add_variables_spec_witness :
  ∃ c' r',
    __add_variables (list Element) keep_rdf membrane (new_Component (Some "circle_x"), [])
    = (Ok (), (c', r')) ∧
    ∃ attributes, variables c' !! "V" = Some attributes ∧
                  attributes !! "cmeta:id" = Some "membrane_voltage".
Proof.
  destruct (__add_variables (list Element) keep_rdf membrane
              (new_Component (Some "circle_x"), [])) as [[[]|e] [c' r']] eqn:Hrun.
  - exists c', r'. split; [reflexivity|].
    destruct (add_variables_spec _ keep_rdf membrane _ c' _ r' Hrun) as (_ & Hv & _).
    eexists. split; [rewrite Hv; vm_compute; reflexivity|]. vm_compute. reflexivity.
  - vm_compute in Hrun. discriminate Hrun.
Defined.

Lemma add_variables_missing_name_witness :
  (__add_variables (list Element) keep_rdf unnamed (new_Component (Some "c"), [])).1
  = Raise (KeyError (Some "name")).
Proof.
  apply (add_variables_missing_name (list Element) keep_rdf unnamed
           [ variable {[ "name" := "a" ]} ] [] (variable {[ "units" := "ms" ]})).
  - intros rdf r0. reflexivity.
  - vm_compute. reflexivity.
  - repeat constructor. eexists. vm_compute. reflexivity.
  - vm_compute. reflexivity.
Defined.

Lemma put_component_Ok (c : Component) (m m' : Model) :
  put_component c m = (Ok (), m') → components m' = <[name c := c]> (components m).
Proof. intros [= <-]. reflexivity. Defined.

Lemma add_components_spec_witness :
  ∃ m' r',
    __add_components (list Element) keep_rdf put_component unit Sample.transpile (λ _ vs, vs)
      document (mkModel ∅, []) = (Ok (), (m', r')) ∧
    ∃ c, components m' !! Some "circle_x" = Some c ∧ parent c = None.
Proof.
  destruct (__add_components (list Element) keep_rdf put_component unit Sample.transpile
              (λ _ vs, vs) document (mkModel ∅, [])) as [[[]|e] [m' r']] eqn:Hrun.
  - exists m', r'. split; [reflexivity|].
    destruct (add_components_spec _ keep_rdf put_component unit Sample.transpile (λ _ vs, vs)
                put_component_Ok document _ m' _ r' Hrun) as [Hin _].
    destruct (Hin (Some "circle_x")) as (c & Hc & _ & Hp & _).
    + vm_compute. right. left.
    + exists c. split; [exact Hc|exact Hp].
  - vm_compute in Hrun. discriminate Hrun.
Defined.

Lemma components_then_relationships_witness :
  ∃ m1 r1 m2,
    __add_components (list Element) keep_rdf put_component unit Sample.transpile (λ _ vs, vs)
      document (mkModel ∅, []) = (Ok (), (m1, r1)) ∧
    __add_relationships document m1 = (Ok (), m2) ∧
    dom (components m2) = list_to_set (component_names document).
Proof.
  destruct (__add_components (list Element) keep_rdf put_component unit Sample.transpile
              (λ _ vs, vs) document (mkModel ∅, [])) as [[[]|e] [m1 r1]] eqn:Hrun.
  - assert (H1 : single_relationship document = true) by (vm_compute; reflexivity).
    assert (H2 : refs_declared document = true) by (vm_compute; reflexivity).
    destruct (components_then_relationships _ keep_rdf put_component unit Sample.transpile
                (λ _ vs, vs) put_component_Ok document m1 _ r1 Hrun H1 H2)
      as (m2 & Hrel & Hdom & _).
    exists m1, r1, m2. split; [reflexivity|]. split; [exact Hrel|exact Hdom].
  - vm_compute in Hrun. discriminate Hrun.
Defined.

End Loading.

(** ** The construction of a store *)

Module Construction.
Import Pint Units ObjectStore Instances.

(** X23. [UnitStore(cellml_def)] keeps the dict it is given only when that
    dict is not empty: the instance then holds the very object, so that two
    instances made over it share it.  Given an empty dict, the instance
    holds a new dict of its own, and the one it was given is left alone. *)
Theorem new_UnitStore_keeps_nonempty_dict (pint_registry : UnitRegistry) (cellml_def : nat)
    (d : gmap string (list unit_element)) (h h' : Heap) (self : nat) :
  h !! cellml_def = Some (ODict d) →
  new_UnitStore pint_registry (Some cellml_def) h = (Ok self, h') →
  ∃ a b c,
    fields h' self = Some (a, b, c) ∧
    h' !! cellml_def = Some (ODict d) ∧
    (d ≠ ∅ → b = cellml_def) ∧
    (d = ∅ → b ≠ cellml_def ∧ h !! b = None ∧ h' !! b = Some (ODict ∅)).
Proof.
  intros Hd. unfold new_UnitStore, bind.
  destruct (alloc_spec (ORegistry pint_registry) h) as (a & -> & Ha).
  destruct (__add_undefined_units pint_registry) as [r|e]; [|done].
  rewrite insert_insert_eq. set (h1 := <[a:=ORegistry r]> h).
  assert (Hne : a ≠ cellml_def) by congruence.
  assert (Hd1 : h1 !! cellml_def = Some (ODict d)).
  { unfold h1. by rewrite lookup_insert_ne. }
  unfold definitions_object. rewrite Hd1.
  destruct (decide (d = ∅)) as [He|He].
  - destruct (alloc_spec (ODict ∅) h1) as (b & -> & Hb).
    set (h2 := <[b:=ODict ∅]> h1).
    destruct (alloc_spec (OSet ∅) h2) as (c & -> & Hc).
    set (h3 := <[c:=OSet ∅]> h2).
    destruct (alloc_spec (OUnitStore a b c) h3) as (s & -> & Hs).
    intros [= <- <-]. exists a, b, c.
    assert (Hbd : b ≠ cellml_def) by congruence.
    assert (Hd2 : h2 !! cellml_def = Some (ODict d)).
    { unfold h2. by rewrite lookup_insert_ne. }
    assert (Hcd : c ≠ cellml_def) by congruence.
    assert (Hd3 : h3 !! cellml_def = Some (ODict d)).
    { unfold h3. by rewrite lookup_insert_ne. }
    assert (Hsd : s ≠ cellml_def) by congruence.
    split; [unfold fields; by rewrite lookup_insert_eq|].
    split; [by rewrite lookup_insert_ne|]. split; [done|]. intros _.
    split; [done|]. split.
    + unfold h1 in Hb. destruct (decide (a = b)) as [->|Hab].
      * by rewrite lookup_insert_eq in Hb.
      * by rewrite lookup_insert_ne in Hb.
    + assert (Hb2 : h2 !! b = Some (ODict ∅)) by apply lookup_insert_eq.
      assert (Hb3 : h3 !! b = Some (ODict ∅)).
      { unfold h3. rewrite lookup_insert_ne; [done|congruence]. }
      rewrite lookup_insert_ne; [done|congruence].
  - destruct (alloc_spec (OSet ∅) h1) as (c & -> & Hc).
    set (h3 := <[c:=OSet ∅]> h1).
    destruct (alloc_spec (OUnitStore a cellml_def c) h3) as (s & -> & Hs).
    intros [= <- <-]. exists a, cellml_def, c.
    assert (Hcd : c ≠ cellml_def) by congruence.
    assert (Hd3 : h3 !! cellml_def = Some (ODict d)).
    { unfold h3. by rewrite lookup_insert_ne. }
    assert (Hsd : s ≠ cellml_def) by congruence.
    split; [unfold fields; by rewrite lookup_insert_eq|].
    split; [by rewrite lookup_insert_ne|]. split; [done|]. done.
Qed.

Lemma new_UnitStore_keeps_nonempty_dict_witness :
  ∃ self h' a c,
    new_UnitStore Sample.tiny_registry (Some 0%nat) {[ 0%nat := ODict Sample.colliding ]}
    = (Ok self, h') ∧
    fields h' self = Some (a, 0%nat, c).
Proof.
  destruct (new_UnitStore Sample.tiny_registry (Some 0%nat)
              {[ 0%nat := ODict Sample.colliding ]}) as [[self|e] h'] eqn:Hnew.
  - assert (H0 : ({[ 0%nat := ODict Sample.colliding ]} : Heap) !! 0%nat
                 = Some (ODict Sample.colliding)) by (vm_compute; reflexivity).
    destruct (new_UnitStore_keeps_nonempty_dict Sample.tiny_registry 0 Sample.colliding
                {[ 0%nat := ODict Sample.colliding ]} h' self H0 Hnew)
      as (a & b & c & Hf & _ & Hb & _).
    exists self, h', a, c. split; [reflexivity|].
    rewrite Hf. rewrite Hb; [reflexivity|]. vm_compute. discriminate.
  - vm_compute in Hnew. discriminate Hnew.
Defined.


(** X24. A new store over a registry that resolves [mol] and [second]
    knows [katal] and its alias [kat] as one unit, a [mol] per [second] of
    that registry; no name is marked as defined, and the definitions are
    those it was given, none when it was given [None]. *)
Theorem init_defines_katal (pint_registry : UnitRegistry)
    (cellml_def : option (gmap string (list unit_element))) (mol second : Unit) :
  lookup_unit pint_registry "mol" = Some mol →
  lookup_unit pint_registry "second" = Some second →
  ∃ self katal,
    __init__ pint_registry cellml_def = Ok self ∧
    reg_units (ureg self) !! "katal" = Some katal ∧
    reg_units (ureg self) !! "kat" = Some katal ∧
    unit_str katal = "katal" ∧
    (unit_scale katal == unit_scale mol / unit_scale second)%Q ∧
    unit_dim katal
    = dim_mul (unit_dim mol) (dim_mul (dim_pow (-1) (unit_dim second)) ∅) ∧
    cellml_definitions self = default ∅ cellml_def ∧
    cellml_defined self = ∅.
Proof.
  unfold __init__, __add_undefined_units, define, katal_definition.
  cbn [def_terms def_name def_aliases eval_terms eval_term]. unfold getattr.
  intros -> ->. cbn [result_bind foldr].
  eexists _, _. split; [reflexivity|]. cbn [ureg reg_units].
  split; [rewrite lookup_insert_ne by done; apply lookup_insert_eq|].
  split; [apply lookup_insert_eq|]. split; [reflexivity|].
  split; [cbn [unit_scale]; unfold Qdiv; ring|]. split; [reflexivity|].
  split; [|reflexivity]. cbn [cellml_definitions].
  destruct cellml_def as [d|]; [|done]. cbn. by destruct (decide (d = ∅)) as [->|].
Qed.

Lemma init_defines_katal_witness :
  ∃ self katal,
    __init__ Sample.pint_registry None = Ok self ∧
    reg_units (ureg self) !! "katal" = Some katal ∧
    reg_units (ureg self) !! "kat" = Some katal ∧
    unit_str katal = "katal".
Proof.
  destruct (lookup_unit Sample.pint_registry "mol") as [mol|] eqn:Hmol;
    [|vm_compute in Hmol; discriminate Hmol].
  destruct (lookup_unit Sample.pint_registry "second") as [second|] eqn:Hsecond;
    [|vm_compute in Hsecond; discriminate Hsecond].
  destruct (init_defines_katal Sample.pint_registry None mol second Hmol Hsecond)
    as (self & katal & Hinit & H1 & H2 & H3 & _).
  exists self, katal. split; [exact Hinit|]. split; [exact H1|]. split; [exact H2|exact H3].
Defined.

End Construction.
